(** * BillHive: a shallow embedding of server.js, email.js and emailTemplate.js

    The development follows the three source files of the repository.
    JavaScript values that the handlers touch are the values that
    [JSON.parse] produces (the request body, the rows read back from the
    database); they are embedded as the inductive type [json], with
    [option json] standing for a possibly-[undefined] value.  Strings are
    sequences of UTF-16 code units, numbers are IEEE-754 binary64 values
    ([spec_float] of the Standard Library), exceptions are an explicit
    [result] type, and the SQLite database is an explicit state. *)

From Stdlib Require Import ZArith NArith List Bool Lia String Ascii.
From Stdlib Require Import SpecFloat.
From Stdlib Require Import Sorting.Permutation Sorting.Sorted.
Import ListNotations.

Set Implicit Arguments.

(* ================================================================== *)
(** ** JavaScript strings *)

Module JsString.

(** A JavaScript string is a sequence of 16-bit code units. *)
Definition jsstring : Type := list N.

Definition unit_eqb (a b : N) : bool := N.eqb a b.

Fixpoint eqb (s t : jsstring) : bool :=
  match s, t with
  | [], [] => true
  | a :: s', b :: t' => N.eqb a b && eqb s' t'
  | _, _ => false
  end.

(** Bytes of a source literal (the file is UTF-8, as the JavaScript
    sources are). *)
Fixpoint bytes_of (s : string) : list N :=
  match s with
  | EmptyString => []
  | String c r => N_of_ascii c :: bytes_of r
  end.

(** UTF-8 decoding of a literal into code points.  A malformed sequence
    yields U+FFFD; the literals of this file are well formed. *)
Fixpoint utf8_decode (bs : list N) : list N :=
  match bs with
  | [] => []
  | b0 :: r =>
      if b0 <? 128 then b0 :: utf8_decode r
      else if b0 <? 224 then
        match r with
        | b1 :: r1 =>
            (N.lor (N.shiftl (N.land b0 31) 6) (N.land b1 63)) :: utf8_decode r1
        | _ => [65533]
        end
      else if b0 <? 240 then
        match r with
        | b1 :: b2 :: r2 =>
            (N.lor (N.shiftl (N.land b0 15) 12)
               (N.lor (N.shiftl (N.land b1 63) 6) (N.land b2 63)))
            :: utf8_decode r2
        | _ => [65533]
        end
      else
        match r with
        | b1 :: b2 :: b3 :: r3 =>
            (N.lor (N.shiftl (N.land b0 7) 18)
               (N.lor (N.shiftl (N.land b1 63) 12)
                  (N.lor (N.shiftl (N.land b2 63) 6) (N.land b3 63))))
            :: utf8_decode r3
        | _ => [65533]
        end
  end%N.

(** UTF-16 encoding of one code point: a supplementary code point is a
    surrogate pair. *)
Definition utf16_units (cp : N) : list N :=
  (if cp <? 65536 then [cp]
   else let c := cp - 65536 in
        [55296 + N.shiftr c 10; 56320 + N.land c 1023])%N.

(** The JavaScript string denoted by a source literal. *)
Definition u16 (s : string) : jsstring :=
  flat_map utf16_units (utf8_decode (bytes_of s)).

Definition length (s : jsstring) : Z := Z.of_nat (List.length s).

(** [String.prototype.slice(start, end)]: negative positions count from
    the end, both positions are clamped to the string. *)
Definition slice (s : jsstring) (start end_ : Z) : jsstring :=
  let len := length s in
  let from := if (start <? 0)%Z then Z.max (len + start) 0 else Z.min start len in
  let to := if (end_ <? 0)%Z then Z.max (len + end_) 0 else Z.min end_ len in
  firstn (Z.to_nat (Z.max (to - from) 0)) (skipn (Z.to_nat from) s).

(** [t] is a prefix of [s]. *)
Fixpoint starts_with (t s : jsstring) : bool :=
  match t, s with
  | [], _ => true
  | a :: t', b :: s' => N.eqb a b && starts_with t' s'
  | _ :: _, [] => false
  end.

(** [String.prototype.includes(t)]. *)
Fixpoint includes (s t : jsstring) : bool :=
  starts_with t s ||
  match s with
  | [] => false
  | _ :: s' => includes s' t
  end.

(** [String.prototype.replace(pat, rep)] with a string pattern: only the
    first occurrence is replaced.  [rep] holds no [$] pattern at the call
    sites. *)
Fixpoint replace (s pat rep : jsstring) : jsstring :=
  if starts_with pat s then rep ++ skipn (List.length pat) s
  else match s with
       | [] => []
       | c :: s' => c :: replace s' pat rep
       end.

(** [String.prototype.repeat(n)]. *)
Fixpoint repeat (s : jsstring) (n : nat) : jsstring :=
  match n with
  | O => []
  | S n' => s ++ repeat s n'
  end.

(** [String.prototype.padEnd(n)]: pads with spaces up to [n] code units. *)
Definition padEnd (s : jsstring) (n : nat) : jsstring :=
  s ++ List.repeat 32%N (n - List.length s).

(** [Array.prototype.join(sep)] on an array of strings. *)
Fixpoint join (sep : jsstring) (l : list jsstring) : jsstring :=
  match l with
  | [] => []
  | [s] => s
  | s :: r => s ++ sep ++ join sep r
  end.

End JsString.
Import JsString.

(* ================================================================== *)
(** ** JavaScript numbers *)

Module JsNumber.

Local Open Scope Z_scope.

(** A Number is an IEEE-754 binary64 value: [S754_finite s m e] is
    [(-1)^s * m * 2^e].  A value read from JSON is canonical:
    [valid_binary 53 1024] holds of it. *)
Definition number : Type := spec_float.

Definition valid_double (x : number) : bool := valid_binary 53 1024 x.

Definition number_eqb (x y : number) : bool :=
  match x, y with
  | S754_zero s, S754_zero t => Bool.eqb s t
  | S754_infinity s, S754_infinity t => Bool.eqb s t
  | S754_nan, S754_nan => true
  | S754_finite s m e, S754_finite t n f =>
      Bool.eqb s t && Pos.eqb m n && Z.eqb e f
  | _, _ => false
  end.

(** Decimal digits of a natural number, most significant first
    (["0"] for zero). *)
Fixpoint digits_aux (fuel : nat) (n : Z) (acc : jsstring) : jsstring :=
  match fuel with
  | O => acc
  | S f =>
      let acc' := Z.to_N (48 + n mod 10) :: acc in
      if n / 10 =? 0 then acc' else digits_aux f (n / 10) acc'
  end.

Definition digits (n : Z) : jsstring :=
  digits_aux (S (Z.to_nat (Z.log2 n))) n [].

(** The Number value of the non-negative rational [a / b] ([0 <= a],
    [0 < b]): the nearest binary64 value, ties to even, infinity from
    [2^1024 - 2^970] on.  Every binary64 value is a multiple of
    [2^-1074]: [q0 + r0 / b] is [a / b] counted in that unit, [s] is the
    number of low bits of [q0] beyond the 53 a mantissa holds, and the
    bits dropped, with [r0], decide the rounding. *)
Definition round_ratio (a b : Z) : number :=
  let n := a * 2 ^ 1074 in
  let q0 := n / b in
  let r0 := n mod b in
  let s := Z.max (Z.log2 q0 + 1 - 53) 0 in
  let q := q0 / 2 ^ s in
  let rem := q0 mod 2 ^ s in
  let q' := match 2 * (rem * b + r0) ?= 2 ^ s * b with
            | Lt => q
            | Gt => q + 1
            | Eq => if Z.even q then q else q + 1
            end in
  let m := if q' =? 2 ^ 53 then 2 ^ 52 else q' in
  let e := if q' =? 2 ^ 53 then s + 1 - 1074 else s - 1074 in
  if m =? 0 then S754_zero false
  else if 971 <? e then S754_infinity false
  else S754_finite false (Z.to_pos m) e.

(** The Number value of the decimal [d * 10^q], [0 <= d]. *)
Definition round_dec (d q : Z) : number :=
  if q <? 0 then round_ratio d (10 ^ (- q)) else round_ratio (d * 10 ^ q) 1.

(** The positive finite value [m * 2^e] as a fraction. *)
Definition ratio_of (m : positive) (e : Z) : Z * Z :=
  if e <? 0 then (Zpos m, 2 ^ (- e)) else (Zpos m * 2 ^ e, 1).

(** The decimal exponent [n] of [a / b]: [10^(n-1) <= a/b < 10^n]. *)
Fixpoint lead_zeros (fuel : nat) (a b j : Z) : Z :=
  match fuel with
  | O => j
  | S f => if b <=? a * 10 then j else lead_zeros f (a * 10) b (j + 1)
  end.

Definition dec_exponent (a b : Z) : Z :=
  if b <=? a then Z.of_nat (List.length (digits (a / b)))
  else 1 - lead_zeros (S (Z.to_nat (Z.log2 b))) a b 1.

(** The exact decimal expansion of [m * 2^e], as [d * 10^q]. *)
Definition exact_decimal (m : positive) (e : Z) : Z * Z :=
  if e <? 0 then (Zpos m * 5 ^ (- e), e) else (Zpos m * 2 ^ e, 0).

(** Step 5 of Number::toString: the decimal [s * 10^q] with the fewest
    digits [k] whose Number value is [x = m * 2^e]; among the decimals of
    that length the one closest to [x], the even one on a tie.  The two
    neighbours of [x] with [k] digits are tried for [k = 1, 2, ...]; 17
    digits always identify a binary64 value, so the exact expansion that
    ends the search is never reached. *)
Fixpoint shortest (fuel : nat) (k : Z) (m : positive) (e : Z) (n : Z)
  : Z * Z :=
  match fuel with
  | O => exact_decimal m e
  | S f =>
      let x := S754_finite false m e in
      let '(a, b) := ratio_of m e in
      let q := n - k in
      let num := if q <? 0 then a * 10 ^ (- q) else a in
      let den := if q <? 0 then b else b * 10 ^ q in
      let lo := num / den in
      let r := num mod den in
      let hi := if lo + 1 =? 10 ^ k then 10 ^ (k - 1) else lo + 1 in
      let qhi := if lo + 1 =? 10 ^ k then q + 1 else q in
      let ok_lo := number_eqb (round_dec lo q) x in
      let ok_hi := number_eqb (round_dec hi qhi) x in
      let prefer_lo := (2 * r <? den) || ((2 * r =? den) && Z.even lo) in
      if ok_lo && (prefer_lo || negb ok_hi) then (lo, q)
      else if ok_hi then (hi, qhi)
      else shortest f (k + 1) m e n
  end.

Definition zeros (n : Z) : jsstring := List.repeat 48%N (Z.to_nat n).

(** Steps 6 to 10 of Number::toString: the digits [ds] of [s] laid out
    for the decimal exponent [n]. *)
Definition layout (ds : jsstring) (n : Z) : jsstring :=
  let k := Z.of_nat (List.length ds) in
  if (-5 <=? n) && (n <=? 21) then
    if k <=? n then ds ++ zeros (n - k)
    else if 0 <? n then
      firstn (Z.to_nat n) ds ++ [46%N] ++ skipn (Z.to_nat n) ds
    else [48%N; 46%N] ++ zeros (- n) ++ ds
  else
    let e := n - 1 in
    let sign := if e <? 0 then 45%N else 43%N in
    let mant := match ds with
                | [] => []
                | [d] => [d]
                | d :: rest => d :: 46%N :: rest
                end in
    mant ++ [101%N; sign] ++ digits (Z.abs e).

(** Number::toString(x), radix 10. *)
Definition number_to_string (x : number) : jsstring :=
  match x with
  | S754_nan => u16 "NaN"
  | S754_zero _ => u16 "0"
  | S754_infinity s => (if s then [45%N] else []) ++ u16 "Infinity"
  | S754_finite s m e =>
      let '(a, b) := ratio_of m e in
      let '(d, q) := shortest 17 1 m e (dec_exponent a b) in
      let ds := digits d in
      (if s then [45%N] else []) ++ layout ds (q + Z.of_nat (List.length ds))
  end.

(** [Number.prototype.toFixed(f)] for [0 <= f <= 100] (the call sites
    pass 2): a value from [10^21] on is printed by Number::toString;
    otherwise [n] is the integer nearest to [x * 10^f], the larger one on
    a tie, printed with [f] digits after the point. *)
Definition toFixed (x : number) (f : Z) : jsstring :=
  let fixed (n : Z) : jsstring :=
    let ds := digits n in
    let k := Z.of_nat (List.length ds) in
    let ds' := if k <=? f then zeros (f + 1 - k) ++ ds else ds in
    let k' := Z.of_nat (List.length ds') in
    if f =? 0 then ds'
    else firstn (Z.to_nat (k' - f)) ds' ++ [46%N] ++ skipn (Z.to_nat (k' - f)) ds' in
  match x with
  | S754_nan | S754_infinity _ => number_to_string x
  | S754_zero _ => fixed 0
  | S754_finite s m e =>
      let '(a, b) := ratio_of m e in
      (if s then [45%N] else []) ++
      (if b * 10 ^ 21 <=? a then number_to_string (S754_finite false m e)
       else fixed ((2 * a * 10 ^ f + b) / (2 * b)))
  end.

End JsNumber.

Import JsNumber.

(* ================================================================== *)
(** ** Exceptions *)

Inductive error : Type :=
| TypeError (msg : jsstring)
| SyntaxError
| URIError
| Error (msg : jsstring)
| SqliteError.

Inductive result (A : Type) : Type :=
| Ok (a : A)
| Throw (e : error).

Arguments Ok {A} a.
Arguments Throw {A} e.

Definition bind {A B : Type} (r : result A) (k : A -> result B) : result B :=
  match r with
  | Ok a => k a
  | Throw e => Throw e
  end.

Notation "'do' x <- r ; k" := (bind r (fun x => k))
  (at level 10, x name, r at level 100, k at level 200).

(* ================================================================== *)
(** ** JSON values, property access, JSON.stringify and JSON.parse *)

Module Json.

Local Open Scope Z_scope.

(** The values [JSON.parse] produces.  An object lists its own
    properties in the order JavaScript enumerates them. *)
Unset Elimination Schemes.
Inductive json : Type :=
| JNull
| JBool (b : bool)
| JNum (x : number)
| JStr (s : jsstring)
| JArr (l : list json)
| JObj (o : list (jsstring * json)).
Set Elimination Schemes.

(** ToBoolean; [None] is [undefined]. *)
Definition truthy (v : option json) : bool :=
  match v with
  | None | Some JNull => false
  | Some (JBool b) => b
  | Some (JNum x) =>
      match x with
      | S754_zero _ | S754_nan => false
      | _ => true
      end
  | Some (JStr s) => negb (JsString.eqb s [])
  | Some (JArr _) | Some (JObj _) => true
  end.

(** Own property lookup. *)
Fixpoint lookup (k : jsstring) (o : list (jsstring * json)) : option json :=
  match o with
  | [] => None
  | (k', v) :: r => if JsString.eqb k k' then Some v else lookup k r
  end.

(** [v[k]] for a name [k] that no prototype defines (the names the
    handlers read: provider, fromEmail, the secret fields, ...) and that
    is no index: a primitive or an array has no such property. *)
Definition get_prop (v : json) (k : jsstring) : option json :=
  match v with
  | JObj o => lookup k o
  | _ => None
  end.

(** The same read on a value that may be [null]: a TypeError there. *)
Definition get_prop_r (v : json) (k : jsstring) : result (option json) :=
  match v with
  | JNull => Throw (TypeError (u16 "Cannot read properties of null"))
  | _ => Ok (get_prop v k)
  end.

(** An array index is the canonical decimal form of an integer below
    [2^32 - 1]; such keys are enumerated first, in ascending order. *)
Definition is_digit (c : N) : bool := ((48 <=? c) && (c <=? 57))%N.

Definition digits_value (ds : jsstring) : Z :=
  fold_left (fun acc c => acc * 10 + (Z.of_N c - 48)) ds 0.

Definition array_index (k : jsstring) : option Z :=
  match k with
  | [] => None
  | c :: r =>
      if forallb is_digit k && (List.length k <=? 10)%nat
         && (negb (N.eqb c 48) || match r with [] => true | _ => false end)
      then let i := digits_value k in
           if i <=? 4294967294 then Some i else None
      else None
  end.

Fixpoint has_key (k : jsstring) (o : list (jsstring * json)) : bool :=
  match o with
  | [] => false
  | (k', _) :: r => JsString.eqb k k' || has_key k r
  end.

Fixpoint update (k : jsstring) (v : json) (o : list (jsstring * json))
  : list (jsstring * json) :=
  match o with
  | [] => []
  | (k', v') :: r =>
      if JsString.eqb k k' then (k', v) :: r else (k', v') :: update k v r
  end.

Fixpoint insert_index (i : Z) (k : jsstring) (v : json)
  (o : list (jsstring * json)) : list (jsstring * json) :=
  match o with
  | [] => [(k, v)]
  | (k', v') :: r =>
      match array_index k' with
      | Some j => if j <? i then (k', v') :: insert_index i k v r
                  else (k, v) :: o
      | None => (k, v) :: o
      end
  end.

(** CreateDataProperty on an ordinary object: an existing property keeps
    its place, a new index goes among the indices, any other new key goes
    last. *)
Definition obj_set (o : list (jsstring * json)) (k : jsstring) (v : json)
  : list (jsstring * json) :=
  if has_key k o then update k v o
  else match array_index k with
       | Some i => insert_index i k v o
       | None => o ++ [(k, v)]
       end.

Fixpoint obj_delete (k : jsstring) (o : list (jsstring * json))
  : list (jsstring * json) :=
  match o with
  | [] => []
  | (k', v') :: r =>
      if JsString.eqb k k' then obj_delete k r else (k', v') :: obj_delete k r
  end.

(** The assignment [o[k] = v] on an object literal or a parsed object.
    The key [__proto__] reaches the prototype setter and creates no own
    property.  [v = None] stores [undefined]: the property is then left
    out by [JSON.stringify], which is the only reader of such an object,
    so it is removed here. *)
Definition assign (o : list (jsstring * json)) (k : jsstring)
  (v : option json) : list (jsstring * json) :=
  if JsString.eqb k (u16 "__proto__") then o
  else match v with
       | Some v' => obj_set o k v'
       | None => obj_delete k o
       end.

Fixpoint indexed {A : Type} (i : Z) (l : list A) : list (jsstring * A) :=
  match l with
  | [] => []
  | x :: r => (digits i, x) :: indexed (i + 1) r
  end.

(** [Object.entries(v)], also the properties an object spread copies:
    the own enumerable string-keyed properties of [v]. *)
Definition entries (v : json) : list (jsstring * json) :=
  match v with
  | JObj o => o
  | JArr l => indexed 0 l
  | JStr s => indexed 0 (map (fun c => JStr [c]) s)
  | _ => []
  end.

(** [{ ...a, ...b }]. *)
Definition spread (o : list (jsstring * json)) (v : json)
  : list (jsstring * json) :=
  fold_left (fun acc kv => obj_set acc (fst kv) (snd kv)) (entries v) o.

(** ToString of a parsed value, as a template literal or [+] applies it.
    An object with an own [toString] property (never callable in parsed
    JSON) has no primitive value. *)
Fixpoint to_string (v : json) : result jsstring :=
  match v with
  | JNull => Ok (u16 "null")
  | JBool b => Ok (if b then u16 "true" else u16 "false")
  | JNum x => Ok (number_to_string x)
  | JStr s => Ok s
  | JArr l =>
      (fix elems (l : list json) : result jsstring :=
         match l with
         | [] => Ok []
         | x :: r =>
             do s <- match x with JNull => Ok [] | _ => to_string x end;
             match r with
             | [] => Ok s
             | _ => do t <- elems r; Ok (s ++ [44%N] ++ t)
             end
         end) l
  | JObj o =>
      if has_key (u16 "toString") o
      then Throw (TypeError (u16 "Cannot convert object to primitive value"))
      else Ok (u16 "[object Object]")
  end.

(** ToString of a possibly-undefined value. *)
Definition to_string_opt (v : option json) : result jsstring :=
  match v with
  | None => Ok (u16 "undefined")
  | Some v' => to_string v'
  end.

(** *** JSON.stringify *)

Definition hex_digit (d : N) : N := (if d <? 10 then 48 + d else 87 + d)%N.

(** UnicodeEscape: [\uXXXX] with lower-case hexadecimal digits. *)
Definition unicode_escape (c : N) : jsstring :=
  [92; 117; hex_digit (N.shiftr c 12); hex_digit (N.land (N.shiftr c 8) 15);
   hex_digit (N.land (N.shiftr c 4) 15); hex_digit (N.land c 15)]%N.

Definition is_high_surrogate (c : N) : bool := ((55296 <=? c) && (c <=? 56319))%N.
Definition is_low_surrogate (c : N) : bool := ((56320 <=? c) && (c <=? 57343))%N.

Definition quote_unit (c : N) : jsstring :=
  (if c =? 8 then [92; 98]
   else if c =? 9 then [92; 116]
   else if c =? 10 then [92; 110]
   else if c =? 12 then [92; 102]
   else if c =? 13 then [92; 114]
   else if c =? 34 then [92; 34]
   else if c =? 92 then [92; 92]
   else if c <? 32 then unicode_escape c
   else [c])%N.

(** The body of QuoteJSONString: the string is read code point by code
    point, a surrogate that is not part of a pair is escaped. *)
Fixpoint quote_body (s : jsstring) : jsstring :=
  match s with
  | [] => []
  | c :: r =>
      if is_high_surrogate c then
        match r with
        | d :: r' =>
            if is_low_surrogate d then c :: d :: quote_body r'
            else unicode_escape c ++ quote_body r
        | [] => unicode_escape c
        end
      else if is_low_surrogate c then unicode_escape c ++ quote_body r
      else quote_unit c ++ quote_body r
  end.

Definition quote (s : jsstring) : jsstring := [34%N] ++ quote_body s ++ [34%N].

Fixpoint stringify (v : json) : jsstring :=
  match v with
  | JNull => u16 "null"
  | JBool b => if b then u16 "true" else u16 "false"
  | JNum x =>
      match x with
      | S754_nan | S754_infinity _ => u16 "null"
      | _ => number_to_string x
      end
  | JStr s => quote s
  | JArr l =>
      [91%N] ++
      (fix elems (l : list json) : jsstring :=
         match l with
         | [] => []
         | [x] => stringify x
         | x :: r => stringify x ++ [44%N] ++ elems r
         end) l ++ [93%N]
  | JObj o =>
      [123%N] ++
      (fix members (o : list (jsstring * json)) : jsstring :=
         match o with
         | [] => []
         | [(k, x)] => quote k ++ [58%N] ++ stringify x
         | (k, x) :: r => quote k ++ [58%N] ++ stringify x ++ [44%N] ++ members r
         end) o ++ [125%N]
  end.

(** *** JSON.parse *)

Definition is_ws (c : N) : bool :=
  (N.eqb c 32 || N.eqb c 9 || N.eqb c 10 || N.eqb c 13)%N.

Fixpoint skip_ws (s : jsstring) : jsstring :=
  match s with
  | c :: r => if is_ws c then skip_ws r else s
  | [] => []
  end.

Definition hex_value (c : N) : option N :=
  (if (48 <=? c) && (c <=? 57) then Some (c - 48)
   else if (97 <=? c) && (c <=? 102) then Some (c - 87)
   else if (65 <=? c) && (c <=? 70) then Some (c - 55)
   else None)%N.

Definition hex4 (a b c d : N) : option N :=
  match hex_value a, hex_value b, hex_value c, hex_value d with
  | Some x, Some y, Some z, Some w => Some (4096 * x + 256 * y + 16 * z + w)%N
  | _, _, _, _ => None
  end.

(** The characters of a string literal after its opening quote, up to
    the closing one. *)
Fixpoint parse_string (s : jsstring) : option (jsstring * jsstring) :=
  let cons (c : N) (p : option (jsstring * jsstring)) :=
    match p with
    | Some (t, rest) => Some (c :: t, rest)
    | None => None
    end in
  match s with
  | [] => None
  | c :: r =>
      if N.eqb c 34 then Some ([], r)
      else if N.eqb c 92 then
        match r with
        | e :: r1 =>
            if N.eqb e 117 then
              match r1 with
              | h1 :: h2 :: h3 :: h4 :: r2 =>
                  match hex4 h1 h2 h3 h4 with
                  | Some u => cons u (parse_string r2)
                  | None => None
                  end
              | _ => None
              end
            else if N.eqb e 34 then cons 34%N (parse_string r1)
            else if N.eqb e 92 then cons 92%N (parse_string r1)
            else if N.eqb e 47 then cons 47%N (parse_string r1)
            else if N.eqb e 98 then cons 8%N (parse_string r1)
            else if N.eqb e 102 then cons 12%N (parse_string r1)
            else if N.eqb e 110 then cons 10%N (parse_string r1)
            else if N.eqb e 114 then cons 13%N (parse_string r1)
            else if N.eqb e 116 then cons 9%N (parse_string r1)
            else None
        | [] => None
        end
      else if (c <? 32)%N then None
      else cons c (parse_string r)
  end.

Fixpoint span_digits (s : jsstring) : jsstring * jsstring :=
  match s with
  | c :: r =>
      if is_digit c then let '(d, r') := span_digits r in (c :: d, r')
      else ([], s)
  | [] => ([], [])
  end.

Definition negate (x : number) : number :=
  match x with
  | S754_zero s => S754_zero (negb s)
  | S754_infinity s => S754_infinity (negb s)
  | S754_nan => S754_nan
  | S754_finite s m e => S754_finite (negb s) m e
  end.

(** The [frac] of a JSON number, if there is one: a point and at least
    one digit.  [Some ([], s)] when [s] starts with no point. *)
Definition parse_frac (s : jsstring) : option (jsstring * jsstring) :=
  match s with
  | d :: r =>
      if N.eqb d 46 then
        let '(f, r') := span_digits r in
        match f with [] => None | _ => Some (f, r') end
      else Some ([], s)
  | [] => Some ([], s)
  end.

(** The [exp] of a JSON number, if there is one: [e] or [E], an
    optional sign and at least one digit. *)
Definition parse_exp (s : jsstring) : option (Z * jsstring) :=
  match s with
  | x :: r =>
      if N.eqb x 101 || N.eqb x 69 then
        let '(sg, r1) :=
          match r with
          | y :: r' => if N.eqb y 45 then (-1, r')
                       else if N.eqb y 43 then (1, r')
                       else (1, r)
          | [] => (1, r)
          end in
        let '(ds, r2) := span_digits r1 in
        match ds with
        | [] => None
        | _ => Some (sg * digits_value ds, r2)
        end
      else Some (0, s)
  | [] => Some (0, s)
  end.

(** A JSON number: [-? int frac? exp?], no leading zero in [int]; its
    value is the Number value of the decimal it denotes. *)
Definition parse_number (s : jsstring) : option (number * jsstring) :=
  let '(neg, s1) := match s with
                    | c :: r => if N.eqb c 45 then (true, r) else (false, s)
                    | [] => (false, s)
                    end in
  let '(int, s2) := span_digits s1 in
  match int with
  | [] => None
  | c :: t =>
      if N.eqb c 48 && negb (match t with [] => true | _ => false end)
      then None
      else
        match parse_frac s2 with
        | None => None
        | Some (f, s3) =>
            match parse_exp s3 with
            | None => None
            | Some (ex, s4) =>
                let x := round_dec (digits_value (int ++ f))
                           (ex - Z.of_nat (List.length f)) in
                Some (if neg then negate x else x, s4)
            end
        end
  end.

Definition expect (word : jsstring) (s : jsstring) : option jsstring :=
  if starts_with word s then Some (skipn (List.length word) s) else None.

(** The recursive-descent reading of one JSON value, leading white space
    included.  [fuel] bounds the recursion; the length of the text is
    always enough. *)
Fixpoint parse_value (fuel : nat) (s : jsstring) : option (json * jsstring) :=
  match fuel with
  | O => None
  | S f =>
      match skip_ws s with
      | [] => None
      | c :: r =>
          if N.eqb c 110 then
            match expect (u16 "ull") r with
            | Some r' => Some (JNull, r') | None => None end
          else if N.eqb c 116 then
            match expect (u16 "rue") r with
            | Some r' => Some (JBool true, r') | None => None end
          else if N.eqb c 102 then
            match expect (u16 "alse") r with
            | Some r' => Some (JBool false, r') | None => None end
          else if N.eqb c 34 then
            match parse_string r with
            | Some (t, r') => Some (JStr t, r') | None => None end
          else if N.eqb c 91 then
            match skip_ws r with
            | d :: r' =>
                if N.eqb d 93 then Some (JArr [], r')
                else match parse_elements f r with
                     | Some (l, r'') => Some (JArr l, r'') | None => None end
            | [] => None
            end
          else if N.eqb c 123 then
            match skip_ws r with
            | d :: r' =>
                if N.eqb d 125 then Some (JObj [], r')
                else match parse_members f r [] with
                     | Some (o, r'') => Some (JObj o, r'') | None => None end
            | [] => None
            end
          else
            match parse_number (c :: r) with
            | Some (x, r') => Some (JNum x, r') | None => None end
      end
  end
with parse_elements (fuel : nat) (s : jsstring)
  : option (list json * jsstring) :=
  match fuel with
  | O => None
  | S f =>
      match parse_value f s with
      | None => None
      | Some (v, r) =>
          match skip_ws r with
          | c :: r' =>
              if N.eqb c 44 then
                match parse_elements f r' with
                | Some (l, r'') => Some (v :: l, r'') | None => None end
              else if N.eqb c 93 then Some ([v], r')
              else None
          | [] => None
          end
      end
  end
with parse_members (fuel : nat) (s : jsstring) (acc : list (jsstring * json))
  : option (list (jsstring * json) * jsstring) :=
  match fuel with
  | O => None
  | S f =>
      match skip_ws s with
      | q :: s1 =>
          if N.eqb q 34 then
            match parse_string s1 with
            | None => None
            | Some (k, s2) =>
                match skip_ws s2 with
                | c :: s3 =>
                    if N.eqb c 58 then
                      match parse_value f s3 with
                      | None => None
                      | Some (v, r) =>
                          let acc' := obj_set acc k v in
                          match skip_ws r with
                          | d :: r' =>
                              if N.eqb d 44 then parse_members f r' acc'
                              else if N.eqb d 125 then Some (acc', r')
                              else None
                          | [] => None
                          end
                      end
                    else None
                | [] => None
                end
            end
          else None
      | [] => None
      end
  end.

(** [JSON.parse(text)]; [None] is the SyntaxError it throws. *)
Definition parse (s : jsstring) : option json :=
  match parse_value (S (List.length s)) s with
  | Some (v, r) => match skip_ws r with [] => Some v | _ => None end
  | None => None
  end.

End Json.

Import Json.

(* ================================================================== *)
(** ** encodeURIComponent *)

Module Uri.

(** The characters [encodeURIComponent] leaves as they are:
    letters, digits and [- _ . ! ~ * ' ( )]. *)
Definition unreserved (c : N) : bool :=
  ((65 <=? c) && (c <=? 90) || (97 <=? c) && (c <=? 122)
   || (48 <=? c) && (c <=? 57)
   || N.eqb c 45 || N.eqb c 95 || N.eqb c 46 || N.eqb c 33 || N.eqb c 126
   || N.eqb c 42 || N.eqb c 39 || N.eqb c 40 || N.eqb c 41)%N.

Definition upper_hex (d : N) : N := (if d <? 10 then 48 + d else 55 + d)%N.

Definition percent (b : N) : jsstring :=
  [37%N; upper_hex (N.shiftr b 4); upper_hex (N.land b 15)].

(** The UTF-8 octets of a code point. *)
Definition utf8_octets (cp : N) : list N :=
  (if cp <? 128 then [cp]
   else if cp <? 2048 then
     [192 + N.shiftr cp 6; 128 + N.land cp 63]
   else if cp <? 65536 then
     [224 + N.shiftr cp 12; 128 + N.land (N.shiftr cp 6) 63; 128 + N.land cp 63]
   else
     [240 + N.shiftr cp 18; 128 + N.land (N.shiftr cp 12) 63;
      128 + N.land (N.shiftr cp 6) 63; 128 + N.land cp 63])%N.

(** [encodeURIComponent(s)]: an unpaired surrogate is a URIError. *)
Fixpoint encodeURIComponent (s : jsstring) : result jsstring :=
  match s with
  | [] => Ok []
  | c :: r =>
      if unreserved c then
        do t <- encodeURIComponent r; Ok (c :: t)
      else if is_low_surrogate c then Throw URIError
      else if is_high_surrogate c then
        match r with
        | d :: r' =>
            if is_low_surrogate d then
              let cp := ((c - 55296) * 1024 + (d - 56320) + 65536)%N in
              do t <- encodeURIComponent r';
              Ok (flat_map percent (utf8_octets cp) ++ t)
            else Throw URIError
        | [] => Throw URIError
        end
      else
        do t <- encodeURIComponent r;
        Ok (flat_map percent (utf8_octets c) ++ t)
  end.

End Uri.
Import Uri.

(* ================================================================== *)
(** ** email.js *)

Module Email.

(** The four transports [sendEmail] dispatches to. *)
Inductive provider : Type := Mailgun | SendGrid | Resend | Smtp.

(** One call of a transport function ([sendViaMailgun], ...): the
    provider and the arguments it was called with. *)
Record delivery : Type := {
  via : provider;
  d_cfg : json;
  d_to : json;
  d_subject : jsstring;
  d_html : jsstring;
  d_text : jsstring
}.

(** What the outside world answers: the HTTP response [fetch] resolves
    to, and the outcome of nodemailer's [sendMail]. *)
Record http_response : Type := {
  res_ok : bool;
  res_status : Z;
  res_text : jsstring
}.

Record network : Type := {
  fetch : delivery -> http_response;
  sendMail : delivery -> result unit
}.

(** An asynchronous computation that talks to the network: its outcome
    and the deliveries it attempted, in order. *)
Definition Net (A : Type) : Type := network -> result A * list delivery.

(** [post] and [postForm]: one request; a response that is not [ok]
    is an Error carrying the status and the response text. *)
Definition post (d : delivery) : Net unit :=
  fun net =>
    let res := fetch net d in
    (if res_ok res then Ok tt
     else Throw (Error (u16 "HTTP " ++ digits (res_status res) ++ u16 ": "
                          ++ res_text res)),
     [d]).

Definition postForm (d : delivery) : Net unit := post d.

Definition sendViaMailgun (cfg to : json) (subject html text : jsstring)
  : Net unit :=
  postForm {| via := Mailgun; d_cfg := cfg; d_to := to; d_subject := subject;
              d_html := html; d_text := text |}.

Definition sendViaSendGrid (cfg to : json) (subject html text : jsstring)
  : Net unit :=
  post {| via := SendGrid; d_cfg := cfg; d_to := to; d_subject := subject;
          d_html := html; d_text := text |}.

Definition sendViaResend (cfg to : json) (subject html text : jsstring)
  : Net unit :=
  post {| via := Resend; d_cfg := cfg; d_to := to; d_subject := subject;
          d_html := html; d_text := text |}.

Definition sendViaSmtp (cfg to : json) (subject html text : jsstring)
  : Net unit :=
  fun net =>
    let d := {| via := Smtp; d_cfg := cfg; d_to := to; d_subject := subject;
                d_html := html; d_text := text |} in
    (sendMail net d, [d]).

(** A rejection before any transport is called. *)
Definition reject {A : Type} (e : error) : Net A := fun _ => (Throw e, []).

(** [switch] compares with [===]: only the string itself matches. *)
Definition is_string (v : json) (s : string) : bool :=
  match v with
  | JStr t => JsString.eqb t (u16 s)
  | _ => false
  end.

(** [cfg.k], [undefined] when [cfg] itself is. *)
Definition prop (cfg : option json) (k : string) : option json :=
  match cfg with
  | Some c => get_prop c (u16 k)
  | None => None
  end.

(** The provider names of the [switch]. *)
Definition recognized (p : option json) : bool :=
  match p with
  | Some v => is_string v "mailgun" || is_string v "sendgrid"
              || is_string v "resend" || is_string v "smtp"
  | None => false
  end.

Definition sendEmail (cfg to : option json) (subject html text : jsstring)
  : Net unit :=
  if negb (truthy cfg) || negb (truthy (prop cfg "provider"))
  then reject (Error (u16 "No email provider configured"))
  else if negb (truthy (prop cfg "fromEmail"))
  then reject (Error (u16 "No sender email configured"))
  else if negb (truthy to)
  then reject (Error (u16 "No recipient email address"))
  else
    match cfg, to, prop cfg "provider" with
    | Some c, Some t, Some p =>
        if is_string p "mailgun" then sendViaMailgun c t subject html text
        else if is_string p "sendgrid" then sendViaSendGrid c t subject html text
        else if is_string p "resend" then sendViaResend c t subject html text
        else if is_string p "smtp" then sendViaSmtp c t subject html text
        else
          match to_string p with
          | Ok s => reject (Error (u16 "Unknown provider: " ++ s))
          | Throw e => reject e
          end
    | _, _, _ =>
        (* not reached: the three values are truthy here *)
        reject (Error (u16 "No email provider configured"))
    end.

Definition secretFields : list jsstring :=
  [u16 "mailgunApiKey"; u16 "sendgridApiKey"; u16 "resendApiKey"; u16 "smtpPass"].

(** The redaction marker appended by [maskConfig]: twelve bullets. *)
Definition marker : jsstring := u16 "••••••••••••".

(** [masked[f].slice(0, 4) + marker] for a truthy [masked[f]]: a string
    is cut, an array is cut and joined by [+], any other value has no
    [slice] method. *)
Definition mask_value (v : json) : result json :=
  match v with
  | JStr s => Ok (JStr (slice s 0 4 ++ marker))
  | JArr l => do s <- to_string (JArr (firstn 4 l)); Ok (JStr (s ++ marker))
  | _ => Throw (TypeError (u16 "masked[f].slice is not a function"))
  end.

Definition mask_field (masked : list (jsstring * json)) (f : jsstring)
  : result (list (jsstring * json)) :=
  match lookup f masked with
  | Some v =>
      if truthy (Some v)
      then do v' <- mask_value v; Ok (assign masked f (Some v'))
      else Ok masked
  | None => Ok masked
  end.

Fixpoint forEach {A S : Type} (l : list A) (f : S -> A -> result S) (s : S)
  : result S :=
  match l with
  | [] => Ok s
  | x :: r => do s' <- f s x; forEach r f s'
  end.

Definition maskConfig (cfg : option json) : result json :=
  match cfg with
  | None => Ok JNull
  | Some c =>
      if negb (truthy cfg) then Ok JNull
      else
        let masked := spread [] c in
        do m <- forEach secretFields mask_field masked;
        Ok (JObj m)
  end.

End Email.

(* ================================================================== *)
(** ** emailTemplate.js *)

Module Template.

Record bill : Type := { name : jsstring; amount : number }.

(** The options of [buildEmailHtml], typed as its JSDoc types them; a
    field that may be left out is an [option], [None] being
    [undefined]. *)
Record options : Type := {
  greeting : option jsstring;
  personName : option jsstring;
  accentColor : option jsstring;
  monthLabel : option jsstring;
  bills : list bill;
  total : number;
  payMethod : option jsstring;
  payId : option jsstring;
  fromName : option jsstring
}.

Definition dq : jsstring := [34%N].
Definition nl : jsstring := [10%N].

(** A value interpolated into a template literal. *)
Definition str (v : option jsstring) : jsstring :=
  match v with
  | Some s => s
  | None => u16 "undefined"
  end.

Definition truthy_str (v : option jsstring) : bool :=
  match v with
  | Some (_ :: _) => true
  | _ => false
  end.

(** [v === lit]. *)
Definition eq_lit (v : option jsstring) (lit : string) : bool :=
  match v with
  | Some s => JsString.eqb s (u16 lit)
  | None => false
  end.

(** A destructuring default: it applies to [undefined] only. *)
Definition default (v : option jsstring) (d : string) : jsstring :=
  match v with
  | Some s => s
  | None => u16 d
  end.

(** [{ name: personName, token: payId, amount: total.toFixed(2) }]; a
    property whose value is [undefined] is left out by
    [JSON.stringify]. *)
Definition zelle_object (personName : option jsstring) (payId : jsstring)
  (total : number) : json :=
  JObj ((match personName with
         | Some n => [(u16 "name", JStr n)]
         | None => []
         end)
        ++ [(u16 "token", JStr payId); (u16 "amount", JStr (toFixed total 2))]).

Definition zelle_button (accentColor zelleUrl payId : jsstring)
  (total : number) : jsstring :=
  List.concat [
    nl;
    u16 "      <tr><td align="; dq; u16 "center"; dq; u16 " style="; dq; u16 "padding:28px 0 8px;"; dq; u16 ">"; nl;
    u16 "        <a href="; dq; zelleUrl; dq; nl;
    u16 "           style="; dq; u16 "display:inline-block;background:"; accentColor; u16 ";color:#0c0d0f;text-decoration:none;"; nl;
    u16 "                  font-family:Arial,sans-serif;font-weight:700;font-size:15px;"; nl;
    u16 "                  padding:14px 36px;border-radius:8px;letter-spacing:.02em;"; dq; u16 ">"; nl;
    u16 "          💰 Pay via Zelle — $"; (toFixed total 2); nl;
    u16 "        </a>"; nl;
    u16 "      </td></tr>"; nl;
    u16 "      <tr><td align="; dq; u16 "center"; dq; u16 " style="; dq; u16 "padding:0 0 8px;"; dq; u16 ">"; nl;
    u16 "        <span style="; dq; u16 "font-size:11px;color:#6b7280;font-family:Arial,sans-serif;"; dq; u16 ">"; nl;
    u16 "          Zelle to "; payId; nl;
    u16 "        </span>"; nl;
    u16 "      </td></tr>" ].

Definition venmo_button (accentColor venmoUrl handle : jsstring)
  (total : number) : jsstring :=
  List.concat [
    nl;
    u16 "      <tr><td align="; dq; u16 "center"; dq; u16 " style="; dq; u16 "padding:28px 0 8px;"; dq; u16 ">"; nl;
    u16 "        <a href="; dq; venmoUrl; dq; nl;
    u16 "           style="; dq; u16 "display:inline-block;background:"; accentColor; u16 ";color:#0c0d0f;text-decoration:none;"; nl;
    u16 "                  font-family:Arial,sans-serif;font-weight:700;font-size:15px;"; nl;
    u16 "                  padding:14px 36px;border-radius:8px;letter-spacing:.02em;"; dq; u16 ">"; nl;
    u16 "          💸 Pay via Venmo — $"; (toFixed total 2); nl;
    u16 "        </a>"; nl;
    u16 "      </td></tr>"; nl;
    u16 "      <tr><td align="; dq; u16 "center"; dq; u16 " style="; dq; u16 "padding:0 0 8px;"; dq; u16 ">"; nl;
    u16 "        <span style="; dq; u16 "font-size:11px;color:#6b7280;font-family:Arial,sans-serif;"; dq; u16 ">"; nl;
    u16 "          Venmo @"; handle; nl;
    u16 "        </span>"; nl;
    u16 "      </td></tr>" ].

Definition total_due (accentColor accentBg accentBorder : jsstring)
  (total : number) : jsstring :=
  List.concat [
    nl;
    u16 "      <tr><td align="; dq; u16 "center"; dq; u16 " style="; dq; u16 "padding:28px 0 8px;"; dq; u16 ">"; nl;
    u16 "        <div style="; dq; u16 "display:inline-block;background:"; accentBg; u16 ";border:1px solid "; accentBorder; u16 ";"; nl;
    u16 "                    color:"; accentColor; u16 ";font-family:Arial,sans-serif;font-weight:700;font-size:15px;"; nl;
    u16 "                    padding:14px 36px;border-radius:8px;letter-spacing:.02em;"; dq; u16 ">"; nl;
    u16 "          Total Due: $"; (toFixed total 2); nl;
    u16 "        </div>"; nl;
    u16 "      </td></tr>" ].

Definition bill_row (accentColor : jsstring) (b : bill) : jsstring :=
  List.concat [
    nl;
    u16 "    <tr>"; nl;
    u16 "      <td style="; dq; u16 "padding:10px 16px;font-family:Arial,sans-serif;font-size:13px;"; nl;
    u16 "                 color:#d1d5db;border-bottom:1px solid #2a2d31;"; dq; u16 ">"; (name b); u16 "</td>"; nl;
    u16 "      <td style="; dq; u16 "padding:10px 16px;font-family:Arial,sans-serif;font-size:13px;"; nl;
    u16 "                 color:"; accentColor; u16 ";font-weight:600;text-align:right;"; nl;
    u16 "                 border-bottom:1px solid #2a2d31;"; dq; u16 ">$"; (toFixed (amount b) 2); u16 "</td>"; nl;
    u16 "    </tr>" ].

Definition html_pieces (accentColor : jsstring) (monthLabel : option jsstring)
  (greet billRowsHtml payButtonHtml fromName : jsstring) (total : number)
  : list jsstring :=
  [
    u16 "<!DOCTYPE html>"; nl;
    u16 "<html lang="; dq; u16 "en"; dq; u16 ">"; nl;
    u16 "<head><meta charset="; dq; u16 "UTF-8"; dq; u16 "><meta name="; dq; u16 "viewport"; dq; u16 " content="; dq; u16 "width=device-width,initial-scale=1.0"; dq; u16 ">"; nl;
    u16 "<title>Bills for "; (str monthLabel); u16 "</title></head>"; nl;
    u16 "<body style="; dq; u16 "margin:0;padding:0;background-color:#0c0d0f;font-family:Arial,sans-serif;"; dq; u16 ">"; nl;
    nl;
    u16 "<table width="; dq; u16 "100%"; dq; u16 " cellpadding="; dq; u16 "0"; dq; u16 " cellspacing="; dq; u16 "0"; dq; u16 " style="; dq; u16 "background:#0c0d0f;padding:32px 16px;"; dq; u16 ">"; nl;
    u16 "<tr><td align="; dq; u16 "center"; dq; u16 ">"; nl;
    u16 "<table width="; dq; u16 "560"; dq; u16 " cellpadding="; dq; u16 "0"; dq; u16 " cellspacing="; dq; u16 "0"; dq; u16 " style="; dq; u16 "max-width:560px;width:100%;"; dq; u16 ">"; nl;
    nl;
    u16 "  <!-- Header / Logo -->"; nl;
    u16 "  <tr>"; nl;
    u16 "    <td style="; dq; u16 "padding:0 0 24px;"; dq; u16 ">"; nl;
    u16 "      <table cellpadding="; dq; u16 "0"; dq; u16 " cellspacing="; dq; u16 "0"; dq; u16 ">"; nl;
    u16 "        <tr>"; nl;
    u16 "          <td style="; dq; u16 "background:"; accentColor; u16 ";width:36px;height:36px;border-radius:8px;"; nl;
    u16 "                     text-align:center;vertical-align:middle;"; dq; u16 ">"; nl;
    u16 "            <span style="; dq; u16 "font-size:16px;line-height:36px;"; dq; u16 ">🏠</span>"; nl;
    u16 "          </td>"; nl;
    u16 "          <td style="; dq; u16 "padding-left:10px;"; dq; u16 ">"; nl;
    u16 "            <span style="; dq; u16 "font-family:Arial,sans-serif;font-weight:900;font-size:20px;color:#f9fafb;"; dq; u16 ">Bill</span><span style="; dq; u16 "font-family:Arial,sans-serif;font-weight:900;font-size:20px;color:"; accentColor; u16 ";"; dq; u16 ">Flow</span>"; nl;
    u16 "            <div style="; dq; u16 "font-size:10px;color:#6b7280;letter-spacing:.12em;text-transform:uppercase;margin-top:1px;"; dq; u16 ">household manager</div>"; nl;
    u16 "          </td>"; nl;
    u16 "        </tr>"; nl;
    u16 "      </table>"; nl;
    u16 "    </td>"; nl;
    u16 "  </tr>"; nl;
    nl;
    u16 "  <!-- Card -->"; nl;
    u16 "  <tr>"; nl;
    u16 "    <td style="; dq; u16 "background:#16181c;border:1px solid #2a2d31;border-radius:12px;overflow:hidden;"; dq; u16 ">"; nl;
    u16 "      <table width="; dq; u16 "100%"; dq; u16 " cellpadding="; dq; u16 "0"; dq; u16 " cellspacing="; dq; u16 "0"; dq; u16 ">"; nl;
    nl;
    u16 "        <!-- Card header accent bar -->"; nl;
    u16 "        <tr>"; nl;
    u16 "          <td style="; dq; u16 "background:"; accentColor; u16 ";height:4px;font-size:0;line-height:0;"; dq; u16 ">&nbsp;</td>"; nl;
    u16 "        </tr>"; nl;
    nl;
    u16 "        <!-- Greeting -->"; nl;
    u16 "        <tr>"; nl;
    u16 "          <td colspan="; dq; u16 "2"; dq; u16 " style="; dq; u16 "padding:28px 28px 8px;"; dq; u16 ">"; nl;
    u16 "            <div style="; dq; u16 "font-size:22px;font-weight:700;color:#f9fafb;font-family:Arial,sans-serif;"; dq; u16 ">"; nl;
    u16 "              "; greet; nl;
    u16 "            </div>"; nl;
    u16 "            <div style="; dq; u16 "font-size:14px;color:#9ca3af;margin-top:6px;font-family:Arial,sans-serif;"; dq; u16 ">"; nl;
    u16 "              Here's your share of the household bills for <strong style="; dq; u16 "color:#f9fafb;"; dq; u16 ">"; (str monthLabel); u16 "</strong>."; nl;
    u16 "            </div>"; nl;
    u16 "          </td>"; nl;
    u16 "        </tr>"; nl;
    nl;
    u16 "        <!-- Bill table -->"; nl;
    u16 "        <tr>"; nl;
    u16 "          <td colspan="; dq; u16 "2"; dq; u16 " style="; dq; u16 "padding:20px 28px 0;"; dq; u16 ">"; nl;
    u16 "            <table width="; dq; u16 "100%"; dq; u16 " cellpadding="; dq; u16 "0"; dq; u16 " cellspacing="; dq; u16 "0"; dq; nl;
    u16 "                   style="; dq; u16 "border:1px solid #2a2d31;border-radius:8px;overflow:hidden;border-collapse:separate;border-spacing:0;"; dq; u16 ">"; nl;
    u16 "              <thead>"; nl;
    u16 "                <tr style="; dq; u16 "background:#1e2024;"; dq; u16 ">"; nl;
    u16 "                  <th style="; dq; u16 "padding:10px 16px;font-family:Arial,sans-serif;font-size:11px;"; nl;
    u16 "                             font-weight:600;color:#6b7280;text-align:left;text-transform:uppercase;"; nl;
    u16 "                             letter-spacing:.08em;"; dq; u16 ">Bill</th>"; nl;
    u16 "                  <th style="; dq; u16 "padding:10px 16px;font-family:Arial,sans-serif;font-size:11px;"; nl;
    u16 "                             font-weight:600;color:#6b7280;text-align:right;text-transform:uppercase;"; nl;
    u16 "                             letter-spacing:.08em;"; dq; u16 ">Your Share</th>"; nl;
    u16 "                </tr>"; nl;
    u16 "              </thead>"; nl;
    u16 "              <tbody>"; nl;
    u16 "                "; billRowsHtml; nl;
    u16 "              </tbody>"; nl;
    u16 "              <tfoot>"; nl;
    u16 "                <tr style="; dq; u16 "background:#1e2024;"; dq; u16 ">"; nl;
    u16 "                  <td style="; dq; u16 "padding:12px 16px;font-family:Arial,sans-serif;font-size:13px;"; nl;
    u16 "                             font-weight:700;color:#f9fafb;"; dq; u16 ">Total</td>"; nl;
    u16 "                  <td style="; dq; u16 "padding:12px 16px;font-family:Arial,sans-serif;font-size:16px;"; nl;
    u16 "                             font-weight:900;color:"; accentColor; u16 ";text-align:right;"; dq; u16 ">"; nl;
    u16 "                    $"; (toFixed total 2); nl;
    u16 "                  </td>"; nl;
    u16 "                </tr>"; nl;
    u16 "              </tfoot>"; nl;
    u16 "            </table>"; nl;
    u16 "          </td>"; nl;
    u16 "        </tr>"; nl;
    nl;
    u16 "        <!-- Payment button -->"; nl;
    u16 "        <table width="; dq; u16 "100%"; dq; u16 " cellpadding="; dq; u16 "0"; dq; u16 " cellspacing="; dq; u16 "0"; dq; u16 ">"; nl;
    u16 "          "; payButtonHtml; nl;
    u16 "        </table>"; nl;
    nl;
    u16 "        <!-- Footer -->"; nl;
    u16 "        <tr>"; nl;
    u16 "          <td colspan="; dq; u16 "2"; dq; u16 " style="; dq; u16 "padding:24px 28px;border-top:1px solid #2a2d31;"; dq; u16 ">"; nl;
    u16 "            <div style="; dq; u16 "font-size:12px;color:#6b7280;font-family:Arial,sans-serif;"; dq; u16 ">"; nl;
    u16 "              Sent by "; fromName; u16 " via BillFlow &nbsp;·&nbsp;"; nl;
    u16 "              <span style="; dq; u16 "color:#4b5563;"; dq; u16 ">Reply to this email if you have any questions.</span>"; nl;
    u16 "            </div>"; nl;
    u16 "          </td>"; nl;
    u16 "        </tr>"; nl;
    nl;
    u16 "      </table>"; nl;
    u16 "    </td>"; nl;
    u16 "  </tr>"; nl;
    nl;
    u16 "  <!-- Footer -->"; nl;
    u16 "  <tr>"; nl;
    u16 "    <td style="; dq; u16 "padding:20px 0 0;text-align:center;"; dq; u16 ">"; nl;
    u16 "      <span style="; dq; u16 "font-size:11px;color:#374151;font-family:Arial,sans-serif;"; dq; u16 ">"; nl;
    u16 "        BillFlow · Household Bill Manager"; nl;
    u16 "      </span>"; nl;
    u16 "    </td>"; nl;
    u16 "  </tr>"; nl;
    nl;
    u16 "</table>"; nl;
    u16 "</td></tr>"; nl;
    u16 "</table>"; nl;
    u16 "</body>"; nl;
    u16 "</html>" ].

Definition buildEmailHtml (opts : options) : result (jsstring * jsstring) :=
  let accentColor := default (accentColor opts) "#a8e063" in
  let fromName := default (fromName opts) "BillFlow" in
  let monthLabel := monthLabel opts in
  let total := total opts in
  let accentBg := accentColor ++ u16 "22" in
  let accentBorder := accentColor ++ u16 "55" in
  do payButtonHtml <-
    (if eq_lit (payMethod opts) "zelle" && truthy_str (payId opts) then
       let payId := str (payId opts) in
       do zelleData <- encodeURIComponent
                         (stringify (zelle_object (personName opts) payId total));
       let zelleUrl := u16 "https://enroll.zellepay.com/qr-codes?data=" ++ zelleData in
       Ok (zelle_button accentColor zelleUrl payId total)
     else if eq_lit (payMethod opts) "venmo" && truthy_str (payId opts) then
       let handle := replace (str (payId opts)) (u16 "@") [] in
       do note <- encodeURIComponent (u16 "Bills " ++ str monthLabel);
       let venmoUrl := u16 "https://venmo.com/" ++ handle
                         ++ u16 "?txn=charge&amount=" ++ toFixed total 2
                         ++ u16 "&note=" ++ note in
       Ok (venmo_button accentColor venmoUrl handle total)
     else Ok (total_due accentColor accentBg accentBorder total));
  let billRowsHtml := List.concat (map (bill_row accentColor) (bills opts)) in
  let greet := if truthy_str (greeting opts) then str (greeting opts)
               else u16 "Hi " ++ str (personName opts) ++ u16 "," in
  let html := List.concat (html_pieces accentColor monthLabel greet billRowsHtml
                        payButtonHtml fromName total) in
  let text := join nl
    ([greet;
      [];
      u16 "Here's your share of the bills for " ++ str monthLabel ++ u16 ":";
      []]
     ++ map (fun b => u16 "  " ++ padEnd (name b) 24 ++ u16 " $"
                        ++ toFixed (amount b) 2) (bills opts)
     ++ [[];
         u16 "  " ++ JsString.repeat (u16 "─") 30;
         u16 "  Total you owe:         $" ++ toFixed total 2;
         [];
         (if eq_lit (payMethod opts) "zelle" && truthy_str (payId opts)
          then u16 "Please pay via Zelle to " ++ str (payId opts) ++ u16 "."
          else if eq_lit (payMethod opts) "venmo" && truthy_str (payId opts)
          then u16 "Please pay via Venmo @"
                 ++ replace (str (payId opts)) (u16 "@") [] ++ u16 "."
          else u16 "Please send your share when you get a chance.");
         [];
         u16 "Thanks, " ++ fromName]) in
  Ok (html, text).

End Template.

(* ================================================================== *)
(** ** The SQLite database of server.js *)

Module Db.

(** A TEXT column holds a string. *)
Definition text : Type := jsstring.

(** The three tables.  [user_state] and [monthly_data] have the primary
    key (user_id, key); [email_config] has the primary key user_id.  A
    table lists its rows in rowid order; [updated_at] is never read and
    is left out. *)
Record database : Type := {
  user_state : list (text * text * text);
  email_config : list (text * text);
  monthly_data : list (text * text * text)
}.

Definition empty : database :=
  {| user_state := []; email_config := []; monthly_data := [] |}.

Definition same_key (u k : text) (r : text * text * text) : bool :=
  JsString.eqb u (fst (fst r)) && JsString.eqb k (snd (fst r)).

Definition same_user (u : text) (r : text * text) : bool :=
  JsString.eqb u (fst r).

(** SELECT value WHERE user_id = ? AND key = ? *)
Definition select_row (u k : text) (t : list (text * text * text))
  : option text :=
  match find (same_key u k) t with
  | Some r => Some (snd r)
  | None => None
  end.

(** INSERT OR REPLACE: the row with the same primary key is deleted and
    the new row is inserted. *)
Definition replace_row (u k v : text) (t : list (text * text * text))
  : list (text * text * text) :=
  filter (fun r => negb (same_key u k r)) t ++ [(u, k, v)].

(** DELETE WHERE user_id = ? AND key = ? *)
Definition delete_row (u k : text) (t : list (text * text * text))
  : list (text * text * text) :=
  filter (fun r => negb (same_key u k r)) t.

(** SELECT key, value WHERE user_id = ? *)
Definition select_user (u : text) (t : list (text * text * text))
  : list (text * text) :=
  map (fun r => (snd (fst r), snd r))
      (filter (fun r => JsString.eqb u (fst (fst r))) t).

(** The BINARY collation compares the UTF-8 bytes, which is the order of
    the code points. *)
Fixpoint code_points (s : jsstring) : list N :=
  match s with
  | [] => []
  | c :: r =>
      if is_high_surrogate c then
        match r with
        | d :: r' =>
            if is_low_surrogate d
            then ((c - 55296) * 1024 + (d - 56320) + 65536)%N :: code_points r'
            else c :: code_points r
        | [] => [c]
        end
      else c :: code_points r
  end.

Fixpoint lex_leb (a b : list N) : bool :=
  match a, b with
  | [], _ => true
  | _ :: _, [] => false
  | x :: a', y :: b' => (x <? y)%N || (N.eqb x y && lex_leb a' b')
  end.

Definition text_leb (a b : text) : bool :=
  lex_leb (code_points a) (code_points b).

Fixpoint insert_sorted (r : text * text) (l : list (text * text))
  : list (text * text) :=
  match l with
  | [] => [r]
  | x :: l' => if text_leb (fst r) (fst x) then r :: l
               else x :: insert_sorted r l'
  end.

(** ORDER BY key ASC *)
Definition order_by_key (l : list (text * text)) : list (text * text) :=
  fold_right insert_sorted [] l.

(** A TEXT value as JavaScript reads it back.  A string is bound as
    UTF-8, an unpaired surrogate as the three bytes of its code; these
    are no UTF-8, and each of them is read back as U+FFFD.  The rows keep
    the string as it was bound: two strings are bound to the same bytes
    only when they are equal. *)
Fixpoint read_text (s : text) : jsstring :=
  match s with
  | [] => []
  | c :: r =>
      if is_high_surrogate c then
        match r with
        | d :: r' =>
            if is_low_surrogate d then c :: d :: read_text r'
            else [65533; 65533; 65533]%N ++ read_text r
        | [] => [65533; 65533; 65533]%N
        end
      else if is_low_surrogate c then [65533; 65533; 65533]%N ++ read_text r
      else c :: read_text r
  end.

Definition read_row (r : text * text) : jsstring * jsstring :=
  (read_text (fst r), read_text (snd r)).

(** The prepared statements [stmts] of server.js. *)
Definition getState (d : database) (u k : text) : option jsstring :=
  option_map read_text (select_row u k (user_state d)).

Definition setState (u k v : text) (d : database) : database :=
  {| user_state := replace_row u k v (user_state d);
     email_config := email_config d;
     monthly_data := monthly_data d |}.

(** [getAllState] has no ORDER BY; SQLite answers it through the index
    of the primary key (user_id, key), in the order of the keys. *)
Definition getAllState (d : database) (u : text)
  : list (jsstring * jsstring) :=
  map read_row (order_by_key (select_user u (user_state d))).

Definition getMonth (d : database) (u k : text) : option jsstring :=
  option_map read_text (select_row u k (monthly_data d)).

Definition setMonth (u k v : text) (d : database) : database :=
  {| user_state := user_state d;
     email_config := email_config d;
     monthly_data := replace_row u k v (monthly_data d) |}.

Definition getAllMonths (d : database) (u : text)
  : list (jsstring * jsstring) :=
  map read_row (order_by_key (select_user u (monthly_data d))).

Definition deleteMonth (u k : text) (d : database) : database :=
  {| user_state := user_state d;
     email_config := email_config d;
     monthly_data := delete_row u k (monthly_data d) |}.

Definition getEmailCfg (d : database) (u : text) : option jsstring :=
  match find (same_user u) (email_config d) with
  | Some r => Some (read_text (snd r))
  | None => None
  end.

Definition setEmailCfg (u v : text) (d : database) : database :=
  {| user_state := user_state d;
     email_config := filter (fun r => negb (same_user u r)) (email_config d)
                       ++ [(u, v)];
     monthly_data := monthly_data d |}.

(** The state a request runs in: the database, and which of the coming
    write statements SQLite will refuse (disk full, I/O error, ...).  A
    refused statement changes nothing and throws. *)
Record world : Type := {
  db : database;
  faults : list bool
}.

Definition M (A : Type) : Type := world -> result A * world.

Definition ret {A : Type} (a : A) : M A := fun w => (Ok a, w).

Definition throw {A : Type} (e : error) : M A := fun w => (Throw e, w).

Definition mbind {A B : Type} (m : M A) (k : A -> M B) : M B :=
  fun w =>
    match m w with
    | (Ok a, w') => k a w'
    | (Throw e, w') => (Throw e, w')
    end.

(** [stmt.run(...)] for a write statement. *)
Definition run (write : database -> database) : M unit :=
  fun w =>
    match faults w with
    | true :: fs => (Throw SqliteError, {| db := db w; faults := fs |})
    | false :: fs => (Ok tt, {| db := write (db w); faults := fs |})
    | [] => (Ok tt, {| db := write (db w); faults := [] |})
    end.

(** [db.transaction(fn)] of better-sqlite3: the function runs between
    BEGIN and COMMIT; if it throws, the transaction is rolled back and
    the exception propagates. *)
Definition transaction {A : Type} (fn : M A) : M A :=
  fun w =>
    match fn w with
    | (Ok a, w') => (Ok a, w')
    | (Throw e, w') => (Throw e, {| db := db w; faults := faults w' |})
    end.

(** [for (const x of l) body(x)] *)
Fixpoint for_each {A : Type} (l : list A) (body : A -> M unit) : M unit :=
  match l with
  | [] => ret tt
  | x :: r => mbind (body x) (fun _ => for_each r body)
  end.

End Db.

(* ================================================================== *)
(** ** server.js: the request handlers *)

Module Server.

Import Db Email.

(** What a request is answered: [res.status(s).json(body)] by its
    handler, the 500 of Express's default error handler when the handler
    throws, or the answer of that error handler to a request a
    middleware refused with a status. *)
Inductive response : Type :=
| Json (status : Z) (body : json)
| Uncaught (e : error)
| Refused (status : Z).

Definition respond (m : M response) (w : world) : response * world :=
  match m w with
  | (Ok r, w') => (r, w')
  | (Throw e, w') => (Uncaught e, w')
  end.

Definition ok_true : json := JObj [(u16 "ok", JBool true)].

Definition error_body (msg : string) : json := JObj [(u16 "error", JStr (u16 msg))].

(** [express.json({ limit: '2mb' })] runs before every route.  What it
    reads of a request of type application/json: the number of bytes of
    the body and the string they decode to. *)
Record payload : Type := {
  octets : N;
  decoded : jsstring
}.

(** The limit ['2mb'], in bytes. *)
Definition limit : N := 2097152.

(** In its default strict mode the parser accepts a JSON text only when
    it is an object or an array. *)
Definition json_body (v : json) : bool :=
  match v with
  | JObj _ | JArr _ => true
  | _ => false
  end.

(** The body the parser hands to the route, or the status it refuses
    the request with: 413 for a body over the limit, 400 for a text that
    [JSON.parse] rejects or that is no object and no array.  The empty
    text stands for [{}]. *)
Inductive parsed : Type :=
| Body (v : json)
| Refuse (status : Z).

Definition express_json (p : payload) : parsed :=
  if (limit <? octets p)%N then Refuse 413
  else
    match decoded p with
    | [] => Body (JObj [])
    | _ =>
        match parse (decoded p) with
        | Some v => if json_body v then Body v else Refuse 400
        | None => Refuse 400
        end
    end.

(** [typeof v === 'object'] *)
Definition typeof_object (v : json) : bool :=
  match v with
  | JNull | JArr _ | JObj _ => true
  | _ => false
  end.

(** [/^\d{4}-\d{2}$/.test(key)] *)
Definition month_key_ok (key : jsstring) : bool :=
  match key with
  | [a; b; c; d; h; e; f] =>
      is_digit a && is_digit b && is_digit c && is_digit d
      && N.eqb h 45 && is_digit e && is_digit f
  | _ => false
  end.

(** A route behind the parser.  The routes below that read a body take
    [req.body] as a value and begin with the strict-mode test, so that a
    route applied to a value is the route as the parser lets it run. *)
Definition route (p : payload) (handler : json -> world -> response * world)
  (w : world) : response * world :=
  match express_json p with
  | Body v => handler v w
  | Refuse status => (Refused status, w)
  end.

(** GET /api/state *)
Definition get_api_state (userId : text) (w : world) : response * world :=
  let rows := getAllState (db w) userId in
  let state :=
    fold_left
      (fun st r =>
         match parse (snd r) with
         | Some v => assign st (fst r) (Some v)
         | None => assign st (fst r) (Some (JStr (snd r)))
         end) rows [] in
  (Json 200 (JObj state), w).

Definition saveMany (userId : text) (data : json) : M unit :=
  transaction
    (for_each (entries data)
       (fun kv => run (setState userId (fst kv) (stringify (snd kv))))).

(** PUT /api/state *)
Definition put_api_state (userId : text) (body : json) (w : world)
  : response * world :=
  if negb (json_body body) then (Refused 400, w)
  else if negb (truthy (Some body)) || negb (typeof_object body)
  then (Json 400 (error_body "Invalid body"), w)
  else respond (mbind (saveMany userId body) (fun _ => ret (Json 200 ok_true))) w.

(** PATCH /api/state/:key *)
Definition patch_api_state_key (userId key : text) (body : json) (w : world)
  : response * world :=
  if negb (json_body body) then (Refused 400, w)
  else respond (mbind (run (setState userId key (stringify body)))
                  (fun _ => ret (Json 200 ok_true))) w.

(** GET /api/months *)
Definition get_api_months (userId : text) (w : world) : response * world :=
  let rows := getAllMonths (db w) userId in
  let months :=
    fold_left
      (fun ms r =>
         match parse (snd r) with
         | Some v => assign ms (fst r) (Some v)
         | None => ms
         end) rows [] in
  (Json 200 (JObj months), w).

(** GET /api/months/:key *)
Definition get_api_months_key (userId key : text) (w : world)
  : response * world :=
  match getMonth (db w) userId key with
  | None => (Json 200 (JObj []), w)
  | Some data =>
      match parse data with
      | Some v => (Json 200 v, w)
      | None => (Json 200 (JObj []), w)
      end
  end.

(** PUT /api/months/:key *)
Definition put_api_months_key (userId key : text) (body : json) (w : world)
  : response * world :=
  if negb (json_body body) then (Refused 400, w)
  else if negb (month_key_ok key)
  then (Json 400 (error_body "Invalid month key (expected YYYY-MM)"), w)
  else respond (mbind (run (setMonth userId key (stringify body)))
                  (fun _ => ret (Json 200 ok_true))) w.

(** DELETE /api/months/:key *)
Definition delete_api_months_key (userId key : text) (w : world)
  : response * world :=
  respond (mbind (run (deleteMonth userId key))
             (fun _ => ret (Json 200 ok_true))) w.

(** GET /api/export; [exportedAt] is the clock's [toISOString()]. *)
Definition get_api_export (userId exportedAt : text) (w : world)
  : response * world :=
  let collect (rows : list (text * text)) :=
    fold_left
      (fun o r =>
         match parse (snd r) with
         | Some v => assign o (fst r) (Some v)
         | None => o
         end) rows [] in
  let state := collect (getAllState (db w) userId) in
  let monthly := collect (getAllMonths (db w) userId) in
  (Json 200 (JObj [(u16 "user", JStr userId);
                   (u16 "exportedAt", JStr exportedAt);
                   (u16 "state", JObj state);
                   (u16 "monthly", JObj monthly)]), w).

Definition importAll (userId : text) (s m : option json) : M unit :=
  transaction
    (mbind
       (match s with
        | Some sv =>
            if truthy s
            then for_each (entries sv)
                   (fun kv => run (setState userId (fst kv) (stringify (snd kv))))
            else ret tt
        | None => ret tt
        end)
       (fun _ =>
          match m with
          | Some mv =>
              if truthy m
              then for_each (entries mv)
                     (fun kv => run (setMonth userId (fst kv) (stringify (snd kv))))
              else ret tt
          | None => ret tt
          end)).

(** POST /api/import *)
Definition post_api_import (userId : text) (body : json) (w : world)
  : response * world :=
  if negb (json_body body) then (Refused 400, w)
  else
    match get_prop_r body (u16 "state"), get_prop_r body (u16 "monthly") with
    | Ok state, Ok monthly =>
        respond (mbind (importAll userId state monthly)
                   (fun _ => ret (Json 200 ok_true))) w
    | Throw e, _ | _, Throw e => (Uncaught e, w)
    end.

(** GET /api/email/config *)
Definition get_api_email_config (userId : text) (w : world)
  : response * world :=
  match getEmailCfg (db w) userId with
  | None => (Json 200 JNull, w)
  | Some config =>
      match parse config with
      | None => (Json 200 JNull, w)
      | Some cfg =>
          match maskConfig (Some cfg) with
          | Ok masked => (Json 200 masked, w)
          | Throw _ => (Json 200 JNull, w)
          end
      end
  end.

(** The four bullets the handler looks for in an incoming secret. *)
Definition masked_hint : jsstring := u16 "••••".

(** [v.includes(t)] for a truthy [v]: the substring test on a string,
    the membership test on an array, no such method otherwise. *)
Definition includes_method (v : json) (t : jsstring) : result bool :=
  match v with
  | JStr s => Ok (includes s t)
  | JArr l =>
      Ok (existsb (fun x => match x with
                            | JStr s => JsString.eqb s t
                            | _ => false
                            end) l)
  | _ => Throw (TypeError (u16 "body[f].includes is not a function"))
  end.

(** The body of the [secretFields.forEach] of PUT /api/email/config. *)
Definition keep_secret (body existing : json)
  (merged : list (jsstring * json)) (f : jsstring)
  : result (list (jsstring * json)) :=
  match get_prop body f with
  | Some v =>
      if truthy (Some v) then
        do inc <- includes_method v masked_hint;
        if inc : bool then
          do old <- get_prop_r existing f; Ok (assign merged f old)
        else Ok merged
      else Ok merged
  | None => Ok merged
  end.

(** The configuration the handler merges into: the stored one when its
    text parses, an empty object otherwise. *)
Definition existing_config (d : database) (userId : text) : json :=
  match getEmailCfg d userId with
  | Some config =>
      match parse config with
      | Some v => v
      | None => JObj []
      end
  | None => JObj []
  end.

(** PUT /api/email/config *)
Definition put_api_email_config (userId : text) (body : json) (w : world)
  : response * world :=
  if negb (json_body body) then (Refused 400, w)
  else if negb (truthy (Some body))
          || negb (truthy (get_prop body (u16 "provider")))
  then (Json 400 (error_body "provider required"), w)
  else
    let existing := existing_config (db w) userId in
    let merged := spread (spread [] existing) body in
    match forEach secretFields (keep_secret body existing) merged with
    | Throw e => (Uncaught e, w)
    | Ok merged' =>
        respond (mbind (run (setEmailCfg userId (stringify (JObj merged'))))
                   (fun _ => ret (Json 200 ok_true))) w
    end.

(** *** The identity middleware *)

(** [h || otherwise] for a header value: a header that is not sent is
    [undefined], and the empty string is falsy as well. *)
Definition header_or (h : option jsstring) (otherwise : jsstring) : jsstring :=
  match h with
  | Some (c :: s) => c :: s
  | _ => otherwise
  end.

(** [req.userId]: the identity a reverse proxy injected, [local] without
    one.  [headers] is [req.headers], read by lower-case name. *)
Definition req_userId (headers : jsstring -> option jsstring) : text :=
  header_or (headers (u16 "remote-user"))
    (header_or (headers (u16 "x-authentik-username"))
       (header_or (headers (u16 "x-forwarded-user"))
          (header_or (headers (u16 "x-remote-user")) (u16 "local")))).

(** GET /api/health; [now] is [Date.now()]. *)
Definition get_api_health (userId : text) (now : number) : response :=
  Json 200 (JObj [(u16 "ok", JBool true); (u16 "user", JStr userId);
                  (u16 "ts", JNum now)]).

(** *** The routes that write *)

Inductive request : Type :=
| PutState (body : json)
| PatchState (key : text) (body : json)
| PutMonth (key : text) (body : json)
| DeleteMonth (key : text)
| Import (body : json)
| PutEmailConfig (body : json).

(** The handler Express routes a write request to. *)
Definition handle (userId : text) (r : request) (w : world)
  : response * world :=
  match r with
  | PutState body => put_api_state userId body w
  | PatchState key body => patch_api_state_key userId key body w
  | PutMonth key body => put_api_months_key userId key body w
  | DeleteMonth key => delete_api_months_key userId key w
  | Import body => post_api_import userId body w
  | PutEmailConfig body => put_api_email_config userId body w
  end.

(** *** The handlers that send email *)

Import Template.

(** What an [async] handler does with a request: it answers, or an
    exception thrown outside its [try] block rejects its promise and no
    answer is written. *)
Inductive outcome : Type :=
| Answered (status : Z) (body : json)
| Rejected (e : error).

(** [e.message] for an error caught around [sendEmail]: the guards, the
    HTTP helpers and nodemailer raise [Error]s, a failed conversion to a
    string raises a [TypeError].  The other errors are not raised there
    and carry no message here. *)
Definition message (e : error) : option jsstring :=
  match e with
  | TypeError msg | Error msg => Some msg
  | _ => None
  end.

(** [{ error: e.message }], a missing message being left out by
    [res.json]. *)
Definition error_json (e : error) : json :=
  JObj (match message e with
        | Some msg => [(u16 "error", JStr msg)]
        | None => []
        end).

(** [cfg.fromName || 'BillFlow'] *)
Definition from_name (cfg : json) : result json :=
  do v <- get_prop_r cfg (u16 "fromName");
  Ok (match v with
      | Some x => if truthy v then x else JStr (u16 "BillFlow")
      | None => JStr (u16 "BillFlow")
      end).

Definition with_fromName (opts : options) (s : jsstring) : options :=
  {| greeting := greeting opts;
     personName := personName opts;
     accentColor := accentColor opts;
     monthLabel := monthLabel opts;
     bills := bills opts;
     total := total opts;
     payMethod := payMethod opts;
     payId := payId opts;
     fromName := Some s |}.

(** [buildEmailHtml({ ..., fromName: cfg.fromName || 'BillFlow' })] for
    options typed as the JSDoc types them, the sender name being any
    parsed value: the payment button is built first, the sender name is
    converted to a string where the HTML template interpolates it. *)
Definition build_for (cfg : json) (opts : options)
  : result (jsstring * jsstring) :=
  do v <- from_name cfg;
  do first <- buildEmailHtml (with_fromName opts []);
  do s <- to_string v;
  buildEmailHtml (with_fromName opts s).

(** The fixed content of the test email. *)
Definition test_options : options :=
  {| greeting := Some (u16 "Hey there,");
     personName := Some (u16 "You");
     accentColor := Some (u16 "#a8e063");
     monthLabel := Some (u16 "Test Email");
     bills := [{| name := u16 "Electric";
                  amount := S754_finite false 5981343255101440 (-46) |};
               {| name := u16 "Internet";
                  amount := S754_finite false 8442841926436127 (-47) |}];
     total := S754_finite false 5101382109159752 (-45);
     payMethod := Some (u16 "none");
     payId := None;
     fromName := None |}.

(** POST /api/email/test *)
Definition post_api_email_test (userId : text) (w : world)
  : network -> outcome * list delivery :=
  fun net =>
    match getEmailCfg (db w) userId with
    | None => (Answered 400 (error_body "No email config saved"), [])
    | Some config =>
        match parse config with
        | None => (Answered 400 (error_body "Invalid config"), [])
        | Some cfg =>
            match build_for cfg test_options with
            | Throw e => (Rejected e, [])
            | Ok (html, text) =>
                let to := get_prop cfg (u16 "fromEmail") in
                match sendEmail (Some cfg) to (u16 "BillFlow — Test Email")
                        html text net with
                | (Ok _, sent) =>
                    match to_string_opt to with
                    | Ok s =>
                        (Answered 200
                           (JObj [(u16 "ok", JBool true);
                                  (u16 "message",
                                   JStr (u16 "Test email sent to " ++ s))]),
                         sent)
                    | Throw e => (Answered 500 (error_json e), sent)
                    end
                | (Throw e, sent) => (Answered 500 (error_json e), sent)
                end
            end
        end
    end.

(** POST /api/email/send, for a body whose template fields are typed as
    the JSDoc of [buildEmailHtml] types them; [to] is [req.body.to]. *)
Definition post_api_email_send (userId : text) (to : option json)
  (opts : options) (w : world) : network -> outcome * list delivery :=
  fun net =>
    if negb (truthy to)
    then (Answered 400 (error_body "recipient (to) required"), [])
    else
      match getEmailCfg (db w) userId with
      | None =>
          (Answered 400
             (error_body
                "No email provider configured. Set it up in Settings → Email."),
           [])
      | Some config =>
          match parse config with
          | None => (Answered 400 (error_body "Invalid email config"), [])
          | Some cfg =>
              match build_for cfg opts with
              | Throw e => (Rejected e, [])
              | Ok (html, text) =>
                  match sendEmail (Some cfg) to
                          (u16 "Bills for " ++ str (monthLabel opts))
                          html text net with
                  | (Ok _, sent) => (Answered 200 ok_true, sent)
                  | (Throw e, sent) => (Answered 500 (error_json e), sent)
                  end
              end
          end
      end.

End Server.

Import Template Db Email Server.

(* ================================================================== *)
(** * Properties *)

Unset Implicit Arguments.

(** ** Strings *)

Lemma eqb_eq (s t : jsstring) : JsString.eqb s t = true <-> s = t.
Proof.
  revert t; induction s as [|a s IH]; intros [|b t]; simpl;
    try (split; [discriminate | discriminate]); try tauto.
  rewrite andb_true_iff, N.eqb_eq, IH.
  split; [intros [-> ->]; reflexivity | intros H; inversion H; auto].
Qed.

Lemma eqb_refl (s : jsstring) : JsString.eqb s s = true.
Proof. apply eqb_eq; reflexivity. Qed.

Lemma eqb_neq (s t : jsstring) : JsString.eqb s t = false <-> s <> t.
Proof.
  rewrite <- eqb_eq. destruct (JsString.eqb s t); split; congruence.
Qed.

Lemma eqb_sym (s t : jsstring) : JsString.eqb s t = JsString.eqb t s.
Proof.
  destruct (JsString.eqb s t) eqn:E.
  - apply eqb_eq in E; subst; symmetry; apply eqb_refl.
  - symmetry; apply eqb_neq; apply eqb_neq in E; congruence.
Qed.

(** [t] occurs in [s]. *)
Definition substring (t s : jsstring) : Prop :=
  exists pre post, s = pre ++ t ++ post.

Lemma starts_with_spec (t s : jsstring) :
  starts_with t s = true <-> exists post, s = t ++ post.
Proof.
  revert s; induction t as [|a t IH]; intros s; simpl.
  - split; [intros _; exists s; reflexivity | reflexivity].
  - destruct s as [|b s].
    + split; [discriminate | intros [p H]; discriminate].
    + rewrite andb_true_iff, N.eqb_eq, IH. split.
      * intros [-> [p ->]]. exists p; reflexivity.
      * intros [p H]. inversion H; subst. split; [reflexivity | exists p; reflexivity].
Qed.

Lemma includes_spec (s t : jsstring) :
  includes s t = true <-> substring t s.
Proof.
  unfold substring. induction s as [|c s IH].
  - simpl. rewrite orb_false_r, starts_with_spec. split.
    + intros [p H]. exists [], p. exact H.
    + intros [pre [post H]]. destruct pre; [exists post; exact H | discriminate].
  - cbn [includes]. rewrite orb_true_iff, starts_with_spec, IH. split.
    + intros [[p H] | [pre [post H]]].
      * exists [], p. exact H.
      * exists (c :: pre), post. rewrite H. reflexivity.
    + intros [[|x pre] [post H]].
      * left. exists post. exact H.
      * right. inversion H; subst. exists pre, post. reflexivity.
Qed.

Lemma substring_trans (a b c : jsstring) :
  substring a b -> substring b c -> substring a c.
Proof.
  intros [p1 [q1 ->]] [p2 [q2 ->]].
  exists (p2 ++ p1), (q1 ++ q2). repeat rewrite <- app_assoc. reflexivity.
Qed.

Lemma slice_0_4 (s : jsstring) : slice s 0 4 = firstn 4 s.
Proof.
  unfold slice, JsString.length. cbn [Z.ltb Z.compare].
  replace (Z.min 0 (Z.of_nat (List.length s))) with 0%Z by lia.
  rewrite Z.sub_0_r. cbn [Z.to_nat skipn].
  destruct (Z.min_spec 4 (Z.of_nat (List.length s))) as [[H ->] | [H ->]].
  - reflexivity.
  - rewrite Z.max_l by lia. rewrite Nat2Z.id.
    rewrite firstn_all. symmetry. apply firstn_all2. lia.
Qed.

(** ** Objects *)

(** A JavaScript object holds each key once. *)
Definition unique_keys (o : list (jsstring * json)) : Prop :=
  NoDup (map fst o).

Lemma has_key_lookup (k : jsstring) (o : list (jsstring * json)) :
  has_key k o = false <-> lookup k o = None.
Proof.
  induction o as [|[k' v] o IH]; simpl; [tauto|].
  destruct (JsString.eqb k k'); simpl; [split; discriminate | exact IH].
Qed.

Lemma lookup_update (k k' : jsstring) (v : json) (o : list (jsstring * json)) :
  lookup k (update k' v o) =
  if JsString.eqb k k' then (if has_key k' o then Some v else None)
  else lookup k o.
Proof.
  induction o as [|[k0 v0] o IH]; simpl.
  - destruct (JsString.eqb k k'); reflexivity.
  - destruct (JsString.eqb k' k0) eqn:E0; simpl.
    + apply eqb_eq in E0; subst k0.
      destruct (JsString.eqb k k'); reflexivity.
    + rewrite IH. destruct (JsString.eqb k k') eqn:E.
      * apply eqb_eq in E; subst k'. rewrite E0. reflexivity.
      * reflexivity.
Qed.

Lemma lookup_insert_index (i : Z) (k k' : jsstring) (v : json)
  (o : list (jsstring * json)) :
  has_key k' o = false ->
  lookup k (insert_index i k' v o) =
  if JsString.eqb k k' then Some v else lookup k o.
Proof.
  induction o as [|[k0 v0] o IH]; simpl; intros H.
  - reflexivity.
  - apply orb_false_elim in H as [H0 H1].
    assert (C : lookup k ((k', v) :: (k0, v0) :: o) =
                if JsString.eqb k k' then Some v
                else if JsString.eqb k k0 then Some v0 else lookup k o)
      by reflexivity.
    destruct (array_index k0) as [j|]; [destruct (j <? i)%Z|]; try exact C.
    simpl. rewrite IH by exact H1.
    destruct (JsString.eqb k k0) eqn:E0; [|reflexivity].
    apply eqb_eq in E0; subst k0.
    rewrite eqb_sym, H0. reflexivity.
Qed.

Lemma lookup_app (k : jsstring) (o p : list (jsstring * json)) :
  lookup k (o ++ p) =
  match lookup k o with Some v => Some v | None => lookup k p end.
Proof.
  induction o as [|[k0 v0] o IH]; simpl; [reflexivity|].
  destruct (JsString.eqb k k0); [reflexivity | exact IH].
Qed.

(** Reading after CreateDataProperty. *)
Lemma lookup_obj_set (k k' : jsstring) (v : json) (o : list (jsstring * json)) :
  lookup k (obj_set o k' v) =
  if JsString.eqb k k' then Some v else lookup k o.
Proof.
  unfold obj_set. destruct (has_key k' o) eqn:H.
  - rewrite lookup_update, H. reflexivity.
  - destruct (array_index k') as [i|].
    + apply lookup_insert_index; exact H.
    + rewrite lookup_app. simpl.
      destruct (JsString.eqb k k') eqn:E.
      * apply eqb_eq in E; subst k'.
        apply has_key_lookup in H. rewrite H. reflexivity.
      * destruct (lookup k o); reflexivity.
Qed.

Lemma lookup_obj_delete (k k' : jsstring) (o : list (jsstring * json)) :
  lookup k (obj_delete k' o) =
  if JsString.eqb k k' then None else lookup k o.
Proof.
  induction o as [|[k0 v0] o IH]; simpl.
  - destruct (JsString.eqb k k'); reflexivity.
  - destruct (JsString.eqb k' k0) eqn:E0; simpl.
    + apply eqb_eq in E0; subst k0. rewrite IH.
      destruct (JsString.eqb k k'); reflexivity.
    + rewrite IH. destruct (JsString.eqb k k') eqn:E; [|reflexivity].
      apply eqb_eq in E; subst k'. rewrite E0. reflexivity.
Qed.

(** Reading after the assignment [o[k'] = v]. *)
Lemma lookup_assign (k k' : jsstring) (v : option json)
  (o : list (jsstring * json)) :
  JsString.eqb k' (u16 "__proto__") = false ->
  lookup k (assign o k' v) = if JsString.eqb k k' then v else lookup k o.
Proof.
  intros H. unfold assign. rewrite H. destruct v as [v|].
  - apply lookup_obj_set.
  - apply lookup_obj_delete.
Qed.

Lemma lookup_In (k : jsstring) (v : json) (o : list (jsstring * json)) :
  unique_keys o -> In (k, v) o -> lookup k o = Some v.
Proof.
  unfold unique_keys. induction o as [|[k0 v0] o IH]; simpl; intros U H.
  - contradiction.
  - inversion U as [|? ? N U']; subst.
    destruct H as [H | H].
    + inversion H; subst. rewrite eqb_refl. reflexivity.
    + destruct (JsString.eqb k k0) eqn:E.
      * apply eqb_eq in E; subst k0. exfalso. apply N.
        change k with (fst (k, v)). apply in_map. exact H.
      * apply IH; assumption.
Qed.

Lemma lookup_Some_In (k : jsstring) (v : json) (o : list (jsstring * json)) :
  lookup k o = Some v -> In (k, v) o.
Proof.
  induction o as [|[k0 v0] o IH]; simpl; [discriminate|].
  destruct (JsString.eqb k k0) eqn:E.
  - apply eqb_eq in E; subst k0. intros H; inversion H; subst. left; reflexivity.
  - intros H; right; apply IH; exact H.
Qed.

(** What a fold of CreateDataProperty leaves under a key: the last
    binding of the key in the copied list, if there is one. *)
Lemma lookup_fold_obj_set (k : jsstring) (l acc : list (jsstring * json)) :
  lookup k (fold_left (fun a kv => obj_set a (fst kv) (snd kv)) l acc) =
  match lookup k (rev l) with
  | Some v => Some v
  | None => lookup k acc
  end.
Proof.
  revert acc; induction l as [|[k0 v0] l IH]; intros acc; simpl.
  - reflexivity.
  - rewrite IH, lookup_app. simpl. rewrite lookup_obj_set.
    destruct (lookup k (rev l)); [reflexivity|].
    destruct (JsString.eqb k k0); reflexivity.
Qed.

Lemma lookup_rev (k : jsstring) (o : list (jsstring * json)) :
  unique_keys o -> lookup k (rev o) = lookup k o.
Proof.
  intros U. destruct (lookup k o) as [v|] eqn:E.
  - apply lookup_In.
    + unfold unique_keys. rewrite map_rev. apply NoDup_rev. exact U.
    + apply in_rev. rewrite rev_involutive. apply lookup_Some_In. exact E.
  - destruct (lookup k (rev o)) as [v|] eqn:E'; [|reflexivity].
    apply lookup_Some_In in E'. apply in_rev in E'.
    apply lookup_In in E'; [congruence | exact U].
Qed.

(** Reading a property of [{ ...a, ...b }]: [b] wins. *)
Lemma lookup_spread (k : jsstring) (o p : list (jsstring * json)) :
  unique_keys p ->
  lookup k (spread o (JObj p)) =
  match lookup k p with Some v => Some v | None => lookup k o end.
Proof.
  intros U. unfold spread. cbn [entries].
  rewrite lookup_fold_obj_set, lookup_rev by exact U. reflexivity.
Qed.

(** ** Strings without unpaired surrogates *)

(** A string without unpaired surrogates. *)
Fixpoint well_formed (s : jsstring) : bool :=
  match s with
  | [] => true
  | c :: r =>
      if is_high_surrogate c then
        match r with
        | d :: r' => is_low_surrogate d && well_formed r'
        | [] => false
        end
      else if is_low_surrogate c then false
      else well_formed r
  end.

Lemma unreserved_not_surrogate (c : N) :
  unreserved c = true -> is_high_surrogate c = false /\ is_low_surrogate c = false.
Proof.
  unfold unreserved, is_high_surrogate, is_low_surrogate. intros H.
  repeat (apply orb_true_iff in H; destruct H as [H | H]);
    repeat (apply andb_true_iff in H; destruct H as [? H]);
    repeat match goal with
           | X : (_ <=? _)%N = true |- _ => apply N.leb_le in X
           | X : (_ =? _)%N = true |- _ => apply N.eqb_eq in X
           end;
    split; apply andb_false_iff; left; apply N.leb_gt; lia.
Qed.

Lemma high_not_low (c : N) :
  is_high_surrogate c = true -> is_low_surrogate c = false.
Proof.
  unfold is_high_surrogate, is_low_surrogate. intros H.
  apply andb_true_iff in H as [H1 H2]. apply N.leb_le in H1, H2.
  apply andb_false_iff. left. apply N.leb_gt. lia.
Qed.

(** On a well-formed string [encodeURIComponent] returns, and it
    distributes over a concatenation whose left part is well formed. *)
Lemma encode_app_len (n : nat) :
  forall a, (List.length a <= n)%nat -> well_formed a = true ->
  forall b,
    exists a', encodeURIComponent a = Ok a' /\
               encodeURIComponent (a ++ b) =
               (do b' <- encodeURIComponent b; Ok (a' ++ b')).
Proof.
  induction n as [|n IH]; intros a Hn W b.
  - destruct a; [|simpl in Hn; lia]. exists []. split; [reflexivity|].
    simpl. destruct (encodeURIComponent b); reflexivity.
  - destruct a as [|c r].
    + exists []. split; [reflexivity|].
      simpl. destruct (encodeURIComponent b); reflexivity.
    + cbn [well_formed] in W. cbn [app encodeURIComponent].
      destruct (unreserved c) eqn:U.
      * destruct (unreserved_not_surrogate c U) as [Hh Hl].
        rewrite Hh, Hl in W.
        destruct (IH r ltac:(simpl in Hn; lia) W b) as [r' [E1 E2]].
        exists (c :: r'). rewrite E1, E2. split; [reflexivity|].
        destruct (encodeURIComponent b); reflexivity.
      * destruct (is_high_surrogate c) eqn:Hh.
        -- rewrite (high_not_low c Hh).
           destruct r as [|d r']; [discriminate|].
           apply andb_true_iff in W as [Hd W]. cbn [app]. rewrite Hd.
           destruct (IH r' ltac:(simpl in Hn; lia) W b) as [r'' [E1 E2]].
           eexists. rewrite E1, E2. split; [reflexivity|].
           destruct (encodeURIComponent b); cbn [bind];
             [rewrite app_assoc; reflexivity | reflexivity].
        -- destruct (is_low_surrogate c) eqn:Hl; [discriminate|].
           destruct (IH r ltac:(simpl in Hn; lia) W b) as [r' [E1 E2]].
           eexists. rewrite E1, E2. split; [reflexivity|].
           destruct (encodeURIComponent b); cbn [bind];
             [rewrite app_assoc; reflexivity | reflexivity].
Qed.

Lemma encode_app (a b : jsstring) :
  well_formed a = true ->
  exists a', encodeURIComponent a = Ok a' /\
             encodeURIComponent (a ++ b) =
             (do b' <- encodeURIComponent b; Ok (a' ++ b')).
Proof. intros W. exact (encode_app_len (List.length a) a (le_n _) W b). Qed.

Lemma well_formed_app_len (n : nat) :
  forall a, (List.length a <= n)%nat -> well_formed a = true ->
  forall b, well_formed (a ++ b) = well_formed b.
Proof.
  induction n as [|n IH]; intros a Hn W b.
  - destruct a; [reflexivity | simpl in Hn; lia].
  - destruct a as [|c r]; [reflexivity|].
    cbn [well_formed app] in *.
    destruct (is_high_surrogate c).
    + destruct r as [|d r']; [discriminate|].
      apply andb_true_iff in W as [Hd W]. cbn [app]. rewrite Hd. cbn [andb].
      apply IH; [simpl in Hn; lia | exact W].
    + destruct (is_low_surrogate c); [discriminate|].
      apply IH; [simpl in Hn; lia | exact W].
Qed.

Lemma well_formed_app (a b : jsstring) :
  well_formed a = true -> well_formed b = true -> well_formed (a ++ b) = true.
Proof.
  intros Wa Wb.
  rewrite (well_formed_app_len (List.length a) a (le_n _) Wa b). exact Wb.
Qed.

Lemma well_formed_cons (c : N) (t : jsstring) :
  is_high_surrogate c = false -> is_low_surrogate c = false ->
  well_formed (c :: t) = well_formed t.
Proof. intros Hh Hl. cbn [well_formed]. rewrite Hh, Hl. reflexivity. Qed.

Lemma small_not_surrogate (c : N) :
  (c < 55296)%N -> is_high_surrogate c = false /\ is_low_surrogate c = false.
Proof.
  intros H. unfold is_high_surrogate, is_low_surrogate.
  split; apply andb_false_iff; left; apply N.leb_gt; lia.
Qed.

Lemma hex_digit_small (d : N) : (d < 16)%N -> (hex_digit d < 55296)%N.
Proof.
  intros H. unfold hex_digit. destruct (N.ltb_spec d 10); lia.
Qed.

Lemma land_15 (x : N) : (N.land x 15 < 16)%N.
Proof.
  change 15%N with (N.ones 4). rewrite N.land_ones.
  apply N.mod_lt. discriminate.
Qed.

Lemma unicode_escape_well_formed (c : N) (r : jsstring) :
  (c < 65536)%N ->
  well_formed (unicode_escape c ++ r) = well_formed r.
Proof.
  intros Hc. unfold unicode_escape. cbn [app].
  assert (H12 : (N.shiftr c 12 < 16)%N).
  { rewrite N.shiftr_div_pow2. apply N.Div0.div_lt_upper_bound.
    change (2 ^ 12 * 16)%N with 65536%N. exact Hc. }
  repeat (rewrite well_formed_cons;
          [| apply small_not_surrogate; first [lia | apply hex_digit_small; first [exact H12 | apply land_15]]
           | apply small_not_surrogate; first [lia | apply hex_digit_small; first [exact H12 | apply land_15]]]).
  reflexivity.
Qed.

Lemma quote_unit_well_formed (c : N) (r : jsstring) :
  is_high_surrogate c = false -> is_low_surrogate c = false ->
  well_formed (quote_unit c ++ r) = well_formed r.
Proof.
  intros Hh Hl. unfold quote_unit.
  repeat match goal with
         | |- context [if ?b then _ else _] => destruct b eqn:?
         end;
    try (cbn [app]; rewrite !well_formed_cons by reflexivity; reflexivity).
  - apply unicode_escape_well_formed.
    match goal with X : (c <? 32)%N = true |- _ => apply N.ltb_lt in X; lia end.
  - cbn [app]. apply well_formed_cons; assumption.
Qed.

Lemma surrogate_is_unit (c : N) :
  is_high_surrogate c = true \/ is_low_surrogate c = true -> (c < 65536)%N.
Proof.
  unfold is_high_surrogate, is_low_surrogate.
  intros [H | H]; apply andb_true_iff in H as [_ H]; apply N.leb_le in H; lia.
Qed.

(** The text [JSON.stringify] writes for a string holds no unpaired
    surrogate. *)
Lemma quote_body_well_formed_len (n : nat) :
  forall s, (List.length s <= n)%nat -> well_formed (quote_body s) = true.
Proof.
  induction n as [|n IH]; intros s Hn.
  - destruct s; [reflexivity | simpl in Hn; lia].
  - destruct s as [|c r]; [reflexivity|]. cbn [quote_body].
    destruct (is_high_surrogate c) eqn:Hh.
    + destruct r as [|d r'].
      * rewrite <- (app_nil_r (unicode_escape c)).
        rewrite unicode_escape_well_formed; [reflexivity|].
        apply surrogate_is_unit; left; exact Hh.
      * destruct (is_low_surrogate d) eqn:Hd.
        -- cbn [well_formed]. rewrite Hh, Hd. cbn [andb].
           apply IH. simpl in *. lia.
        -- rewrite unicode_escape_well_formed
             by (apply surrogate_is_unit; left; exact Hh).
           apply IH. simpl in *. lia.
    + destruct (is_low_surrogate c) eqn:Hl.
      * rewrite unicode_escape_well_formed
          by (apply surrogate_is_unit; right; exact Hl).
        apply IH. simpl in *. lia.
      * rewrite quote_unit_well_formed by assumption.
        apply IH. simpl in *. lia.
Qed.

Lemma quote_well_formed (s : jsstring) : well_formed (quote s) = true.
Proof.
  unfold quote. cbn [app]. rewrite well_formed_cons by reflexivity.
  apply well_formed_app.
  - apply (quote_body_well_formed_len (List.length s)). apply le_n.
  - reflexivity.
Qed.


(** ** JSON round trip: the digits of a number *)

Local Open Scope Z_scope.

Lemma digit_char (r : Z) :
  0 <= r < 10 ->
  is_digit (Z.to_N (48 + r)) = true /\ Z.of_N (Z.to_N (48 + r)) - 48 = r.
Proof.
  intros H. rewrite Z2N.id by lia. split; [|lia].
  unfold is_digit. apply andb_true_iff. split; apply N.leb_le; lia.
Qed.

Lemma digits_value_snoc (ds : jsstring) (c : N) :
  digits_value (ds ++ [c]) = digits_value ds * 10 + (Z.of_N c - 48).
Proof. unfold digits_value. rewrite fold_left_app. reflexivity. Qed.

Lemma digits_aux_spec (fuel : nat) :
  forall n acc, 0 <= n < 2 ^ Z.of_nat fuel -> (0 < fuel)%nat ->
  exists ds,
    digits_aux fuel n acc = ds ++ acc /\
    forallb is_digit ds = true /\
    digits_value ds = n /\
    ds <> [] /\
    (0 < n -> hd 48%N ds <> 48%N).
Proof.
  induction fuel as [|f IH]; intros n acc Hn Hf; [lia|].
  cbn [digits_aux].
  assert (Hr : 0 <= n mod 10 < 10) by (apply Z.mod_pos_bound; lia).
  destruct (digit_char (n mod 10) Hr) as [Hd Hv].
  destruct (Z.eqb_spec (n / 10) 0) as [E | E].
  - exists [Z.to_N (48 + n mod 10)]. split; [reflexivity|].
    assert (n = n mod 10).
    { rewrite (Z.div_mod n 10) at 1 by lia. rewrite E. lia. }
    split; [cbn [forallb]; rewrite Hd; reflexivity|].
    split; [unfold digits_value; cbn [fold_left]; lia|].
    split; [discriminate|].
    intros Hpos. cbn [hd]. intros X.
    apply (f_equal Z.of_N) in X. rewrite Z2N.id in X by lia.
    change (Z.of_N 48) with 48 in X. lia.
  - assert (Hq : 0 < n / 10) by (pose proof (Z.div_pos n 10); lia).
    assert (Hf' : (0 < f)%nat).
    { destruct f; [|lia]. simpl in Hn.
      assert (n / 10 = 0) by (apply Z.div_small; lia). lia. }
    assert (Hn' : 0 <= n / 10 < 2 ^ Z.of_nat f).
    { split; [lia|].
      rewrite Nat2Z.inj_succ, Z.pow_succ_r in Hn by lia.
      apply Z.div_lt_upper_bound; lia. }
    destruct (IH (n / 10) (Z.to_N (48 + n mod 10) :: acc) Hn' Hf')
      as [ds [E1 [E2 [E3 [E4 E5]]]]].
    exists (ds ++ [Z.to_N (48 + n mod 10)]).
    split; [rewrite E1, <- app_assoc; reflexivity|].
    split; [rewrite forallb_app, E2; cbn [forallb]; rewrite Hd; reflexivity|].
    split.
    { rewrite digits_value_snoc, E3, Hv.
      rewrite (Z.div_mod n 10) at 3 by lia. lia. }
    split; [destruct ds; discriminate|].
    intros _. destruct ds as [|c ds]; [congruence|]. simpl. apply E5. exact Hq.
Qed.

(** The digits of a natural number: decimal characters, no leading
    zero, and the number is their value. *)
Lemma digits_spec (n : Z) :
  0 <= n ->
  forallb is_digit (digits n) = true /\
  digits_value (digits n) = n /\
  digits n <> [] /\
  (0 < n -> hd 48%N (digits n) <> 48%N).
Proof.
  intros Hn. unfold digits.
  destruct (digits_aux_spec (S (Z.to_nat (Z.log2 n))) n []) as [ds [E H]].
  - split; [exact Hn|].
    rewrite Nat2Z.inj_succ, Z2Nat.id by apply Z.log2_nonneg.
    destruct (Z.eq_dec n 0) as [-> | Hz]; [reflexivity|].
    apply Z.log2_spec. lia.
  - lia.
  - rewrite E, app_nil_r. exact H.
Qed.

Lemma digits_value_acc (ds : jsstring) (acc : Z) :
  fold_left (fun a c => a * 10 + (Z.of_N c - 48)) ds acc
  = acc * 10 ^ Z.of_nat (List.length ds) + digits_value ds.
Proof.
  unfold digits_value. revert acc. induction ds as [|c ds IH]; intros acc.
  - simpl. lia.
  - cbn [fold_left List.length]. rewrite IH, (IH (0 * 10 + _)).
    rewrite Nat2Z.inj_succ, Z.pow_succ_r by lia. ring.
Qed.

Lemma digits_value_app (a b : jsstring) :
  digits_value (a ++ b)
  = digits_value a * 10 ^ Z.of_nat (List.length b) + digits_value b.
Proof.
  unfold digits_value at 1. rewrite fold_left_app.
  apply digits_value_acc.
Qed.

Lemma zeros_spec (j : Z) :
  forallb is_digit (zeros j) = true /\ digits_value (zeros j) = 0 /\
  List.length (zeros j) = Z.to_nat j.
Proof.
  unfold zeros. induction (Z.to_nat j) as [|n [IH1 [IH2 IH3]]].
  - repeat split.
  - cbn [List.repeat forallb List.length]. split; [exact IH1|].
    split; [|rewrite IH3; reflexivity].
    change (48%N :: List.repeat 48%N n) with ([48%N] ++ List.repeat 48%N n).
    rewrite digits_value_app, IH2. reflexivity.
Qed.

(** The next character does not continue a number. *)
Definition ends_number (rest : jsstring) : Prop :=
  match rest with
  | [] => True
  | c :: _ => c = 44%N \/ c = 93%N \/ c = 125%N
  end.

Lemma span_digits_app (ds rest : jsstring) :
  forallb is_digit ds = true ->
  match rest with [] => True | c :: _ => is_digit c = false end ->
  span_digits (ds ++ rest) = (ds, rest).
Proof.
  intros H R. induction ds as [|c ds IH].
  - simpl. destruct rest as [|c r]; [reflexivity|]. simpl. rewrite R. reflexivity.
  - simpl in H. apply andb_true_iff in H as [Hc H].
    cbn [app span_digits]. rewrite Hc, (IH H). reflexivity.
Qed.

Lemma ends_number_no_digit (rest : jsstring) :
  ends_number rest ->
  match rest with [] => True | c :: _ => is_digit c = false end.
Proof.
  destruct rest as [|c r]; [trivial|]. simpl.
  intros [-> | [-> | ->]]; reflexivity.
Qed.

(** ** Numbers: rounding *)

Lemma number_eqb_eq (x y : number) : number_eqb x y = true -> x = y.
Proof.
  destruct x as [s| s | | s m e], y as [t | t | | t n f]; simpl;
    try discriminate; try reflexivity.
  - intros H. apply eqb_prop in H. subst. reflexivity.
  - intros H. apply eqb_prop in H. subst. reflexivity.
  - intros H. apply andb_true_iff in H as [H He].
    apply andb_true_iff in H as [Hs Hm].
    apply eqb_prop in Hs. apply Pos.eqb_eq in Hm. apply Z.eqb_eq in He.
    subst. reflexivity.
Qed.

Lemma digits2_log2 (m : positive) :
  Z.pos (digits2_pos m) = Z.log2 (Z.pos m) + 1.
Proof.
  destruct m as [p | p |].
  - change (Z.log2 (Z.pos p~1)) with (Z.pos (digits2_pos p)).
    cbn [digits2_pos]. rewrite Pos2Z.inj_succ. lia.
  - change (Z.log2 (Z.pos p~0)) with (Z.pos (digits2_pos p)).
    cbn [digits2_pos]. rewrite Pos2Z.inj_succ. lia.
  - reflexivity.
Qed.

(** A canonical finite binary64 value [m * 2^e]: at most 53 bits in the
    mantissa, exactly 53 unless the exponent is the least one. *)
Lemma valid_finite (s : bool) (m : positive) (e : Z) :
  valid_double (S754_finite s m e) = true ->
  Z.max (Z.log2 (Z.pos m) + 1 + e - 53) (-1074) = e /\ e <= 971.
Proof.
  unfold valid_double, valid_binary, bounded, canonical_mantissa, fexp, emin.
  intros H. apply andb_true_iff in H as [H1 H2].
  apply Z.eqb_eq in H1. apply Z.leb_le in H2.
  rewrite digits2_log2 in H1. lia.
Qed.

(** Rounding is exact on the values binary64 holds. *)
Lemma round_ratio_exact (a b : Z) (m : positive) (e : Z) :
  0 < b ->
  valid_double (S754_finite false m e) = true ->
  a * 2 ^ 1074 = Z.pos m * 2 ^ (e + 1074) * b ->
  round_ratio a b = S754_finite false m e.
Proof.
  intros Hb V E. destruct (valid_finite false m e V) as [Hc He].
  assert (Hlm := Z.log2_nonneg (Z.pos m)).
  assert (Hs : 0 <= e + 1074) by lia.
  unfold round_ratio. rewrite E.
  rewrite Z.div_mul, Z.mod_mul by lia.
  rewrite Z.log2_mul_pow2 by lia.
  replace (Z.max (e + 1074 + Z.log2 (Z.pos m) + 1 - 53) 0) with (e + 1074) by lia.
  rewrite Z.div_mul, Z.mod_mul by (apply Z.pow_nonzero; lia).
  assert (P : 0 < 2 ^ (e + 1074) * b) by (apply Z.mul_pos_pos; [apply Z.pow_pos_nonneg|]; lia).
  replace (2 * (0 * b + 0)) with 0 by lia.
  destruct (Z.compare_spec 0 (2 ^ (e + 1074) * b)) as [X | X | X]; try lia.
  assert (Hm : Z.pos m < 2 ^ 53).
  { destruct (Z.log2_spec (Z.pos m)) as [_ U]; [lia|].
    eapply Z.lt_le_trans; [exact U|]. apply Z.pow_le_mono_r; lia. }
  destruct (Z.eqb_spec (Z.pos m) (2 ^ 53)) as [Y | Y]; [lia|].
  destruct (Z.eqb_spec (Z.pos m) 0) as [Z0 | Z0]; [lia|].
  replace (e + 1074 - 1074) with e by lia.
  destruct (Z.ltb_spec 971 e); [lia|]. reflexivity.
Qed.

Lemma round_dec_exact (m : positive) (e : Z) :
  valid_double (S754_finite false m e) = true ->
  round_dec (fst (exact_decimal m e)) (snd (exact_decimal m e))
  = S754_finite false m e.
Proof.
  intros V. destruct (valid_finite false m e V) as [Hc He].
  unfold exact_decimal, round_dec.
  destruct (Z.ltb_spec e 0) as [N | N]; cbn [fst snd].
  - destruct (Z.ltb_spec e 0) as [_ | X]; [|lia].
    apply round_ratio_exact; [apply Z.pow_pos_nonneg; lia | exact V |].
    replace 1074 with ((e + 1074) + (- e)) at 1 by lia.
    rewrite Z.pow_add_r by lia.
    replace 10 with (2 * 5) by reflexivity.
    rewrite Z.pow_mul_l. ring.
  - cbn [Z.ltb Z.compare]. 
    apply round_ratio_exact; [lia | exact V |].
    rewrite Z.pow_add_r by lia. ring.
Qed.

Lemma round_ratio_zero (b : Z) : 0 < b -> round_ratio 0 b = S754_zero false.
Proof.
  intros Hb. unfold round_ratio. rewrite Z.mul_0_l.
  rewrite Z.div_0_l, Z.mod_0_l by lia.
  change (Z.max (Z.log2 0 + 1 - 53) 0) with 0.
  change (0 / 2 ^ 0) with 0. change (0 mod 2 ^ 0) with 0.
  match goal with
  | |- context [?x ?= ?y] => destruct (Z.compare_spec x y) as [C | C | C]
  end; [exfalso; lia | reflexivity | exfalso; lia].
Qed.

Lemma round_dec_zero (q : Z) : round_dec 0 q = S754_zero false.
Proof.
  unfold round_dec. destruct (Z.ltb_spec q 0).
  - apply round_ratio_zero. apply Z.pow_pos_nonneg; lia.
  - rewrite Z.mul_0_l. apply round_ratio_zero. lia.
Qed.

(** The decimal Number::toString prints for a canonical positive value
    reads back as that value. *)
Lemma shortest_sound (fuel : nat) :
  forall k m e n,
    valid_double (S754_finite false m e) = true ->
    0 < fst (shortest fuel k m e n) /\
    round_dec (fst (shortest fuel k m e n)) (snd (shortest fuel k m e n))
    = S754_finite false m e.
Proof.
  assert (Pos : forall d q m e, 0 <= d ->
             round_dec d q = S754_finite false m e -> 0 < d).
  { intros d q m e H0 R. destruct (Z.eq_dec d 0) as [-> | X]; [|lia].
    rewrite round_dec_zero in R. discriminate. }
  induction fuel as [|f IH]; intros k m e n V.
  - cbn [shortest]. pose proof (round_dec_exact m e V) as R.
    split; [|exact R].
    apply (Pos (fst (exact_decimal m e)) (snd (exact_decimal m e)) m e);
      [|exact R].
    unfold exact_decimal. destruct (e <? 0); cbn [fst];
      [apply Z.mul_nonneg_nonneg | apply Z.mul_nonneg_nonneg]; try lia;
      apply Z.pow_nonneg; lia.
  - cbn [shortest].
    assert (Hab : 0 < fst (ratio_of m e) /\ 0 < snd (ratio_of m e)).
    { unfold ratio_of. destruct (Z.ltb_spec e 0); cbn [fst snd].
      - split; [lia | apply Z.pow_pos_nonneg; lia].
      - split; [apply Z.mul_pos_pos; [lia | apply Z.pow_pos_nonneg; lia] | lia]. }
    destruct (ratio_of m e) as [a b]. cbn [fst snd] in Hab.
    destruct Hab as [Ha Hb].
    set (q := n - k).
    set (num := if q <? 0 then a * 10 ^ (- q) else a).
    set (den := if q <? 0 then b else b * 10 ^ q).
    assert (Hnum : 0 <= num).
    { unfold num. destruct (q <? 0); [|lia].
      apply Z.mul_nonneg_nonneg; [lia | apply Z.pow_nonneg; lia]. }
    assert (Hden : 0 < den).
    { unfold den. destruct (Z.ltb_spec q 0); [lia|].
      apply Z.mul_pos_pos; [lia | apply Z.pow_pos_nonneg; lia]. }
    assert (Hlo : 0 <= num / den) by (apply Z.div_pos; lia).
    set (lo := num / den) in *.
    set (hi := if lo + 1 =? 10 ^ k then 10 ^ (k - 1) else lo + 1).
    set (qhi := if lo + 1 =? 10 ^ k then q + 1 else q).
    assert (Hhi : 0 <= hi).
    { unfold hi. destruct (lo + 1 =? 10 ^ k); [apply Z.pow_nonneg|]; lia. }
    destruct (number_eqb (round_dec lo q) (S754_finite false m e)) eqn:OkLo;
      destruct (number_eqb (round_dec hi qhi) (S754_finite false m e)) eqn:OkHi;
      cbn [andb negb orb];
      try (destruct ((2 * (num mod den) <? den)
                     || (2 * (num mod den) =? den) && Z.even lo));
      cbn [andb negb orb fst snd];
      try (apply number_eqb_eq in OkLo);
      try (apply number_eqb_eq in OkHi);
      try (split; [eapply Pos; eassumption | assumption]);
      try (apply IH; exact V).
Qed.

(** ** Numbers: reading back what Number::toString prints *)

Definition no_digit_head (s : jsstring) : Prop :=
  match s with [] => True | c :: _ => is_digit c = false end.

Lemma parse_frac_absent (s : jsstring) :
  match s with [] => True | c :: _ => c <> 46%N end ->
  parse_frac s = Some ([], s).
Proof.
  destruct s as [|c r]; [reflexivity|]. intros H. unfold parse_frac.
  destruct (N.eqb_spec c 46); [contradiction | reflexivity].
Qed.

Lemma parse_exp_absent (s : jsstring) :
  match s with [] => True | c :: _ => c <> 101%N /\ c <> 69%N end ->
  parse_exp s = Some (0, s).
Proof.
  destruct s as [|c r]; [reflexivity|]. intros [H1 H2]. unfold parse_exp.
  destruct (N.eqb_spec c 101); [contradiction|].
  destruct (N.eqb_spec c 69); [contradiction | reflexivity].
Qed.

Lemma parse_frac_present (f rest : jsstring) :
  forallb is_digit f = true -> f <> [] -> no_digit_head rest ->
  parse_frac (46%N :: f ++ rest) = Some (f, rest).
Proof.
  intros D NE R. unfold parse_frac. cbn [N.eqb Pos.eqb].
  rewrite (span_digits_app f rest D R). destruct f; [congruence | reflexivity].
Qed.

Lemma parse_exp_present (e : Z) (rest : jsstring) :
  no_digit_head rest ->
  parse_exp ([101%N; if e <? 0 then 45%N else 43%N] ++ digits (Z.abs e) ++ rest)
  = Some (e, rest).
Proof.
  intros R.
  destruct (digits_spec (Z.abs e) (Z.abs_nonneg e)) as [D [V [NE _]]].
  unfold parse_exp. cbn [app N.eqb Pos.eqb orb].
  destruct (Z.ltb_spec e 0) as [N | N]; cbn [N.eqb Pos.eqb];
    rewrite (span_digits_app _ rest D R), V;
    (destruct (digits (Z.abs e)); [congruence|]); f_equal; f_equal; lia.
Qed.

(** The integer part read, the rest of a number follows. *)
Lemma parse_number_int (i s2 : jsstring) :
  forallb is_digit i = true -> i <> [] ->
  (hd 48%N i <> 48%N \/ i = [48%N]) ->
  no_digit_head s2 ->
  parse_number (i ++ s2) =
  match parse_frac s2 with
  | None => None
  | Some (f, s3) =>
      match parse_exp s3 with
      | None => None
      | Some (ex, s4) =>
          Some (round_dec (digits_value (i ++ f))
                  (ex - Z.of_nat (List.length f)), s4)
      end
  end.
Proof.
  intros D NE L R. unfold parse_number.
  destruct i as [|c t]; [congruence|]. cbn [app].
  assert (Hc : is_digit c = true) by (simpl in D; apply andb_true_iff in D; tauto).
  assert (N45 : N.eqb c 45 = false).
  { apply N.eqb_neq. intros ->. discriminate. }
  rewrite N45. change (c :: t ++ s2) with ((c :: t) ++ s2).
  rewrite (span_digits_app (c :: t) s2 D R).
  assert (Z0 : N.eqb c 48 && negb match t with [] => true | _ :: _ => false end
               = false).
  { destruct L as [L | L].
    - simpl in L. apply andb_false_iff. left. apply N.eqb_neq. exact L.
    - inversion L; subst. reflexivity. }
  rewrite Z0. reflexivity.
Qed.

Lemma round_dec_shift (d q : Z) :
  0 <= q -> round_dec (d * 10 ^ q) 0 = round_dec d q.
Proof.
  intros H. unfold round_dec. cbn [Z.ltb Z.compare].
  destruct (Z.ltb_spec q 0); [lia|].
  rewrite Z.pow_0_r, Z.mul_1_r. reflexivity.
Qed.

Lemma ends_number_heads (rest : jsstring) :
  ends_number rest ->
  no_digit_head rest /\
  match rest with [] => True | c :: _ => c <> 46%N end /\
  match rest with [] => True | c :: _ => c <> 101%N /\ c <> 69%N end.
Proof.
  destruct rest as [|c r]; [simpl; tauto|]. simpl.
  intros [-> | [-> | ->]]; repeat split; discriminate.
Qed.

Lemma firstn_forallb {A : Type} (p : A -> bool) (n : nat) (l : list A) :
  forallb p l = true -> forallb p (firstn n l) = true /\ forallb p (skipn n l) = true.
Proof.
  intros H. rewrite <- (firstn_skipn n l), forallb_app in H.
  apply andb_true_iff in H. exact H.
Qed.

Lemma parse_layout (d q : Z) (rest : jsstring) :
  0 < d -> ends_number rest ->
  parse_number (layout (digits d) (q + Z.of_nat (List.length (digits d))) ++ rest)
  = Some (round_dec d q, rest).
Proof.
  intros Hd R.
  destruct (digits_spec d ltac:(lia)) as [D [V [NE L]]].
  specialize (L Hd).
  destruct (ends_number_heads rest R) as [R1 [R2 R3]].
  set (ds := digits d) in *. set (k := Z.of_nat (List.length ds)).
  assert (Hk : 0 < k).
  { unfold k. destruct ds; [congruence | simpl; lia]. }
  set (n := q + k). unfold layout. fold k.
  destruct ((-5 <=? n) && (n <=? 21)) eqn:Range.
  - destruct (Z.leb_spec k n) as [A | A].
    + (* digits followed by zeros *)
      destruct (zeros_spec (n - k)) as [ZD [ZV ZL]].
      rewrite (parse_number_int (ds ++ zeros (n - k)) rest).
      * rewrite (parse_frac_absent rest R2), (parse_exp_absent rest R3).
        rewrite app_nil_r. cbn [List.length Z.of_nat]. rewrite Z.sub_0_r.
        rewrite digits_value_app, V, ZV, ZL, Z.add_0_r.
        rewrite Z2Nat.id by lia. rewrite round_dec_shift by lia.
        replace (n - k) with q by (unfold n; lia). reflexivity.
      * rewrite forallb_app, D, ZD. reflexivity.
      * destruct ds; [congruence | discriminate].
      * left. destruct ds; [congruence | exact L].
      * exact R1.
    + destruct (Z.ltb_spec 0 n) as [B | B].
      * (* a point inside the digits *)
        destruct (firstn_forallb is_digit (Z.to_nat n) ds D) as [DF DS].
        assert (LF : List.length (firstn (Z.to_nat n) ds) = Z.to_nat n).
        { apply firstn_length_le. unfold k in A. lia. }
        assert (LS : List.length (skipn (Z.to_nat n) ds) = Z.to_nat (k - n)).
        { rewrite length_skipn. unfold k. lia. }
        rewrite <- app_assoc. cbn [app].
        rewrite (parse_number_int (firstn (Z.to_nat n) ds)).
        -- rewrite (parse_frac_present (skipn (Z.to_nat n) ds) rest DS).
           ++ rewrite (parse_exp_absent rest R3), firstn_skipn, V, LS.
              rewrite Z2Nat.id by lia.
              replace (0 - (k - n)) with q by (unfold n; lia). reflexivity.
           ++ intros X. rewrite X in LS. simpl in LS. lia.
           ++ exact R1.
        -- exact DF.
        -- intros X. rewrite X in LF. simpl in LF. lia.
        -- left. destruct ds as [|c ds']; [congruence|].
           destruct (Z.to_nat n) eqn:N0; [lia|]. exact L.
        -- reflexivity.
      * (* zeros after the point *)
        destruct (zeros_spec (- n)) as [ZD [ZV ZL]].
        change ([48%N; 46%N] ++ zeros (- n) ++ ds) with ([48%N] ++ 46%N :: (zeros (- n) ++ ds)).
        rewrite <- app_assoc. rewrite (parse_number_int [48%N]).
        -- cbn [app]. rewrite (parse_frac_present (zeros (- n) ++ ds) rest).
           ++ rewrite (parse_exp_absent rest R3).
              change (48%N :: zeros (- n) ++ ds)
                with ([48%N] ++ (zeros (- n) ++ ds)).
              rewrite digits_value_app. change (digits_value [48%N]) with 0.
              rewrite Z.mul_0_l, Z.add_0_l.
              rewrite digits_value_app, ZV, V, Z.mul_0_l, Z.add_0_l.
              rewrite length_app, ZL.
              replace (0 - Z.of_nat (Z.to_nat (- n) + List.length ds)) with q
                by (unfold n, k in *; lia).
              reflexivity.
           ++ rewrite forallb_app, ZD, D. reflexivity.
           ++ destruct (zeros (- n)); destruct ds; try discriminate; congruence.
           ++ exact R1.
        -- reflexivity.
        -- discriminate.
        -- right. reflexivity.
        -- reflexivity.
  - (* exponential notation *)
    pose proof (parse_exp_present (n - 1) rest R1) as PE.
    destruct ds as [|c r] eqn:Eds; [congruence|].
    assert (Dc : is_digit c = true /\ forallb is_digit r = true)
      by (simpl in D; apply andb_true_iff in D; exact D).
    destruct Dc as [Dc Dr].
    destruct r as [|c' r'].
    + rewrite <- app_assoc. rewrite (parse_number_int [c]).
      * rewrite parse_frac_absent by (simpl; discriminate).
        rewrite <- app_assoc, PE. cbn [app List.length Z.of_nat]. rewrite V.
        replace (n - 1 - 0) with q by (unfold n, k; simpl; lia). reflexivity.
      * simpl. rewrite Dc. reflexivity.
      * discriminate.
      * left. exact L.
      * reflexivity.
    + change ((c :: 46%N :: c' :: r') ++ [101%N; if n - 1 <? 0 then 45%N else 43%N]
              ++ digits (Z.abs (n - 1)))
        with ([c] ++ 46%N :: (c' :: r') ++ ([101%N; if n - 1 <? 0 then 45%N else 43%N]
              ++ digits (Z.abs (n - 1)))).
      rewrite <- app_assoc. rewrite (parse_number_int [c]).
      * cbn [app]. rewrite <- app_assoc.
        change (c' :: r' ++ ?x) with ((c' :: r') ++ x).
        rewrite (parse_frac_present (c' :: r')).
        -- cbn [app] in PE. cbn [app]. rewrite PE.
           rewrite V.
           replace (n - 1 - Z.of_nat (List.length (c' :: r'))) with q
             by (unfold n, k; simpl List.length; lia).
           reflexivity.
        -- exact Dr.
        -- discriminate.
        -- reflexivity.
      * simpl. rewrite Dc. reflexivity.
      * discriminate.
      * left. exact L.
      * reflexivity.
Qed.

(** A non-negative canonical Number survives Number::toString and the
    reading of a JSON number. *)
Lemma parse_number_to_string (x : number) (rest : jsstring) :
  valid_double x = true ->
  match x with
  | S754_zero s | S754_finite s _ _ => s = false
  | _ => False
  end ->
  ends_number rest ->
  parse_number (number_to_string x ++ rest) = Some (x, rest).
Proof.
  intros V S R. destruct (ends_number_heads rest R) as [R1 [R2 R3]].
  destruct x as [s | s | | s m e]; try contradiction; subst s.
  - change (number_to_string (S754_zero false)) with [48%N].
    rewrite (parse_number_int [48%N] rest); try reflexivity; try exact R1.
    + rewrite (parse_frac_absent rest R2), (parse_exp_absent rest R3).
      reflexivity.
    + discriminate.
    + right. reflexivity.
  - unfold number_to_string.
    destruct (ratio_of m e) as [a b].
    destruct (shortest_sound 17 1 m e (dec_exponent a b) V) as [P E].
    destruct (shortest 17 1 m e (dec_exponent a b)) as [d q].
    cbn [fst snd] in P, E. cbn [app].
    rewrite (parse_layout d q rest P R). rewrite E. reflexivity.
Qed.

(** ** Strings: reading back what QuoteJSONString writes *)

Lemma hex_value_digit (d : N) : (d < 16)%N -> hex_value (hex_digit d) = Some d.
Proof.
  intros H. unfold hex_digit, hex_value.
  destruct (N.ltb_spec d 10) as [L | L].
  - replace ((48 <=? 48 + d) && (48 + d <=? 57))%N with true.
    + f_equal. lia.
    + symmetry. apply andb_true_iff. split; apply N.leb_le; lia.
  - replace ((48 <=? 87 + d) && (87 + d <=? 57))%N with false.
    + replace ((97 <=? 87 + d) && (87 + d <=? 102))%N with true.
      * f_equal. lia.
      * symmetry. apply andb_true_iff. split; apply N.leb_le; lia.
    + symmetry. apply andb_false_iff. right. apply N.leb_gt. lia.
Qed.

Lemma hex4_unit (c : N) :
  (c < 65536)%N ->
  hex4 (hex_digit (N.shiftr c 12)) (hex_digit (N.land (N.shiftr c 8) 15))
       (hex_digit (N.land (N.shiftr c 4) 15)) (hex_digit (N.land c 15))
  = Some c.
Proof.
  intros H. unfold hex4.
  assert (H12 : (N.shiftr c 12 < 16)%N).
  { rewrite N.shiftr_div_pow2. apply N.Div0.div_lt_upper_bound.
    change (2 ^ 12 * 16)%N with 65536%N. exact H. }
  rewrite !hex_value_digit by (first [exact H12 | apply land_15]).
  f_equal.
  change 15%N with (N.ones 4). rewrite !N.land_ones, !N.shiftr_div_pow2.
  change (2 ^ 12)%N with 4096%N. change (2 ^ 8)%N with 256%N.
  change (2 ^ 4)%N with 16%N.
  pose proof (N.div_mod c 4096 ltac:(discriminate)).
  pose proof (N.div_mod c 256 ltac:(discriminate)).
  pose proof (N.div_mod c 16 ltac:(discriminate)).
  pose proof (N.div_mod (c / 256) 16 ltac:(discriminate)).
  pose proof (N.div_mod (c / 16) 16 ltac:(discriminate)).
  assert (c / 256 / 16 = c / 4096)%N by (rewrite N.Div0.div_div; reflexivity).
  assert (c / 16 / 16 = c / 256)%N by (rewrite N.Div0.div_div; reflexivity).
  lia.
Qed.

Lemma parse_string_escape (c : N) (t : jsstring) :
  (c < 65536)%N ->
  parse_string (unicode_escape c ++ t) =
  match parse_string t with
  | Some (s, rest) => Some (c :: s, rest)
  | None => None
  end.
Proof.
  intros H. unfold unicode_escape. cbn [app parse_string N.eqb Pos.eqb].
  rewrite (hex4_unit c H). reflexivity.
Qed.

Lemma parse_string_unit (c : N) (t : jsstring) :
  is_high_surrogate c = false -> is_low_surrogate c = false ->
  parse_string (quote_unit c ++ t) =
  match parse_string t with
  | Some (s, rest) => Some (c :: s, rest)
  | None => None
  end.
Proof.
  intros Hh Hl. unfold quote_unit.
  destruct (N.eqb_spec c 8) as [-> | N8]; [reflexivity|].
  destruct (N.eqb_spec c 9) as [-> | N9]; [reflexivity|].
  destruct (N.eqb_spec c 10) as [-> | N10]; [reflexivity|].
  destruct (N.eqb_spec c 12) as [-> | N12]; [reflexivity|].
  destruct (N.eqb_spec c 13) as [-> | N13]; [reflexivity|].
  destruct (N.eqb_spec c 34) as [-> | N34]; [reflexivity|].
  destruct (N.eqb_spec c 92) as [-> | N92]; [reflexivity|].
  destruct (N.ltb_spec c 32) as [L | L].
  - apply parse_string_escape. lia.
  - cbn [app parse_string].
    destruct (N.eqb_spec c 34); [contradiction|].
    destruct (N.eqb_spec c 92); [contradiction|].
    destruct (N.ltb_spec c 32); [lia|]. reflexivity.
Qed.

Lemma parse_string_literal (c : N) (t : jsstring) :
  (55296 <= c)%N ->
  parse_string (c :: t) =
  match parse_string t with
  | Some (s, rest) => Some (c :: s, rest)
  | None => None
  end.
Proof.
  intros H. cbn [parse_string].
  destruct (N.eqb_spec c 34); [lia|].
  destruct (N.eqb_spec c 92); [lia|].
  destruct (N.ltb_spec c 32); [lia|]. reflexivity.
Qed.

Lemma parse_string_quote_len (n : nat) :
  forall s rest, (List.length s <= n)%nat ->
  parse_string (quote_body s ++ 34%N :: rest) = Some (s, rest).
Proof.
  induction n as [|n IH]; intros s rest Hn.
  - destruct s; [reflexivity | simpl in Hn; lia].
  - destruct s as [|c r]; [reflexivity|]. cbn [quote_body].
    destruct (is_high_surrogate c) eqn:Hh.
    + assert (Hc : (55296 <= c)%N).
      { unfold is_high_surrogate in Hh. apply andb_true_iff in Hh as [X _].
        apply N.leb_le in X. exact X. }
      destruct r as [|d r'].
      * rewrite parse_string_escape
          by (apply surrogate_is_unit; left; exact Hh).
        reflexivity.
      * destruct (is_low_surrogate d) eqn:Hd.
        -- assert (Hd' : (55296 <= d)%N).
           { unfold is_low_surrogate in Hd. apply andb_true_iff in Hd as [X _].
             apply N.leb_le in X. lia. }
           cbn [app]. rewrite (parse_string_literal c) by exact Hc.
           rewrite (parse_string_literal d) by exact Hd'.
           rewrite IH by (simpl in Hn; lia). reflexivity.
        -- rewrite <- app_assoc, parse_string_escape
             by (apply surrogate_is_unit; left; exact Hh).
           rewrite IH by (simpl in *; lia). reflexivity.
    + destruct (is_low_surrogate c) eqn:Hl.
      * rewrite <- app_assoc, parse_string_escape
          by (apply surrogate_is_unit; right; exact Hl).
        rewrite IH by (simpl in *; lia). reflexivity.
      * rewrite <- app_assoc, parse_string_unit by assumption.
        rewrite IH by (simpl in *; lia). reflexivity.
Qed.

(** A string survives QuoteJSONString and the reading of a JSON string. *)
Lemma parse_string_quote (s rest : jsstring) :
  parse_string (quote_body s ++ 34%N :: rest) = Some (s, rest).
Proof. apply (parse_string_quote_len (List.length s)). apply le_n. Qed.

(** ** JSON round trip: objects *)

(** The order in which JavaScript lists the keys of an object: the
    array indices first, ascending, then the other keys.  [st] is
    [Some j] while only indices were met, the last being [j]. *)
Fixpoint ordered_from (st : option Z) (ks : list jsstring) : bool :=
  match ks with
  | [] => true
  | k :: r =>
      match array_index k, st with
      | Some i, Some j => (j <? i) && ordered_from (Some i) r
      | Some _, None => false
      | None, _ => ordered_from None r
      end
  end.

Definition ordered_keys (ks : list jsstring) : bool :=
  ordered_from (Some (-1)) ks.

(** An object as [JSON.parse] builds it. *)
Definition object_wf (o : list (jsstring * json)) : Prop :=
  unique_keys o /\ ordered_keys (map fst o) = true.

Lemma ordered_from_app (st : option Z) (a b : list jsstring) :
  ordered_from st (a ++ b) = true -> ordered_from st a = true.
Proof.
  revert st; induction a as [|k a IH]; intros st H; [reflexivity|].
  cbn [app ordered_from] in *.
  destruct (array_index k) as [i|].
  - destruct st as [j|]; [|discriminate].
    apply andb_true_iff in H as [H1 H2]. rewrite H1. exact (IH _ H2).
  - exact (IH _ H).
Qed.

(** Before an index that is in order, all keys are smaller indices. *)
Lemma ordered_before_index (ks : list jsstring) (k : jsstring) (i : Z) :
  forall j, ordered_from (Some j) (ks ++ [k]) = true ->
  array_index k = Some i ->
  j < i /\
  forall k', In k' ks -> exists i', array_index k' = Some i' /\ i' < i.
Proof.
  induction ks as [|k0 ks IH]; intros j H Hk.
  - cbn [app ordered_from] in H. rewrite Hk in H.
    apply andb_true_iff in H as [H _]. apply Z.ltb_lt in H.
    split; [exact H | intros k' []].
  - cbn [app ordered_from] in H.
    destruct (array_index k0) as [i0|] eqn:E0.
    + apply andb_true_iff in H as [H1 H2]. apply Z.ltb_lt in H1.
      destruct (IH i0 H2 Hk) as [L A]. split; [lia|].
      intros k' [<- | Hin]; [exists i0; split; [exact E0 | exact L]|].
      exact (A k' Hin).
    + exfalso. clear IH. revert H. generalize ks.
      induction ks0 as [|k1 ks1 IH1]; cbn [app ordered_from].
      * rewrite Hk. discriminate.
      * destruct (array_index k1); [discriminate | exact IH1].
Qed.

Lemma insert_index_last (i : Z) (k : jsstring) (v : json)
  (o : list (jsstring * json)) :
  (forall k', In k' (map fst o) -> exists i', array_index k' = Some i' /\ i' < i) ->
  insert_index i k v o = o ++ [(k, v)].
Proof.
  induction o as [|[k0 v0] o IH]; intros H; [reflexivity|].
  cbn [insert_index app].
  destruct (H k0 (or_introl eq_refl)) as [i0 [E0 L0]]. rewrite E0.
  destruct (Z.ltb_spec i0 i); [|lia].
  rewrite IH; [reflexivity|]. intros k' Hin. apply H. right. exact Hin.
Qed.

(** On a well-formed object, adding its next property appends it. *)
Lemma obj_set_append (acc : list (jsstring * json)) (k : jsstring) (v : json) :
  object_wf (acc ++ [(k, v)]) -> obj_set acc k v = acc ++ [(k, v)].
Proof.
  intros [U O]. unfold obj_set.
  assert (Hk : has_key k acc = false).
  { apply has_key_lookup. destruct (lookup k acc) as [x|] eqn:L; [|reflexivity].
    apply lookup_Some_In in L. unfold unique_keys in U.
    rewrite map_app in U. apply NoDup_remove_2 in U. exfalso. apply U.
    rewrite app_nil_r. apply (in_map fst) in L. exact L. }
  rewrite Hk. destruct (array_index k) as [i|] eqn:E; [|reflexivity].
  apply insert_index_last. unfold ordered_keys in O.
  rewrite map_app in O. cbn [map fst] in O.
  destruct (ordered_before_index (map fst acc) k i (-1) O E) as [_ A].
  exact A.
Qed.

Lemma object_wf_prefix (a b : list (jsstring * json)) :
  object_wf (a ++ b) -> object_wf a.
Proof.
  intros [U O]. split.
  - unfold unique_keys in *. rewrite map_app in U.
    apply NoDup_app_remove_r in U. exact U.
  - unfold ordered_keys in *. rewrite map_app in O.
    exact (ordered_from_app _ _ _ O).
Qed.

(** ** JSON round trip: the values that survive *)

(** A Number that JSON text carries: finite, and not the negative
    zero, which [JSON.stringify] writes as [0]. *)
Definition number_serializable (x : number) : Prop :=
  valid_double x = true /\
  match x with
  | S754_zero s => s = false
  | S754_finite _ _ _ => True
  | _ => False
  end.

(** A JSON-serializable value: its numbers are serializable and its
    objects are JavaScript objects (each key once, in enumeration
    order). *)
Unset Elimination Schemes.

Inductive serializable : json -> Prop :=
| ser_null : serializable JNull
| ser_bool (b : bool) : serializable (JBool b)
| ser_num (x : number) : number_serializable x -> serializable (JNum x)
| ser_str (s : jsstring) : serializable (JStr s)
| ser_arr (l : list json) : Forall serializable l -> serializable (JArr l)
| ser_obj (o : list (jsstring * json)) :
    object_wf o -> Forall (fun kv => serializable (snd kv)) o ->
    serializable (JObj o).

Set Elimination Schemes.

(** Structural induction on JSON values. *)
Fixpoint json_induction (P : json -> Prop)
  (Hnull : P JNull) (Hbool : forall b, P (JBool b))
  (Hnum : forall x, P (JNum x)) (Hstr : forall s, P (JStr s))
  (Harr : forall l, Forall P l -> P (JArr l))
  (Hobj : forall o, Forall (fun kv => P (snd kv)) o -> P (JObj o))
  (v : json) {struct v} : P v :=
  match v with
  | JNull => Hnull
  | JBool b => Hbool b
  | JNum x => Hnum x
  | JStr s => Hstr s
  | JArr l =>
      Harr l ((fix go (l : list json) : Forall P l :=
                 match l with
                 | [] => Forall_nil P
                 | x :: r =>
                     Forall_cons x
                       (json_induction P Hnull Hbool Hnum Hstr Harr Hobj x)
                       (go r)
                 end) l)
  | JObj o =>
      Hobj o ((fix go (o : list (jsstring * json))
                 : Forall (fun kv => P (snd kv)) o :=
                 match o with
                 | [] => Forall_nil _
                 | kv :: r =>
                     Forall_cons kv
                       (json_induction P Hnull Hbool Hnum Hstr Harr Hobj (snd kv))
                       (go r)
                 end) o)
  end.

(** ** JSON round trip: values *)

(** The elements of an array and the members of an object, as
    [JSON.stringify] writes them between the brackets. *)
Fixpoint stringify_elems (l : list json) : jsstring :=
  match l with
  | [] => []
  | [x] => stringify x
  | x :: r => stringify x ++ [44%N] ++ stringify_elems r
  end.

Fixpoint stringify_members (o : list (jsstring * json)) : jsstring :=
  match o with
  | [] => []
  | [(k, x)] => quote k ++ [58%N] ++ stringify x
  | (k, x) :: r => quote k ++ [58%N] ++ stringify x ++ [44%N] ++ stringify_members r
  end.

Lemma stringify_arr (l : list json) :
  stringify (JArr l) = [91%N] ++ stringify_elems l ++ [93%N].
Proof. reflexivity. Qed.

Lemma stringify_obj (o : list (jsstring * json)) :
  stringify (JObj o) = [123%N] ++ stringify_members o ++ [125%N].
Proof. reflexivity. Qed.

Lemma parse_number_negative (s : jsstring) :
  match s with [] => False | c :: _ => is_digit c = true end ->
  parse_number (45%N :: s) =
  match parse_number s with
  | Some (x, r) => Some (negate x, r)
  | None => None
  end.
Proof.
  destruct s as [|c r]; [contradiction|]. intros D. unfold parse_number.
  cbn [N.eqb Pos.eqb].
  assert (N45 : N.eqb c 45 = false).
  { apply N.eqb_neq. intros ->. discriminate. }
  rewrite N45. destruct (span_digits (c :: r)) as [i s2].
  destruct i as [|c0 t]; [reflexivity|].
  destruct (N.eqb c0 48 && negb match t with [] => true | _ :: _ => false end);
    [reflexivity|].
  destruct (parse_frac s2) as [[f s3]|]; [|reflexivity].
  destruct (parse_exp s3) as [[ex s4]|]; reflexivity.
Qed.

Lemma layout_head (ds : jsstring) (n : Z) :
  match ds with [] => False | c :: _ => is_digit c = true end ->
  match layout ds n with [] => False | c :: _ => is_digit c = true end.
Proof.
  destruct ds as [|c r]; [contradiction|]. intros D. unfold layout.
  destruct ((-5 <=? n) && (n <=? 21)).
  - destruct (Z.of_nat (List.length (c :: r)) <=? n); [exact D|].
    destruct (Z.ltb_spec 0 n); [|reflexivity].
    destruct (Z.to_nat n) eqn:E; [lia | exact D].
  - destruct r; exact D.
Qed.

(** The first character of a printed Number is a digit or a minus
    sign, and the printed Number reads back. *)
Lemma number_round_trip (x : number) (rest : jsstring) :
  number_serializable x -> ends_number rest ->
  parse_number (number_to_string x ++ rest) = Some (x, rest) /\
  match number_to_string x with
  | [] => False
  | c :: _ => is_digit c = true \/ c = 45%N
  end.
Proof.
  intros [V S] R. destruct x as [s | s | | s m e]; try contradiction.
  - subst s. split; [apply parse_number_to_string; auto|]. left. reflexivity.
  - destruct s.
    + assert (V' : valid_double (S754_finite false m e) = true) by exact V.
      pose proof (parse_number_to_string (S754_finite false m e) rest V' eq_refl R)
        as P.
      unfold number_to_string in *.
      destruct (ratio_of m e) as [a b].
      destruct (shortest_sound 17 1 m e (dec_exponent a b) V') as [Pd _].
      destruct (shortest 17 1 m e (dec_exponent a b)) as [d q].
      cbn [fst] in Pd. cbn [app] in *.
      destruct (digits_spec d ltac:(lia)) as [D [_ [NE _]]].
      assert (H : match layout (digits d) (q + Z.of_nat (List.length (digits d))) with
                  | [] => False | c :: _ => is_digit c = true end).
      { apply layout_head. destruct (digits d) as [|c r]; [congruence|].
        simpl in D. apply andb_true_iff in D. tauto. }
      split; [|right; reflexivity].
      rewrite parse_number_negative.
      * rewrite P. reflexivity.
      * destruct (layout (digits d) (q + Z.of_nat (List.length (digits d))));
          [contradiction | exact H].
    + split; [apply parse_number_to_string; auto|].
      unfold number_to_string.
      destruct (ratio_of m e) as [a b].
      destruct (shortest_sound 17 1 m e (dec_exponent a b) V) as [Pd _].
      destruct (shortest 17 1 m e (dec_exponent a b)) as [d q].
      cbn [fst] in Pd. cbn [app].
      destruct (digits_spec d ltac:(lia)) as [D [_ [NE _]]].
      assert (H : match layout (digits d) (q + Z.of_nat (List.length (digits d))) with
                  | [] => False | c :: _ => is_digit c = true end).
      { apply layout_head. destruct (digits d) as [|c r]; [congruence|].
        simpl in D. apply andb_true_iff in D. tauto. }
      destruct (layout (digits d) (q + Z.of_nat (List.length (digits d))));
        [contradiction | left; exact H].
Qed.

Lemma number_head_dispatch (c : N) :
  is_digit c = true \/ c = 45%N ->
  is_ws c = false /\ N.eqb c 110 = false /\ N.eqb c 116 = false /\
  N.eqb c 102 = false /\ N.eqb c 34 = false /\ N.eqb c 91 = false /\
  N.eqb c 123 = false.
Proof.
  intros [D | ->]; [|repeat split; reflexivity].
  unfold is_digit in D. apply andb_true_iff in D as [D1 D2].
  apply N.leb_le in D1, D2. unfold is_ws.
  repeat split;
    repeat (apply orb_false_iff; split); apply N.eqb_neq; lia.
Qed.

Lemma parse_value_number (f : nat) (x : number) (rest : jsstring) :
  number_serializable x -> ends_number rest ->
  parse_value (S f) (number_to_string x ++ rest) = Some (JNum x, rest).
Proof.
  intros S R. destruct (number_round_trip x rest S R) as [P H].
  destruct (number_to_string x) as [|c t]; [contradiction|].
  destruct (number_head_dispatch c H) as [W [E1 [E2 [E3 [E4 [E5 E6]]]]]].
  cbn [app parse_value skip_ws] in *.
  rewrite W, E1, E2, E3, E4, E5, E6, P. reflexivity.
Qed.

(** What the induction carries for a value: it reads back from its text
    with enough fuel, whatever follows it. *)
Definition reads_back (v : json) : Prop :=
  forall fuel rest,
    (List.length (stringify v) <= fuel)%nat -> ends_number rest ->
    parse_value fuel (stringify v ++ rest) = Some (v, rest).

Lemma parse_elements_stringify (l : list json) :
  l <> [] -> Forall reads_back l ->
  forall fuel rest,
    (List.length (stringify_elems l) + 1 <= fuel)%nat ->
    parse_elements fuel (stringify_elems l ++ 93%N :: rest) = Some (l, rest).
Proof.
  induction l as [|x l IH]; [congruence|]. intros _ F fuel rest Hf.
  inversion F as [|? ? Hx Hl]; subst.
  destruct fuel as [|f]; [lia|].
  destruct l as [|y l'].
  - cbn [stringify_elems] in *. cbn [parse_elements].
    rewrite (Hx f (93%N :: rest)) by (simpl; auto; lia).
    reflexivity.
  - change (stringify_elems (x :: y :: l'))
      with (stringify x ++ [44%N] ++ stringify_elems (y :: l')) in *.
    rewrite !length_app in Hf. cbn [List.length] in Hf.
    rewrite <- !app_assoc. cbn [app parse_elements].
    rewrite (Hx f (44%N :: stringify_elems (y :: l') ++ 93%N :: rest))
      by (simpl; auto; lia).
    cbn [skip_ws is_ws N.eqb Pos.eqb orb].
    rewrite (IH ltac:(discriminate) Hl f rest) by lia.
    reflexivity.
Qed.

Lemma parse_members_stringify (o : list (jsstring * json)) :
  o <> [] -> Forall (fun kv => reads_back (snd kv)) o ->
  forall acc fuel rest,
    object_wf (acc ++ o) ->
    (List.length (stringify_members o) + 1 <= fuel)%nat ->
    parse_members fuel (stringify_members o ++ 125%N :: rest) acc
    = Some (acc ++ o, rest).
Proof.
  induction o as [|[k x] o IH]; [congruence|]. intros _ F acc fuel rest W Hf.
  inversion F as [|? ? Hx Ho]; subst. cbn [snd] in Hx.
  destruct fuel as [|f]; [lia|].
  assert (W1 : object_wf (acc ++ [(k, x)])).
  { apply (object_wf_prefix _ o). rewrite <- app_assoc. exact W. }
  destruct o as [|kv o'].
  - cbn [stringify_members] in *. unfold quote in *.
    rewrite !length_app in Hf. cbn [List.length] in Hf.
    rewrite <- !app_assoc. cbn [app parse_members skip_ws is_ws N.eqb Pos.eqb orb].
    rewrite parse_string_quote.
    cbn [skip_ws is_ws N.eqb Pos.eqb orb].
    rewrite (Hx f (125%N :: rest)) by (simpl; auto; lia).
    cbn [skip_ws is_ws N.eqb Pos.eqb orb].
    rewrite (obj_set_append acc k x W1). reflexivity.
  - change (stringify_members ((k, x) :: kv :: o'))
      with (quote k ++ [58%N] ++ stringify x ++ [44%N]
            ++ stringify_members (kv :: o')) in *.
    unfold quote in *.
    rewrite !length_app in Hf. cbn [List.length] in Hf.
    rewrite <- !app_assoc. cbn [app parse_members skip_ws is_ws N.eqb Pos.eqb orb].
    rewrite parse_string_quote.
    cbn [skip_ws is_ws N.eqb Pos.eqb orb].
    rewrite (Hx f (44%N :: stringify_members (kv :: o') ++ 125%N :: rest))
      by (simpl; auto; lia).
    cbn [skip_ws is_ws N.eqb Pos.eqb orb].
    rewrite (obj_set_append acc k x W1).
    rewrite (IH ltac:(discriminate) Ho (acc ++ [(k, x)]) f rest).
    + rewrite <- app_assoc. reflexivity.
    + rewrite <- app_assoc. exact W.
    + lia.
Qed.

(** The text of a serializable value starts with a character that is
    neither white space nor a closing bracket. *)
Lemma stringify_head (v : json) :
  serializable v ->
  exists c t, stringify v = c :: t /\ is_ws c = false /\ N.eqb c 93 = false.
Proof.
  intros S. destruct S as [| b | x NS | s | l Sl | o W So].
  - exists 110%N, (u16 "ull"). repeat split.
  - destruct b; [exists 116%N, (u16 "rue") | exists 102%N, (u16 "alse")];
      repeat split.
  - destruct (number_round_trip x [] NS I) as [_ H].
    assert (E : stringify (JNum x) = number_to_string x).
    { destruct NS as [_ NS]. destruct x; try contradiction; reflexivity. }
    rewrite E. destruct (number_to_string x) as [|c t]; [contradiction|].
    exists c, t. split; [reflexivity|].
    destruct (number_head_dispatch c H) as [Hw _]. split; [exact Hw|].
    destruct H as [D | ->]; [|reflexivity].
    unfold is_digit in D. apply andb_true_iff in D as [_ D].
    apply N.leb_le in D. apply N.eqb_neq. lia.
  - exists 34%N, (quote_body s ++ [34%N]). repeat split.
  - rewrite stringify_arr. exists 91%N, (stringify_elems l ++ [93%N]).
    repeat split.
  - rewrite stringify_obj. exists 123%N, (stringify_members o ++ [125%N]).
    repeat split.
Qed.

(** A serializable value reads back from the text [JSON.stringify]
    writes for it. *)
Lemma parse_value_stringify (v : json) : serializable v -> reads_back v.
Proof.
  induction v as [| b | x | s | l IHl | o IHo] using json_induction;
    intros S fuel rest Hf R.
  - destruct fuel as [|f]; [simpl in Hf; lia | reflexivity].
  - destruct fuel as [|f]; [destruct b; simpl in Hf; lia|].
    destruct b; reflexivity.
  - inversion S as [| | ? NS | | |]; subst.
    destruct (number_round_trip x rest NS R) as [_ H].
    assert (E : stringify (JNum x) = number_to_string x).
    { destruct NS as [_ NS]. destruct x; try contradiction; reflexivity. }
    rewrite E in *.
    destruct fuel as [|f].
    { destruct (number_to_string x); [contradiction | simpl in Hf; lia]. }
    apply parse_value_number; assumption.
  - destruct fuel as [|f]; [simpl in Hf; lia|].
    unfold stringify, quote. rewrite <- !app_assoc.
    cbn [app parse_value skip_ws is_ws N.eqb Pos.eqb orb].
    rewrite parse_string_quote. reflexivity.
  - inversion S as [| | | | ? Sl |]; subst.
    assert (F : Forall reads_back l).
    { rewrite Forall_forall in *. intros y Hy. apply IHl; [exact Hy|].
      apply Sl. exact Hy. }
    rewrite stringify_arr in *. rewrite !length_app in Hf.
    cbn [List.length] in Hf.
    destruct fuel as [|f]; [lia|].
    destruct l as [|y l'].
    + reflexivity.
    + rewrite <- !app_assoc.
      assert (Sy : serializable y) by (inversion Sl; assumption).
      pose proof (parse_elements_stringify (y :: l') ltac:(discriminate) F f rest
                    ltac:(lia)) as P.
      cbn [app parse_value skip_ws is_ws N.eqb Pos.eqb orb].
      destruct (stringify_head y Sy) as (c & t & E & Hw & Hc).
      assert (E' : exists t', stringify_elems (y :: l') = c :: t').
      { destruct l'; cbn [stringify_elems]; rewrite E; eexists; reflexivity. }
      destruct E' as [t' E']. rewrite E' in *.
      cbn [app skip_ws]. rewrite Hw, Hc. cbn [app] in P. rewrite P.
      reflexivity.
  - inversion S as [| | | | | ? W So]; subst.
    assert (F : Forall (fun kv => reads_back (snd kv)) o).
    { rewrite Forall_forall in *. intros kv Hkv. apply IHo; [exact Hkv|].
      apply So. exact Hkv. }
    rewrite stringify_obj in *. rewrite !length_app in Hf.
    cbn [List.length] in Hf.
    destruct fuel as [|f]; [lia|].
    destruct o as [|[k x] o'].
    + reflexivity.
    + rewrite <- !app_assoc.
      pose proof (parse_members_stringify ((k, x) :: o') ltac:(discriminate) F
                    [] f rest W ltac:(lia)) as P.
      cbn [app parse_value skip_ws is_ws N.eqb Pos.eqb orb].
      assert (E' : exists t', stringify_members ((k, x) :: o') = 34%N :: t').
      { destruct o'; cbn [stringify_members]; unfold quote; cbn [app];
          eexists; reflexivity. }
      destruct E' as [t' E']. rewrite E' in *.
      cbn [app skip_ws is_ws N.eqb Pos.eqb orb]. cbn [app] in P. rewrite P.
      reflexivity.
Qed.

(** [JSON.parse] undoes [JSON.stringify] on serializable values. *)
Lemma parse_stringify (v : json) :
  serializable v -> parse (stringify v) = Some v.
Proof.
  intros Sv. unfold parse.
  pose proof (parse_value_stringify v Sv (S (List.length (stringify v))) []
                (Nat.le_succ_diag_r _) I) as P.
  rewrite app_nil_r in P. rewrite P. reflexivity.
Qed.

Local Close Scope Z_scope.

(** ** JSON text is stored as it is *)

(** A string of ASCII characters. *)
Definition plain (s : jsstring) : Prop := Forall (fun c => (c < 128)%N) s.

Lemma plain_app (a b : jsstring) : plain a -> plain b -> plain (a ++ b).
Proof. intros A B. apply Forall_app. split; assumption. Qed.

Lemma plain_well_formed (s : jsstring) : plain s -> well_formed s = true.
Proof.
  induction 1 as [|c s Hc Hs IH]; [reflexivity|].
  destruct (small_not_surrogate c) as [Hh Hl]; [lia|].
  rewrite (well_formed_cons c s Hh Hl). exact IH.
Qed.

Lemma digits_aux_plain (fuel : nat) :
  forall n acc, plain acc -> plain (digits_aux fuel n acc).
Proof.
  induction fuel as [|f IH]; intros n acc A; cbn [digits_aux]; [exact A|].
  assert (C : plain (Z.to_N (48 + n mod 10) :: acc)).
  { constructor; [|exact A].
    pose proof (Z.mod_pos_bound n 10 ltac:(lia)). lia. }
  destruct (n / 10 =? 0)%Z; [exact C | apply IH; exact C].
Qed.

Lemma digits_plain (n : Z) : plain (digits n).
Proof. unfold digits. apply digits_aux_plain. constructor. Qed.

Lemma zeros_plain (n : Z) : plain (zeros n).
Proof.
  unfold zeros. induction (Z.to_nat n) as [|k IH]; cbn [List.repeat];
    constructor; [lia | exact IH].
Qed.

Lemma plain_firstn (n : nat) (s : jsstring) : plain s -> plain (firstn n s).
Proof.
  intros H. apply Forall_forall. intros c Hc.
  unfold plain in H. rewrite Forall_forall in H. apply H.
  rewrite <- (firstn_skipn n s). apply in_or_app. left. exact Hc.
Qed.

Lemma plain_skipn (n : nat) (s : jsstring) : plain s -> plain (skipn n s).
Proof.
  intros H. apply Forall_forall. intros c Hc.
  unfold plain in H. rewrite Forall_forall in H. apply H.
  rewrite <- (firstn_skipn n s). apply in_or_app. right. exact Hc.
Qed.

Ltac plain_pieces :=
  repeat first
    [ apply plain_app
    | apply digits_plain
    | apply zeros_plain
    | apply plain_firstn
    | apply plain_skipn
    | assumption
    | apply Forall_cons; [lia|]
    | apply Forall_nil ].

Lemma layout_plain (ds : jsstring) (n : Z) : plain ds -> plain (layout ds n).
Proof.
  intros D. unfold layout.
  destruct ((-5 <=? n)%Z && (n <=? 21)%Z).
  - destruct (Z.of_nat (List.length ds) <=? n)%Z; [plain_pieces|].
    destruct (0 <? n)%Z; plain_pieces.
  - assert (M : plain match ds with
                      | [] => []
                      | [d] => [d]
                      | d :: (_ :: _) as rest => d :: 46%N :: rest
                      end).
    { destruct ds as [|d [|d' r]]; [constructor | exact D|].
      inversion D; subst. constructor; [assumption|].
      constructor; [lia | assumption]. }
    apply plain_app; [exact M|]. apply plain_app; [|apply digits_plain].
    destruct (n - 1 <? 0)%Z; repeat (constructor; [lia|]); constructor.
Qed.

Lemma u16_plain_NaN : plain (u16 "NaN").
Proof. vm_compute. repeat (constructor; [reflexivity|]). constructor. Qed.

Lemma u16_plain_Infinity : plain (u16 "Infinity").
Proof. vm_compute. repeat (constructor; [reflexivity|]). constructor. Qed.

Lemma number_to_string_plain (x : number) : plain (number_to_string x).
Proof.
  destruct x as [s | s | | s m e]; cbn [number_to_string].
  - vm_compute. repeat (constructor; [reflexivity|]). constructor.
  - apply plain_app; [|exact u16_plain_Infinity].
    destruct s; repeat (constructor; [lia|]); constructor.
  - exact u16_plain_NaN.
  - destruct (ratio_of m e) as [a b].
    destruct (shortest 17 1 m e (dec_exponent a b)) as [d q].
    apply plain_app; [destruct s; repeat (constructor; [lia|]); constructor|].
    apply layout_plain, digits_plain.
Qed.

Lemma well_formed_unit (c : N) : (c < 128)%N -> well_formed [c] = true.
Proof. intros H. apply plain_well_formed. constructor; [exact H | constructor]. Qed.

(** [JSON.stringify] writes no unpaired surrogate. *)
Lemma stringify_well_formed (v : json) : well_formed (stringify v) = true.
Proof.
  induction v as [| b | x | s | l IH | o IH] using json_induction.
  - reflexivity.
  - destruct b; reflexivity.
  - cbn [stringify].
    destruct x; try reflexivity; apply plain_well_formed, number_to_string_plain.
  - apply quote_well_formed.
  - rewrite stringify_arr.
    apply well_formed_app; [reflexivity|]. apply well_formed_app; [|reflexivity].
    induction IH as [|x l Hx Hl IHl]; [reflexivity|].
    destruct l as [|y l']; [exact Hx|].
    change (stringify_elems (x :: y :: l'))
      with (stringify x ++ [44%N] ++ stringify_elems (y :: l')).
    apply well_formed_app; [exact Hx|].
    apply well_formed_app; [reflexivity | exact IHl].
  - rewrite stringify_obj.
    apply well_formed_app; [reflexivity|]. apply well_formed_app; [|reflexivity].
    induction IH as [|[k x] o Hx Ho IHo]; [reflexivity|]. cbn [snd] in Hx.
    destruct o as [|kv o'].
    + cbn [stringify_members].
      apply well_formed_app; [apply quote_well_formed|].
      apply well_formed_app; [reflexivity | exact Hx].
    + change (stringify_members ((k, x) :: kv :: o'))
        with (quote k ++ [58%N] ++ stringify x ++ [44%N]
              ++ stringify_members (kv :: o')).
      apply well_formed_app; [apply quote_well_formed|].
      apply well_formed_app; [reflexivity|].
      apply well_formed_app; [exact Hx|].
      apply well_formed_app; [reflexivity | exact IHo].
Qed.

(** A string without unpaired surrogates is read back as it was
    written. *)
Lemma read_text_well_formed_len (n : nat) :
  forall s, (List.length s <= n)%nat -> well_formed s = true -> read_text s = s.
Proof.
  induction n as [|n IH]; intros s Hn W.
  - destruct s; [reflexivity | simpl in Hn; lia].
  - destruct s as [|c r]; [reflexivity|].
    cbn [well_formed read_text] in *.
    destruct (is_high_surrogate c).
    + destruct r as [|d r']; [discriminate|].
      apply andb_true_iff in W as [Hd W]. rewrite Hd.
      rewrite (IH r'); [reflexivity | simpl in Hn; lia | exact W].
    + destruct (is_low_surrogate c); [discriminate|].
      rewrite (IH r); [reflexivity | simpl in Hn; lia | exact W].
Qed.

Lemma read_text_well_formed (s : jsstring) :
  well_formed s = true -> read_text s = s.
Proof. apply (read_text_well_formed_len (List.length s)). apply le_n. Qed.

Lemma read_text_stringify (v : json) : read_text (stringify v) = stringify v.
Proof. apply read_text_well_formed, stringify_well_formed. Qed.

(** ** JSON round trip: any parsed value *)

(** What [JSON.stringify] keeps of a Number: the negative zero is
    written [0], a Number that is not finite is written [null]. *)
Definition canon_number (x : number) : json :=
  match x with
  | S754_zero _ => JNum (S754_zero false)
  | S754_finite _ _ _ => JNum x
  | _ => JNull
  end.

(** The value that the text of [v] denotes. *)
Fixpoint canon (v : json) : json :=
  match v with
  | JNum x => canon_number x
  | JArr l => JArr (map canon l)
  | JObj o =>
      JObj ((fix members (o : list (jsstring * json)) : list (jsstring * json) :=
               match o with
               | [] => []
               | (k, x) :: r => (k, canon x) :: members r
               end) o)
  | _ => v
  end.

Definition canon_members (o : list (jsstring * json)) : list (jsstring * json) :=
  map (fun kv => (fst kv, canon (snd kv))) o.

Lemma canon_obj (o : list (jsstring * json)) :
  canon (JObj o) = JObj (canon_members o).
Proof.
  cbn [canon]. f_equal. unfold canon_members.
  induction o as [|[k x] o IH]; [reflexivity|]. cbn [map fst snd].
  rewrite <- IH. reflexivity.
Qed.

Lemma canon_members_keys (o : list (jsstring * json)) :
  map fst (canon_members o) = map fst o.
Proof.
  unfold canon_members. rewrite map_map. reflexivity.
Qed.

Lemma canon_members_lookup (k : jsstring) (o : list (jsstring * json)) :
  lookup k (canon_members o) = option_map canon (lookup k o).
Proof.
  induction o as [|[k0 x0] o IH]; [reflexivity|].
  cbn [canon_members map fst snd lookup]. fold (canon_members o).
  destruct (JsString.eqb k k0); [reflexivity | exact IH].
Qed.

(** A value as [JSON.parse] builds it: its Numbers are binary64 values
    and its objects are JavaScript objects. *)
Unset Elimination Schemes.

Inductive json_wf : json -> Prop :=
| wf_null : json_wf JNull
| wf_bool (b : bool) : json_wf (JBool b)
| wf_num (x : number) : valid_double x = true -> json_wf (JNum x)
| wf_str (s : jsstring) : json_wf (JStr s)
| wf_arr (l : list json) : Forall json_wf l -> json_wf (JArr l)
| wf_obj (o : list (jsstring * json)) :
    object_wf o -> Forall (fun kv => json_wf (snd kv)) o ->
    json_wf (JObj o).

Set Elimination Schemes.

Lemma serializable_wf (v : json) : serializable v -> json_wf v.
Proof.
  induction v as [| b | x | s | l IH | o IH] using json_induction; intros S;
    inversion S; subst.
  - constructor.
  - constructor.
  - constructor. match goal with H : number_serializable _ |- _ => exact (proj1 H) end.
  - constructor.
  - constructor. rewrite Forall_forall in *. intros y Hy. apply IH; auto.
  - constructor; [assumption|]. rewrite Forall_forall in *.
    intros kv Hkv. apply IH; auto.
Qed.

Lemma stringify_canon (v : json) : stringify (canon v) = stringify v.
Proof.
  induction v as [| b | x | s | l IH | o IH] using json_induction;
    try reflexivity.
  - destruct x; reflexivity.
  - cbn [canon]. rewrite !stringify_arr. do 2 f_equal.
    induction IH as [|x l Hx Hl IHl]; [reflexivity|].
    destruct l as [|y l']; [exact Hx|].
    cbn [map] in *.
    change (stringify_elems (canon x :: canon y :: map canon l'))
      with (stringify (canon x) ++ [44%N]
            ++ stringify_elems (canon y :: map canon l')).
    change (stringify_elems (x :: y :: l'))
      with (stringify x ++ [44%N] ++ stringify_elems (y :: l')).
    rewrite Hx, IHl. reflexivity.
  - rewrite canon_obj, !stringify_obj. do 2 f_equal. unfold canon_members.
    induction IH as [|[k x] o Hx Ho IHo]; [reflexivity|]. cbn [snd] in Hx.
    destruct o as [|[k' x'] o'].
    + cbn [map fst snd stringify_members]. rewrite Hx. reflexivity.
    + cbn [map fst snd] in *.
      change (stringify_members
                ((k, canon x) :: (k', canon x')
                 :: map (fun kv => (fst kv, canon (snd kv))) o'))
        with (quote k ++ [58%N] ++ stringify (canon x) ++ [44%N]
              ++ stringify_members
                   ((k', canon x')
                    :: map (fun kv => (fst kv, canon (snd kv))) o')).
      change (stringify_members ((k, x) :: (k', x') :: o'))
        with (quote k ++ [58%N] ++ stringify x ++ [44%N]
              ++ stringify_members ((k', x') :: o')).
      rewrite Hx, IHo. reflexivity.
Qed.

Lemma canon_serializable (v : json) : json_wf v -> serializable (canon v).
Proof.
  induction v as [| b | x | s | l IH | o IH] using json_induction; intros W;
    inversion W; subst.
  - constructor.
  - constructor.
  - destruct x; cbn [canon canon_number]; constructor; split;
      first [reflexivity | assumption | exact I].
  - constructor.
  - cbn [canon]. constructor. apply Forall_forall. intros y Hy.
    apply in_map_iff in Hy as [x [<- Hx]]. rewrite Forall_forall in *.
    apply IH; auto.
  - rewrite canon_obj. constructor.
    + match goal with H : object_wf o |- _ => destruct H as [U O] end.
      split; [unfold unique_keys|]; rewrite canon_members_keys; assumption.
    + apply Forall_forall. intros kv Hkv. unfold canon_members in Hkv.
      apply in_map_iff in Hkv as [kx [<- Hx]]. cbn [snd].
      rewrite Forall_forall in *. apply IH; auto.
Qed.

Lemma canon_fixed (v : json) : serializable v -> canon v = v.
Proof.
  induction v as [| b | x | s | l IH | o IH] using json_induction; intros S;
    inversion S; subst; try reflexivity.
  - match goal with H : number_serializable _ |- _ => destruct H as [_ H] end.
    destruct x; try contradiction; [subst|]; reflexivity.
  - cbn [canon]. f_equal. rewrite <- (map_id l) at 2. apply map_ext_in.
    intros y Hy. rewrite Forall_forall in *. apply IH; auto.
  - rewrite canon_obj. f_equal. unfold canon_members.
    rewrite <- (map_id o) at 2. apply map_ext_in. intros [k x] Hkx.
    cbn [fst snd]. f_equal. rewrite Forall_forall in *.
    apply (IH (k, x)); [assumption|].
    match goal with H : forall _, In _ o -> serializable _ |- _ =>
      exact (H (k, x) Hkx) end.
Qed.

(** [JSON.parse] of the text [JSON.stringify] writes for a value gives
    the value the text denotes. *)
Lemma parse_stringify_canon (v : json) :
  json_wf v -> parse (stringify v) = Some (canon v).
Proof.
  intros W. rewrite <- (stringify_canon v).
  apply parse_stringify, canon_serializable, W.
Qed.

(** ** Objects stay JavaScript objects *)

Local Open Scope Z_scope.

Lemma digits_value_cons (c : N) (r : jsstring) :
  digits_value (c :: r)
  = (Z.of_N c - 48) * 10 ^ Z.of_nat (List.length r) + digits_value r.
Proof.
  change (c :: r) with ([c] ++ r). rewrite digits_value_app.
  unfold digits_value at 1. cbn [fold_left]. ring.
Qed.

Lemma digits_value_bounds (ds : jsstring) :
  forallb is_digit ds = true ->
  0 <= digits_value ds < 10 ^ Z.of_nat (List.length ds).
Proof.
  induction ds as [|c r IH]; intros D.
  - unfold digits_value. cbn. lia.
  - cbn [forallb] in D. apply andb_true_iff in D as [Dc Dr].
    specialize (IH Dr). rewrite digits_value_cons.
    unfold is_digit in Dc. apply andb_true_iff in Dc as [C1 C2].
    apply N.leb_le in C1, C2. cbn [List.length].
    rewrite Nat2Z.inj_succ, Z.pow_succ_r by lia.
    assert (P : 0 < 10 ^ Z.of_nat (List.length r)) by (apply Z.pow_pos_nonneg; lia).
    nia.
Qed.

Lemma digits_value_inj (a : jsstring) :
  forall b, List.length a = List.length b ->
  forallb is_digit a = true -> forallb is_digit b = true ->
  digits_value a = digits_value b -> a = b.
Proof.
  induction a as [|c r IH]; intros [|c' r'] L Da Db E; try discriminate;
    [reflexivity|].
  cbn [List.length] in L. injection L as L.
  cbn [forallb] in Da, Db.
  apply andb_true_iff in Da as [Dc Dr]. apply andb_true_iff in Db as [Dc' Dr'].
  rewrite !digits_value_cons, <- L in E.
  pose proof (digits_value_bounds r Dr) as Br.
  pose proof (digits_value_bounds r' Dr') as Br'. rewrite <- L in Br'.
  assert (P : 0 < 10 ^ Z.of_nat (List.length r)) by (apply Z.pow_pos_nonneg; lia).
  assert (Ec : Z.of_N c - 48 = Z.of_N c' - 48) by nia.
  assert (Er : digits_value r = digits_value r') by nia.
  f_equal; [lia | exact (IH r' L Dr Dr' Er)].
Qed.

(** The shape of an array index. *)
Lemma array_index_shape (k : jsstring) (i : Z) :
  array_index k = Some i ->
  forallb is_digit k = true /\ digits_value k = i /\
  (k = [48%N] \/ 10 ^ (Z.of_nat (List.length k) - 1) <= i).
Proof.
  unfold array_index. destruct k as [|c r]; [discriminate|].
  destruct (forallb is_digit (c :: r)) eqn:D; cbn [andb]; [|discriminate].
  destruct (List.length (c :: r) <=? 10)%nat; cbn [andb]; [|discriminate].
  destruct (negb (N.eqb c 48) || match r with [] => true | _ => false end) eqn:C;
    [|discriminate].
  destruct (digits_value (c :: r) <=? 4294967294); [|discriminate].
  intros E; inversion E; subst i. split; [reflexivity|]. split; [reflexivity|].
  cbn [forallb] in D. apply andb_true_iff in D as [Dc Dr].
  pose proof (digits_value_bounds r Dr) as Br.
  unfold is_digit in Dc. apply andb_true_iff in Dc as [C1 C2].
  apply N.leb_le in C1, C2.
  rewrite digits_value_cons. cbn [List.length].
  replace (Z.of_nat (S (List.length r)) - 1) with (Z.of_nat (List.length r)) by lia.
  assert (P : 0 < 10 ^ Z.of_nat (List.length r)) by (apply Z.pow_pos_nonneg; lia).
  apply orb_true_iff in C as [C | C].
  - apply negb_true_iff, N.eqb_neq in C. right. nia.
  - destruct r; [|discriminate]. destruct (N.eq_dec c 48) as [-> | N];
      [left; reflexivity|]. right. cbn [List.length] in *. cbn in *. lia.
Qed.

(** An index has one spelling. *)
Lemma array_index_inj (a b : jsstring) (i : Z) :
  array_index a = Some i -> array_index b = Some i -> a = b.
Proof.
  intros A B.
  destruct (array_index_shape a i A) as (Da & Va & Sa).
  destruct (array_index_shape b i B) as (Db & Vb & Sb).
  pose proof (digits_value_bounds a Da) as Ba.
  pose proof (digits_value_bounds b Db) as Bb.
  assert (L : List.length a = List.length b).
  { destruct Sa as [-> | Sa]; destruct Sb as [-> | Sb]; [reflexivity | | |].
    - unfold digits_value in Va. cbn in Va. subst i.
      assert (0 < 10 ^ (Z.of_nat (List.length b) - 1)); [|lia].
      destruct b; [discriminate|]. apply Z.pow_pos_nonneg; cbn [List.length]; lia.
    - unfold digits_value in Vb. cbn in Vb. subst i.
      assert (0 < 10 ^ (Z.of_nat (List.length a) - 1)); [|lia].
      destruct a; [discriminate|]. apply Z.pow_pos_nonneg; cbn [List.length]; lia.
    - destruct (Nat.lt_trichotomy (List.length a) (List.length b)) as [H | [H | H]];
        [|exact H|]; exfalso.
      + assert (10 ^ Z.of_nat (List.length a) <= 10 ^ (Z.of_nat (List.length b) - 1))
          by (apply Z.pow_le_mono_r; lia). lia.
      + assert (10 ^ Z.of_nat (List.length b) <= 10 ^ (Z.of_nat (List.length a) - 1))
          by (apply Z.pow_le_mono_r; lia). lia. }
  apply digits_value_inj; try assumption. congruence.
Qed.

Lemma ordered_from_none (ks : list jsstring) :
  ordered_from None ks = true ->
  (forall k, In k ks -> array_index k = None) /\
  forall st, ordered_from st ks = true.
Proof.
  induction ks as [|k ks IH]; intros H.
  - split; [intros k [] | reflexivity].
  - cbn [ordered_from] in H. destruct (array_index k) eqn:E; [discriminate|].
    destruct (IH H) as [A B]. split.
    + intros k' [<- | Hk]; [exact E | exact (A k' Hk)].
    + intros st. cbn [ordered_from]. rewrite E. exact H.
Qed.

Lemma ordered_from_snoc (st : option Z) (ks : list jsstring) (k : jsstring) :
  ordered_from st ks = true -> array_index k = None ->
  ordered_from st (ks ++ [k]) = true.
Proof.
  revert st; induction ks as [|k0 ks IH]; intros st H E; cbn [app ordered_from].
  - rewrite E. reflexivity.
  - cbn [ordered_from] in H. destruct (array_index k0) as [i|].
    + destruct st as [j|]; [|discriminate].
      apply andb_true_iff in H as [H1 H2]. rewrite H1. exact (IH _ H2 E).
    + exact (IH _ H E).
Qed.

Lemma ordered_from_insert (i : Z) (k : jsstring) (v : json)
  (o : list (jsstring * json)) :
  array_index k = Some i -> has_key k o = false ->
  forall j, j < i ->
  ordered_from (Some j) (map fst o) = true ->
  ordered_from (Some j) (map fst (insert_index i k v o)) = true.
Proof.
  intros Ek. induction o as [|[k0 v0] o IH]; intros Hk j Hj H.
  - cbn [insert_index map fst ordered_from]. rewrite Ek.
    apply andb_true_iff. split; [apply Z.ltb_lt; exact Hj | reflexivity].
  - cbn [has_key] in Hk. apply orb_false_elim in Hk as [Hk0 Hk].
    cbn [insert_index map fst ordered_from] in *.
    destruct (array_index k0) as [j0|] eqn:E0.
    + apply andb_true_iff in H as [H1 H2]. apply Z.ltb_lt in H1.
      destruct (Z.ltb_spec j0 i) as [L | L]; cbn [map fst ordered_from].
      * rewrite E0. apply andb_true_iff. split; [apply Z.ltb_lt; exact H1|].
        exact (IH Hk j0 L H2).
      * rewrite Ek, E0. apply andb_true_iff. split; [apply Z.ltb_lt; exact Hj|].
        apply andb_true_iff. split; [|exact H2]. apply Z.ltb_lt.
        assert (j0 <> i); [|lia]. intros ->.
        rewrite (array_index_inj k k0 i Ek E0), eqb_refl in Hk0. discriminate.
    + cbn [map fst ordered_from]. rewrite Ek, E0.
      apply andb_true_iff. split; [apply Z.ltb_lt; exact Hj | exact H].
Qed.

Lemma array_index_nonneg (k : jsstring) (i : Z) : array_index k = Some i -> 0 <= i.
Proof.
  intros H. destruct (array_index_shape k i H) as (D & V & _).
  pose proof (digits_value_bounds k D). lia.
Qed.

Local Close Scope Z_scope.

Lemma update_keys (k : jsstring) (v : json) (o : list (jsstring * json)) :
  map fst (update k v o) = map fst o.
Proof.
  induction o as [|[k0 v0] o IH]; [reflexivity|]. cbn [update].
  destruct (JsString.eqb k k0); cbn [map fst]; [|rewrite IH]; reflexivity.
Qed.

Lemma insert_index_perm (i : Z) (k : jsstring) (v : json)
  (o : list (jsstring * json)) :
  Permutation (insert_index i k v o) ((k, v) :: o).
Proof.
  induction o as [|[k0 v0] o IH]; cbn [insert_index]; [apply Permutation_refl|].
  destruct (array_index k0) as [j|]; [destruct (j <? i)%Z|];
    try apply Permutation_refl.
  apply perm_trans with ((k0, v0) :: (k, v) :: o);
    [apply perm_skip, IH | apply perm_swap].
Qed.

Lemma has_key_In (k : jsstring) (o : list (jsstring * json)) :
  has_key k o = true <-> In k (map fst o).
Proof.
  induction o as [|[k0 v0] o IH]; cbn [has_key map fst In].
  - split; [discriminate | intros []].
  - rewrite orb_true_iff, IH, eqb_eq. split; intros [H | H]; auto.
Qed.

Lemma has_key_keys (k : jsstring) (a b : list (jsstring * json)) :
  map fst a = map fst b -> has_key k a = has_key k b.
Proof.
  intros E. destruct (has_key k b) eqn:B.
  - apply has_key_In. rewrite E. apply has_key_In. exact B.
  - destruct (has_key k a) eqn:A; [|reflexivity].
    apply has_key_In in A. rewrite E in A. apply has_key_In in A. congruence.
Qed.

(** Setting a property keeps every key once. *)
Lemma unique_keys_obj_set (o : list (jsstring * json)) (k : jsstring) (v : json) :
  unique_keys o -> unique_keys (obj_set o k v).
Proof.
  unfold unique_keys, obj_set. intros U.
  destruct (has_key k o) eqn:H; [rewrite update_keys; exact U|].
  assert (N : ~ In k (map fst o)).
  { intros I. apply has_key_In in I. congruence. }
  assert (C : NoDup (map fst ((k, v) :: o))) by (constructor; assumption).
  destruct (array_index k) as [i|].
  - exact (Permutation_NoDup
             (Permutation_sym (Permutation_map fst (insert_index_perm i k v o))) C).
  - exact (Permutation_NoDup
             (Permutation_map fst (Permutation_cons_append o (k, v))) C).
Qed.

(** Setting a property of a JavaScript object gives a JavaScript
    object: a new index goes to its place among the indices. *)
Lemma object_wf_obj_set (o : list (jsstring * json)) (k : jsstring) (v : json) :
  object_wf o -> object_wf (obj_set o k v).
Proof.
  intros [U O]. split; [apply unique_keys_obj_set; exact U|].
  unfold ordered_keys, obj_set in *.
  destruct (has_key k o) eqn:H; [rewrite update_keys; exact O|].
  destruct (array_index k) as [i|] eqn:E.
  - apply ordered_from_insert; try assumption.
    pose proof (array_index_nonneg k i E). lia.
  - rewrite map_app. apply ordered_from_snoc; assumption.
Qed.

Lemma obj_delete_keys (k k' : jsstring) (o : list (jsstring * json)) :
  In k' (map fst (obj_delete k o)) -> In k' (map fst o).
Proof.
  induction o as [|[k0 v0] o IH]; [intros []|]. cbn [obj_delete].
  destruct (JsString.eqb k k0); cbn [map fst In].
  - intros H. right. exact (IH H).
  - intros [H | H]; [left; exact H | right; exact (IH H)].
Qed.

Lemma ordered_from_weaken (ks : list jsstring) (j j' : Z) :
  (j <= j')%Z -> ordered_from (Some j') ks = true ->
  ordered_from (Some j) ks = true.
Proof.
  intros L. destruct ks as [|k ks]; [reflexivity|]. cbn [ordered_from].
  destruct (array_index k) as [i|]; [|auto].
  intros H. apply andb_true_iff in H as [H1 H2]. apply Z.ltb_lt in H1.
  apply andb_true_iff. split; [apply Z.ltb_lt; lia | exact H2].
Qed.

Lemma object_wf_obj_delete (k : jsstring) (o : list (jsstring * json)) :
  object_wf o -> object_wf (obj_delete k o).
Proof.
  intros [U O]. split.
  - unfold unique_keys in *. clear O.
    induction o as [|[k0 v0] o IH]; [constructor|].
    cbn [map fst] in U. inversion U as [|? ? N U']; subst. cbn [obj_delete].
    destruct (JsString.eqb k k0); [exact (IH U')|].
    cbn [map fst]. constructor; [|exact (IH U')].
    intros H. apply N. exact (obj_delete_keys k k0 o H).
  - unfold ordered_keys in *. clear U. revert O. generalize (Some (-1)%Z).
    induction o as [|[k0 v0] o IH]; intros st O; [reflexivity|].
    cbn [map fst ordered_from obj_delete] in *.
    destruct (JsString.eqb k k0).
    + destruct (array_index k0) as [i|].
      * destruct st as [j|]; [|discriminate].
        apply andb_true_iff in O as [O1 O2]. apply Z.ltb_lt in O1.
        apply (ordered_from_weaken _ j i); [lia|]. exact (IH _ O2).
      * apply (proj2 (ordered_from_none _ (IH _ O))).
    + cbn [map fst ordered_from]. destruct (array_index k0) as [i|].
      * destruct st as [j|]; [|discriminate].
        apply andb_true_iff in O as [O1 O2]. rewrite O1. exact (IH _ O2).
      * exact (IH _ O).
Qed.

Lemma object_wf_assign (o : list (jsstring * json)) (k : jsstring)
  (v : option json) :
  object_wf o -> object_wf (assign o k v).
Proof.
  intros W. unfold assign. destruct (JsString.eqb k (u16 "__proto__")); [exact W|].
  destruct v; [apply object_wf_obj_set | apply object_wf_obj_delete]; exact W.
Qed.

Lemma object_wf_spread (o : list (jsstring * json)) (v : json) :
  object_wf o -> object_wf (spread o v).
Proof.
  unfold spread. revert o. induction (entries v) as [|kv l IH]; intros o W;
    cbn [fold_left]; [exact W|].
  apply IH, object_wf_obj_set, W.
Qed.

(** The values of an object after its properties are set. *)
Definition values (P : json -> Prop) (o : list (jsstring * json)) : Prop :=
  Forall (fun kv => P (snd kv)) o.

Lemma values_update (P : json -> Prop) (k : jsstring) (v : json)
  (o : list (jsstring * json)) :
  P v -> values P o -> values P (update k v o).
Proof.
  intros Pv. induction 1 as [|[k0 v0] o H0 Ho IH]; [constructor|].
  cbn [update]. destruct (JsString.eqb k k0); constructor; assumption.
Qed.

Lemma values_obj_set (P : json -> Prop) (o : list (jsstring * json))
  (k : jsstring) (v : json) :
  P v -> values P o -> values P (obj_set o k v).
Proof.
  intros Pv Po. unfold obj_set. destruct (has_key k o);
    [apply values_update; assumption|].
  assert (C : values P ((k, v) :: o)) by (constructor; assumption).
  destruct (array_index k) as [i|].
  - exact (Permutation_Forall (Permutation_sym (insert_index_perm i k v o)) C).
  - apply Forall_app. split; [exact Po | constructor; [exact Pv | constructor]].
Qed.

Lemma values_obj_delete (P : json -> Prop) (k : jsstring)
  (o : list (jsstring * json)) :
  values P o -> values P (obj_delete k o).
Proof.
  induction 1 as [|[k0 v0] o H0 Ho IH]; [constructor|]. cbn [obj_delete].
  destruct (JsString.eqb k k0); [exact IH | constructor; assumption].
Qed.

Lemma values_assign (P : json -> Prop) (o : list (jsstring * json))
  (k : jsstring) (v : option json) :
  (forall x, v = Some x -> P x) -> values P o -> values P (assign o k v).
Proof.
  intros Pv Po. unfold assign.
  destruct (JsString.eqb k (u16 "__proto__")); [exact Po|].
  destruct v as [x|]; [apply values_obj_set; auto | apply values_obj_delete; exact Po].
Qed.

Lemma values_lookup (P : json -> Prop) (o : list (jsstring * json))
  (k : jsstring) (x : json) :
  values P o -> lookup k o = Some x -> P x.
Proof.
  intros V L. apply lookup_Some_In in L. unfold values in V.
  rewrite Forall_forall in V. exact (V (k, x) L).
Qed.

Lemma indexed_values (P : json -> Prop) (l : list json) :
  Forall P l -> forall i, values P (indexed i l).
Proof.
  induction 1 as [|x l Hx Hl IH]; intros i; cbn [indexed]; constructor;
    [exact Hx | apply IH].
Qed.

Lemma entries_wf (v : json) : json_wf v -> values json_wf (entries v).
Proof.
  intros W. destruct W as [| b | x Hx | s | l Hl | o Ho Hv]; cbn [entries];
    try constructor.
  - apply indexed_values. apply Forall_forall. intros y Hy.
    apply in_map_iff in Hy as [c [<- _]]. constructor.
  - apply indexed_values. exact Hl.
  - exact Hv.
Qed.

Lemma values_spread (P : json -> Prop) (o : list (jsstring * json)) (v : json) :
  values P (entries v) -> values P o -> values P (spread o v).
Proof.
  unfold spread. revert o. induction (entries v) as [|kv l IH]; intros o Hl Ho;
    cbn [fold_left]; [exact Ho|].
  inversion Hl; subst. apply IH; [assumption|].
  apply values_obj_set; assumption.
Qed.

(** ** Numbers: every value read is a binary64 value *)

Local Open Scope Z_scope.

(** The mantissa and exponent that [round_ratio] builds. *)
Lemma finite_valid (m e : Z) (s : bool) :
  0 < m -> -1074 <= e <= 971 ->
  (m < 2 ^ 53) -> (e = -1074 \/ 2 ^ 52 <= m) ->
  valid_double (S754_finite s (Z.to_pos m) e) = true.
Proof.
  intros M E U L. unfold valid_double, valid_binary, bounded, canonical_mantissa.
  apply andb_true_iff. split; [|apply Z.leb_le; lia].
  apply Z.eqb_eq. rewrite digits2_log2, Z2Pos.id by exact M.
  unfold fexp, emin.
  assert (Hlog : Z.log2 m < 53) by (apply Z.log2_lt_pow2; lia).
  destruct L as [-> | L]; [lia|].
  assert (Hlog' : 52 <= Z.log2 m) by (apply Z.log2_le_pow2; lia).
  lia.
Qed.

Lemma round_ratio_valid (a b : Z) :
  0 <= a -> 0 < b -> valid_double (round_ratio a b) = true.
Proof.
  intros A B. unfold round_ratio.
  set (n := a * 2 ^ 1074).
  set (q0 := n / b). set (r0 := n mod b).
  set (s := Z.max (Z.log2 q0 + 1 - 53) 0).
  set (q := q0 / 2 ^ s). set (rem := q0 mod 2 ^ s).
  set (q' := match 2 * (rem * b + r0) ?= 2 ^ s * b with
             | Lt => q
             | Gt => q + 1
             | Eq => if Z.even q then q else q + 1
             end).
  assert (N0 : 0 <= n) by (unfold n; apply Z.mul_nonneg_nonneg; [lia|apply Z.pow_nonneg; lia]).
  assert (Q0 : 0 <= q0) by (apply Z.div_pos; lia).
  assert (S0 : 0 <= s) by (unfold s; lia).
  assert (P : 0 < 2 ^ s) by (apply Z.pow_pos_nonneg; lia).
  assert (Qlo : 0 <= q) by (apply Z.div_pos; lia).
  assert (Qhi : q < 2 ^ 53).
  { unfold q. apply Z.div_lt_upper_bound; [exact P|].
    rewrite <- Z.pow_add_r by lia.
    destruct (Z.eq_dec q0 0) as [->|NZ]; [apply Z.pow_pos_nonneg; lia|].
    assert (H : q0 < 2 ^ (Z.log2 q0 + 1)).
    { pose proof (Z.log2_spec q0). rewrite <- Z.add_1_r in *. lia. }
    eapply Z.lt_le_trans; [exact H|]. apply Z.pow_le_mono_r; unfold s; lia. }
  assert (Qs : 0 < s -> 2 ^ 52 <= q).
  { intros Sp. assert (Es : s = Z.log2 q0 - 52) by (unfold s in *; lia).
    assert (L52 : 52 < Z.log2 q0) by lia.
    assert (Qp : 0 < q0).
    { destruct (Z.eq_dec q0 0) as [E0|]; [rewrite E0 in L52; cbn in L52; lia | lia]. }
    unfold q. apply Z.div_le_lower_bound; [exact P|].
    rewrite Z.mul_comm, <- Z.pow_add_r by lia.
    replace (52 + s) with (Z.log2 q0) by lia.
    apply Z.log2_spec; exact Qp. }
  assert (Q' : q' = q \/ q' = q + 1).
  { unfold q'. destruct (2 * (rem * b + r0) ?= 2 ^ s * b); [destruct (Z.even q)| |]; auto. }
  clearbody q' q s. clear rem r0.
  destruct (q' =? 2 ^ 53) eqn:E53.
  - apply Z.eqb_eq in E53. change (2 ^ 52 =? 0) with false. cbv iota.
    destruct (971 <? s + 1 - 1074) eqn:Ee; [reflexivity|].
    apply Z.ltb_ge in Ee. apply finite_valid; lia.
  - apply Z.eqb_neq in E53.
    destruct (q' =? 0) eqn:E0; [reflexivity|]. apply Z.eqb_neq in E0.
    destruct (971 <? s - 1074) eqn:Ee; [reflexivity|].
    apply Z.ltb_ge in Ee. apply finite_valid; lia.
Qed.

Lemma round_dec_valid (d q : Z) : 0 <= d -> valid_double (round_dec d q) = true.
Proof.
  intros D. unfold round_dec. destruct (q <? 0) eqn:Q.
  - apply round_ratio_valid; [exact D|]. apply Z.pow_pos_nonneg; lia.
  - apply Z.ltb_ge in Q. apply round_ratio_valid; [|lia].
    apply Z.mul_nonneg_nonneg; [exact D|]. apply Z.pow_nonneg; lia.
Qed.

Lemma negate_valid (x : number) : valid_double (negate x) = valid_double x.
Proof. destruct x; reflexivity. Qed.

Local Close Scope Z_scope.

(** ** JSON.parse builds well-formed values *)

Lemma span_digits_digits (s : jsstring) :
  forallb is_digit (fst (span_digits s)) = true.
Proof.
  induction s as [|c r IH]; [reflexivity|]. cbn [span_digits].
  destruct (is_digit c) eqn:D; [|reflexivity].
  destruct (span_digits r) as [d r']. cbn [fst forallb] in *.
  rewrite D, IH. reflexivity.
Qed.

Lemma parse_frac_digits (s f r : jsstring) :
  parse_frac s = Some (f, r) -> forallb is_digit f = true.
Proof.
  unfold parse_frac. destruct s as [|d s']; [intros H; inversion H; reflexivity|].
  destruct (N.eqb d 46); [|intros H; inversion H; reflexivity].
  pose proof (span_digits_digits s') as D.
  destruct (span_digits s') as [f' r']. cbn [fst] in D.
  destruct f'; [discriminate|]. intros H; inversion H; subst. exact D.
Qed.

Lemma parse_number_valid (s r : jsstring) (x : number) :
  parse_number s = Some (x, r) -> valid_double x = true.
Proof.
  unfold parse_number.
  destruct (match s with
            | c :: r0 => if N.eqb c 45 then (true, r0) else (false, s)
            | [] => (false, s)
            end) as [neg s1].
  pose proof (span_digits_digits s1) as D.
  destruct (span_digits s1) as [int s2]. cbn [fst] in D.
  destruct int as [|c t]; [discriminate|].
  destruct (N.eqb c 48 && negb match t with [] => true | _ => false end);
    [discriminate|].
  destruct (parse_frac s2) as [[f s3]|] eqn:F; [|discriminate].
  destruct (parse_exp s3) as [[ex s4]|]; [|discriminate].
  intros H; inversion H; subst.
  assert (V : valid_double
                (round_dec (digits_value ((c :: t) ++ f))
                   (ex - Z.of_nat (List.length f))) = true).
  { apply round_dec_valid. apply digits_value_bounds.
    rewrite forallb_app, D, (parse_frac_digits _ _ _ F). reflexivity. }
  destruct neg; [rewrite negate_valid|]; exact V.
Qed.

Lemma parse_value_wf (fuel : nat) :
  (forall s v r, parse_value fuel s = Some (v, r) -> json_wf v) /\
  (forall s l r, parse_elements fuel s = Some (l, r) -> Forall json_wf l) /\
  (forall s acc o r,
      object_wf acc -> values json_wf acc ->
      parse_members fuel s acc = Some (o, r) ->
      object_wf o /\ values json_wf o).
Proof.
  induction fuel as [|f [IHv [IHe IHm]]];
    [repeat split; intros; discriminate|].
  split; [|split].
  - intros s v r. cbn [parse_value].
    destruct (skip_ws s) as [|c t]; [discriminate|].
    destruct (N.eqb c 110).
    { destruct (expect (u16 "ull") t); intros H; inversion H; constructor. }
    destruct (N.eqb c 116).
    { destruct (expect (u16 "rue") t); intros H; inversion H; constructor. }
    destruct (N.eqb c 102).
    { destruct (expect (u16 "alse") t); intros H; inversion H; constructor. }
    destruct (N.eqb c 34).
    { destruct (parse_string t) as [[k t']|]; intros H; inversion H; constructor. }
    destruct (N.eqb c 91).
    { destruct (skip_ws t) as [|d t']; [discriminate|].
      destruct (N.eqb d 93); [intros H; inversion H; constructor; constructor|].
      destruct (parse_elements f t) as [[l t'']|] eqn:E; [|discriminate].
      intros H; inversion H; subst. constructor. exact (IHe _ _ _ E). }
    destruct (N.eqb c 123).
    { destruct (skip_ws t) as [|d t']; [discriminate|].
      destruct (N.eqb d 125).
      { intros H; inversion H. constructor; [|constructor].
        split; [constructor | reflexivity]. }
      destruct (parse_members f t []) as [[o t'']|] eqn:E; [|discriminate].
      assert (WV : object_wf o /\ values json_wf o).
      { apply (IHm t [] o t''); [|constructor|exact E].
        split; [constructor | reflexivity]. }
      intros H; inversion H; subst. constructor; tauto. }
    destruct (parse_number (c :: t)) as [[x t']|] eqn:E; [|discriminate].
    intros H; inversion H; subst. constructor. exact (parse_number_valid _ _ _ E).
  - intros s l r. cbn [parse_elements].
    destruct (parse_value f s) as [[v t]|] eqn:E; [|discriminate].
    destruct (skip_ws t) as [|c t']; [discriminate|].
    destruct (N.eqb c 44).
    { destruct (parse_elements f t') as [[l' t'']|] eqn:E'; [|discriminate].
      intros H; inversion H; subst. constructor; [exact (IHv _ _ _ E)|].
      exact (IHe _ _ _ E'). }
    destruct (N.eqb c 93); [|discriminate].
    intros H; inversion H; subst. constructor; [exact (IHv _ _ _ E)|constructor].
  - intros s acc o r W V. cbn [parse_members].
    destruct (skip_ws s) as [|q s1]; [discriminate|].
    destruct (N.eqb q 34); [|discriminate].
    destruct (parse_string s1) as [[k s2]|]; [|discriminate].
    destruct (skip_ws s2) as [|c s3]; [discriminate|].
    destruct (N.eqb c 58); [|discriminate].
    destruct (parse_value f s3) as [[v t]|] eqn:E; [|discriminate].
    assert (W' : object_wf (obj_set acc k v)) by (apply object_wf_obj_set; exact W).
    assert (V' : values json_wf (obj_set acc k v))
      by (apply values_obj_set; [exact (IHv _ _ _ E) | exact V]).
    destruct (skip_ws t) as [|d t']; [discriminate|].
    destruct (N.eqb d 44); [apply IHm; assumption|].
    destruct (N.eqb d 125); [|discriminate].
    intros H; inversion H; subst. split; assumption.
Qed.

(** Every value [JSON.parse] returns is well formed. *)
Lemma parse_wf (s : jsstring) (v : json) : parse s = Some v -> json_wf v.
Proof.
  unfold parse.
  destruct (parse_value (S (List.length s)) s) as [[x r]|] eqn:E; [|discriminate].
  destruct (skip_ws r); [|discriminate]. intros H; inversion H; subst.
  exact (proj1 (parse_value_wf _) _ _ _ E).
Qed.

(** ** server.js: the body parser *)

(** A body the parser lets through is a well-formed object or array of
    a request within the size limit. *)
Lemma express_json_Body (p : payload) (v : json) :
  express_json p = Body v ->
  json_body v = true /\ json_wf v /\ (octets p <= limit)%N.
Proof.
  unfold express_json. destruct (limit <? octets p)%N eqn:L; [discriminate|].
  apply N.ltb_ge in L. destruct (decoded p) as [|c s] eqn:D.
  - intros H; inversion H; subst. split; [reflexivity|]. split; [|exact L].
    constructor; [split; [constructor | reflexivity] | constructor].
  - destruct (parse (c :: s)) as [x|] eqn:P; [|discriminate].
    destruct (json_body x) eqn:B; [|discriminate].
    intros H; inversion H; subst. split; [exact B|]. split; [|exact L].
    exact (parse_wf _ _ P).
Qed.

Lemma route_Body (p : payload) (v : json)
  (handler : json -> world -> response * world) (w : world) :
  express_json p = Body v -> route p handler w = handler v w.
Proof. intros E. unfold route. rewrite E. reflexivity. Qed.


(** The body of a request that carries [JSON.stringify(v)] encoded as
    UTF-8, as the front end sends a value. *)
Definition sent (v : json) : payload :=
  {| octets := N.of_nat (List.length
                           (flat_map utf8_octets (code_points (stringify v))));
     decoded := stringify v |}.

Lemma json_body_canon (v : json) : json_body (canon v) = json_body v.
Proof. destruct v as [| b | x | s | l | o]; try reflexivity. destruct x; reflexivity. Qed.

(** The parser hands the route the value the text denotes. *)
Lemma express_json_sent (v : json) :
  json_wf v -> json_body v = true -> (octets (sent v) <= limit)%N ->
  express_json (sent v) = Body (canon v).
Proof.
  intros W B L. unfold express_json. apply N.ltb_ge in L. rewrite L.
  cbn [decoded sent]. rewrite (parse_stringify_canon _ W), json_body_canon, B.
  destruct v; try discriminate B; reflexivity.
Qed.

(** ** Object.entries lists each key once *)

Local Open Scope Z_scope.

Lemma indexed_keys (A : Type) (l : list A) (i : Z) (k : jsstring) :
  In k (map fst (indexed i l)) -> exists j, i <= j /\ k = digits j.
Proof.
  revert i; induction l as [|x l IH]; intros i; cbn [indexed map fst In];
    [intros []|].
  intros [<- | H]; [exists i; split; [lia | reflexivity]|].
  destruct (IH _ H) as [j [Hj E]]. exists j. split; [lia | exact E].
Qed.

Lemma indexed_unique (A : Type) (l : list A) (i : Z) :
  0 <= i -> NoDup (map fst (indexed i l)).
Proof.
  revert i; induction l as [|x l IH]; intros i Hi; cbn [indexed map fst];
    constructor; [|apply IH; lia].
  intros H. apply indexed_keys in H as [j [Hj E]].
  assert (X : digits_value (digits i) = digits_value (digits j)) by (rewrite E; reflexivity).
  rewrite (proj1 (proj2 (digits_spec i Hi))) in X.
  rewrite (proj1 (proj2 (digits_spec j ltac:(lia)))) in X. lia.
Qed.

Local Close Scope Z_scope.

Lemma entries_unique (v : json) : json_wf v -> unique_keys (entries v).
Proof.
  intros W. unfold unique_keys.
  destruct W as [| b | x Hx | s | l Hl | o [U _] Hv]; cbn [entries map];
    try constructor; try (apply indexed_unique; lia).
  exact U.
Qed.

(** ** email.js: maskConfig *)

(** The value [maskConfig] leaves in a secret field. *)
Definition mask_opt (x : option json) : option json :=
  match x with
  | Some v =>
      if truthy (Some v)
      then match mask_value v with Ok v' => Some v' | Throw _ => x end
      else x
  | None => None
  end.

Lemma mask_field_lookup (m m' : list (jsstring * json)) (f : jsstring) :
  JsString.eqb f (u16 "__proto__") = false ->
  mask_field m f = Ok m' ->
  forall k, lookup k m' =
            if JsString.eqb k f then mask_opt (lookup f m) else lookup k m.
Proof.
  intros P H k. unfold mask_field in H. unfold mask_opt.
  destruct (lookup f m) as [v|] eqn:L.
  - destruct (truthy (Some v)) eqn:T.
    + destruct (mask_value v) as [v'|e]; simpl in H; [|discriminate].
      inversion H; subst m'. apply lookup_assign; exact P.
    + inversion H; subst m'.
      destruct (JsString.eqb k f) eqn:E; [|reflexivity].
      apply eqb_eq in E; subst k; exact L.
  - inversion H; subst m'.
    destruct (JsString.eqb k f) eqn:E; [|reflexivity].
    apply eqb_eq in E; subst k; exact L.
Qed.

Lemma forEach_mask_lookup (l : list jsstring) :
  NoDup l ->
  (forall f, In f l -> JsString.eqb f (u16 "__proto__") = false) ->
  forall m m', forEach l mask_field m = Ok m' ->
  forall k, (In k l -> lookup k m' = mask_opt (lookup k m)) /\
            (~ In k l -> lookup k m' = lookup k m).
Proof.
  induction l as [|f l IH]; intros ND NP m m' H k.
  - simpl in H. inversion H; subst. split; [intros []| reflexivity].
  - cbn [forEach] in H. destruct (mask_field m f) as [m1|e] eqn:F;
      simpl in H; [|discriminate].
    inversion ND as [|? ? Nf ND']; subst.
    assert (NP' : forall g, In g l -> JsString.eqb g (u16 "__proto__") = false)
      by (intros g Hg; apply NP; right; exact Hg).
    destruct (IH ND' NP' m1 m' H k) as [IHin IHout].
    pose proof (mask_field_lookup m m1 f (NP f (or_introl eq_refl)) F) as L1.
    split.
    + intros [-> | Hin].
      * rewrite (IHout Nf), L1, eqb_refl. reflexivity.
      * rewrite (IHin Hin), L1.
        destruct (JsString.eqb k f) eqn:E; [|reflexivity].
        apply eqb_eq in E; subst k; contradiction.
    + intros Hout.
      assert (Hl : ~ In k l) by (intros X; apply Hout; right; exact X).
      rewrite (IHout Hl), L1.
      destruct (JsString.eqb k f) eqn:E; [|reflexivity].
      apply eqb_eq in E; subst k. exfalso; apply Hout; left; reflexivity.
Qed.

Lemma secretFields_NoDup : NoDup secretFields.
Proof.
  unfold secretFields.
  repeat (constructor; [simpl; intros H;
    repeat (destruct H as [H | H]; [apply eqb_eq in H; vm_compute in H; discriminate|]);
    exact H |]).
  constructor.
Qed.

Lemma secretFields_not_proto (f : jsstring) :
  In f secretFields -> JsString.eqb f (u16 "__proto__") = false.
Proof.
  unfold secretFields; simpl.
  intros [<- | [<- | [<- | [<- | []]]]]; vm_compute; reflexivity.
Qed.

(** The secret fields have the documented type: each is a string, or is
    absent, or holds a falsy value. *)
Definition secrets_typed (o : list (jsstring * json)) : Prop :=
  forall f, In f secretFields ->
    match lookup f o with
    | Some (JStr _) | None => True
    | Some v => truthy (Some v) = false
    end.

Lemma forEach_mask_total (l : list jsstring) (o : list (jsstring * json)) :
  (forall f, In f l -> In f secretFields) ->
  NoDup l -> secrets_typed o ->
  forall m, (forall k, In k l -> lookup k m = lookup k o) ->
  exists m', forEach l mask_field m = Ok m'.
Proof.
  intros Sub ND Ty. induction l as [|f l IH]; intros m Hm.
  - exists m; reflexivity.
  - cbn [forEach]. inversion ND as [|? ? Nf ND']; subst.
    assert (F : exists m1, mask_field m f = Ok m1).
    { unfold mask_field. rewrite (Hm f (or_introl eq_refl)).
      specialize (Ty f (Sub f (or_introl eq_refl))).
      destruct (lookup f o) as [v|]; [|eauto].
      destruct (truthy (Some v)) eqn:T; [|eauto].
      destruct v; try discriminate; simpl; eauto. }
    destruct F as [m1 F]. rewrite F. simpl.
    apply IH; try assumption.
    + intros g Hg; apply Sub; right; exact Hg.
    + intros k Hk.
      rewrite (mask_field_lookup m m1 f (secretFields_not_proto f (Sub f (or_introl eq_refl))) F).
      destruct (JsString.eqb k f) eqn:E.
      * apply eqb_eq in E; subst k; contradiction.
      * apply Hm; right; exact Hk.
Qed.

Lemma maskConfig_object (o : list (jsstring * json)) (r : json) :
  unique_keys o ->
  maskConfig (Some (JObj o)) = Ok r ->
  exists m, r = JObj m /\
    forall k, (In k secretFields -> lookup k m = mask_opt (lookup k o)) /\
              (~ In k secretFields -> lookup k m = lookup k o).
Proof.
  intros U H. unfold maskConfig in H. cbn [truthy negb] in H.
  destruct (forEach secretFields mask_field (spread [] (JObj o))) as [m|e] eqn:F;
    simpl in H; [|discriminate].
  inversion H; subst r. exists m. split; [reflexivity|]. intros k.
  destruct (forEach_mask_lookup secretFields secretFields_NoDup secretFields_not_proto _ _ F k)
    as [Hin Hout].
  assert (S : lookup k (spread [] (JObj o)) = lookup k o).
  { rewrite lookup_spread by exact U. destruct (lookup k o); reflexivity. }
  split; intros Hk.
  - rewrite (Hin Hk), S. reflexivity.
  - rewrite (Hout Hk), S. reflexivity.
Qed.

Lemma maskConfig_total (o : list (jsstring * json)) :
  unique_keys o -> secrets_typed o ->
  exists m, maskConfig (Some (JObj o)) = Ok (JObj m).
Proof.
  intros U Ty. unfold maskConfig. cbn [truthy negb].
  destruct (forEach_mask_total secretFields o (fun f H => H) secretFields_NoDup Ty
              (spread [] (JObj o))) as [m F].
  - intros k _. rewrite lookup_spread by exact U. destruct (lookup k o); reflexivity.
  - rewrite F. exists m. reflexivity.
Qed.

Lemma marker_has_hint : marker = masked_hint ++ u16 "••••••••".
Proof. vm_compute. reflexivity. Qed.

Lemma get_api_email_config_masks (w : world) (u config : text)
  (o m : list (jsstring * json)) :
  getEmailCfg (db w) u = Some config ->
  parse config = Some (JObj o) ->
  maskConfig (Some (JObj o)) = Ok (JObj m) ->
  get_api_email_config u w = (Json 200 (JObj m), w).
Proof.
  intros G P M. unfold get_api_email_config. rewrite G, P, M. reflexivity.
Qed.

(** Deciding that a concrete list of keys has no duplicates. *)
Ltac distinct_keys :=
  unfold unique_keys; simpl;
  repeat (constructor;
          [ simpl; intros H;
            repeat (destruct H as [H | H];
                    [apply eqb_eq in H; vm_compute in H; discriminate|]);
            exact H | ]);
  constructor.

Ltac each_secret :=
  let f := fresh "f" in
  let H := fresh "H" in
  intros f H; unfold secretFields in H; simpl in H;
  repeat (destruct H as [H | H]; [subst f; vm_compute; auto|]);
  destruct H.

Definition sample_config : list (jsstring * json) :=
  [(u16 "provider", JStr (u16 "smtp"));
   (u16 "fromEmail", JStr (u16 "bills@example.org"));
   (u16 "smtpPort", JNum (S754_finite false 5163306604036096 (-43)));
   (u16 "smtpPass", JStr (u16 "hunter2-secret"));
   (u16 "sendgridApiKey", JStr [])].

Lemma sample_config_unique : unique_keys sample_config.
Proof. distinct_keys. Defined.

Lemma sample_config_typed : secrets_typed sample_config.
Proof. each_secret. Defined.

(** C10.  [maskConfig] returns [null] for an absent or [null]
    configuration.  On a configuration object it returns whenever the
    secret fields have their documented type, and a result it returns is
    an object in which every field other than the four secret fields
    equals the field of the input, and a secret field that is absent or
    the empty string in the input is the same in the result. *)
Theorem maskConfig_frame (o : list (jsstring * json)) :
  unique_keys o ->
  maskConfig None = Ok JNull /\
  maskConfig (Some JNull) = Ok JNull /\
  (secrets_typed o -> exists m, maskConfig (Some (JObj o)) = Ok (JObj m)) /\
  (forall r, maskConfig (Some (JObj o)) = Ok r ->
     exists m, r = JObj m /\
       (forall k, ~ In k secretFields -> lookup k m = lookup k o) /\
       (forall f, In f secretFields ->
          lookup f o = None \/ lookup f o = Some (JStr []) ->
          lookup f m = lookup f o)).
Proof.
  intros U. split; [reflexivity|]. split; [reflexivity|].
  split; [apply maskConfig_total; exact U|].
  intros r M. destruct (maskConfig_object o r U M) as [m [E Hm]].
  exists m. split; [exact E|]. split.
  - intros k Hk. apply (Hm k); exact Hk.
  - intros f Hf [L | L]; destruct (Hm f) as [Hin _];
      rewrite (Hin Hf), L; reflexivity.
Qed.

Lemma maskConfig_frame_witness :
  maskConfig None = Ok JNull /\
  maskConfig (Some JNull) = Ok JNull /\
  (secrets_typed sample_config ->
   exists m, maskConfig (Some (JObj sample_config)) = Ok (JObj m)) /\
  (forall r, maskConfig (Some (JObj sample_config)) = Ok r ->
     exists m, r = JObj m /\
       (forall k, ~ In k secretFields -> lookup k m = lookup k sample_config) /\
       (forall f, In f secretFields ->
          lookup f sample_config = None \/ lookup f sample_config = Some (JStr []) ->
          lookup f m = lookup f sample_config)).
Proof.
  apply (maskConfig_frame sample_config). exact sample_config_unique.
Defined.

(** ** email.js: sendEmail *)

Lemma truthy_Some (v : option json) : truthy v = true -> exists x, v = Some x.
Proof. destruct v as [x|]; [eauto | discriminate]. Qed.

(** C7.  [sendEmail] fails, and no transport is called (the list of
    attempted deliveries is empty), when [cfg] is absent or falsy, when
    [cfg.provider] or [cfg.fromEmail] is missing or falsy, when [to] is
    missing or empty, and when [cfg.provider] is none of the four
    recognized names. *)
Theorem sendEmail_rejects (cfg to : option json) (subject html text : jsstring)
  (net : network) :
  truthy cfg = false \/ truthy (prop cfg "provider") = false \/
  truthy (prop cfg "fromEmail") = false \/ truthy to = false \/
  recognized (prop cfg "provider") = false ->
  exists e, sendEmail cfg to subject html text net = (Throw e, []).
Proof.
  intros H. unfold sendEmail.
  destruct (truthy cfg) eqn:Tc; cbn [negb orb]; [|eexists; reflexivity].
  destruct (truthy (prop cfg "provider")) eqn:Tp; cbn [negb]; [|eexists; reflexivity].
  destruct (truthy (prop cfg "fromEmail")) eqn:Tf; cbn [negb]; [|eexists; reflexivity].
  destruct (truthy to) eqn:Tt; cbn [negb]; [|eexists; reflexivity].
  destruct H as [H | [H | [H | [H | H]]]]; try discriminate.
  destruct (truthy_Some _ Tc) as [c ->].
  destruct (truthy_Some _ Tt) as [t ->].
  destruct (truthy_Some _ Tp) as [p Ep]. rewrite Ep in *.
  unfold recognized in H.
  apply orb_false_elim in H as [H H4].
  apply orb_false_elim in H as [H H3].
  apply orb_false_elim in H as [H1 H2].
  rewrite H1, H2, H3, H4.
  destruct (to_string p); eexists; reflexivity.
Qed.

Lemma sendEmail_rejects_witness :
  exists e,
    sendEmail (Some (JObj [(u16 "provider", JStr (u16 "postmark"));
                           (u16 "fromEmail", JStr (u16 "bills@example.org"))]))
      (Some (JStr (u16 "dad@example.org"))) (u16 "Bills") (u16 "<p>hi</p>")
      (u16 "hi")
      {| fetch := fun _ => {| res_ok := true; res_status := 200; res_text := [] |};
         sendMail := fun _ => Ok tt |}
    = (Throw e, []).
Proof.
  apply (sendEmail_rejects
           (Some (JObj [(u16 "provider", JStr (u16 "postmark"));
                        (u16 "fromEmail", JStr (u16 "bills@example.org"))]))).
  right; right; right; right. vm_compute. reflexivity.
Defined.

(** The errors the three guards raise, and the one of the [switch]. *)
Lemma sendEmail_guard_errors (cfg to : option json)
  (subject html text : jsstring) (net : network) :
  (truthy cfg = false \/ truthy (prop cfg "provider") = false ->
   sendEmail cfg to subject html text net
   = (Throw (Error (u16 "No email provider configured")), [])) /\
  (truthy cfg = true -> truthy (prop cfg "provider") = true ->
   truthy (prop cfg "fromEmail") = false ->
   sendEmail cfg to subject html text net
   = (Throw (Error (u16 "No sender email configured")), [])) /\
  (truthy cfg = true -> truthy (prop cfg "provider") = true ->
   truthy (prop cfg "fromEmail") = true -> truthy to = false ->
   sendEmail cfg to subject html text net
   = (Throw (Error (u16 "No recipient email address")), [])) /\
  (forall c t s,
   cfg = Some c -> to = Some t ->
   truthy cfg = true -> truthy (prop cfg "provider") = true ->
   truthy (prop cfg "fromEmail") = true -> truthy to = true ->
   recognized (prop cfg "provider") = false ->
   prop cfg "provider" = Some (JStr s) ->
   sendEmail cfg to subject html text net
   = (Throw (Error (u16 "Unknown provider: " ++ s)), [])).
Proof.
  unfold sendEmail. repeat split.
  - intros [H | H]; rewrite H; [reflexivity|].
    rewrite orb_true_r. reflexivity.
  - intros -> -> ->. reflexivity.
  - intros -> -> -> ->. reflexivity.
  - intros c t s -> -> Tc Tp Tf Tt R Ep.
    rewrite Tc, Tp, Tf, Tt. cbn [negb orb]. rewrite Ep in *.
    unfold recognized in R.
    apply orb_false_elim in R as [R H4].
    apply orb_false_elim in R as [R H3].
    apply orb_false_elim in R as [H1 H2].
    rewrite H1, H2, H3, H4. reflexivity.
Qed.

(** With the guards passed and a recognized provider, exactly one
    delivery is attempted, through the transport the provider names. *)
Lemma sendEmail_dispatches (c t : json) (subject html text : jsstring)
  (net : network) :
  truthy (Some c) = true -> truthy (get_prop c (u16 "provider")) = true ->
  truthy (get_prop c (u16 "fromEmail")) = true -> truthy (Some t) = true ->
  recognized (get_prop c (u16 "provider")) = true ->
  exists r p,
    sendEmail (Some c) (Some t) subject html text net
    = (r, [{| via := p; d_cfg := c; d_to := t; d_subject := subject;
              d_html := html; d_text := text |}]).
Proof.
  intros Tc Tp Tf Tt R. unfold sendEmail, prop. rewrite Tc, Tp, Tf, Tt.
  cbn [negb orb]. unfold recognized in R.
  destruct (get_prop c (u16 "provider")) as [p|]; [|discriminate].
  destruct (is_string p "mailgun"); [eexists; eexists; reflexivity|].
  destruct (is_string p "sendgrid"); [eexists; eexists; reflexivity|].
  destruct (is_string p "resend"); [eexists; eexists; reflexivity|].
  destruct (is_string p "smtp"); [eexists; eexists; reflexivity|].
  discriminate.
Qed.

(** ** server.js: PUT /api/email/config *)

Lemma run_ok (wr : database -> database) (w : world) :
  hd false (faults w) = false ->
  run wr w = (Ok tt, {| db := wr (db w); faults := tl (faults w) |}).
Proof.
  unfold run. destruct (faults w) as [|[|] fs]; simpl; intros H;
    [reflexivity | discriminate | reflexivity].
Qed.

Lemma run_fault (wr : database -> database) (w : world) :
  hd false (faults w) = true ->
  run wr w = (Throw SqliteError, {| db := db w; faults := tl (faults w) |}).
Proof.
  unfold run. destruct (faults w) as [|[|] fs]; simpl; intros H;
    [discriminate | reflexivity | discriminate].
Qed.

Lemma find_filter_none {A : Type} (p : A -> bool) (l : list A) :
  find p (filter (fun x => negb (p x)) l) = None.
Proof.
  induction l as [|x l IH]; simpl; [reflexivity|].
  destruct (p x) eqn:E; simpl; [exact IH | rewrite E; exact IH].
Qed.

Lemma find_app_none {A : Type} (p : A -> bool) (l r : list A) :
  find p l = None -> find p (l ++ r) = find p r.
Proof.
  induction l as [|x l IH]; simpl; [reflexivity|].
  destruct (p x); [discriminate | exact IH].
Qed.

Lemma getEmailCfg_setEmailCfg (d : database) (u v : text) :
  getEmailCfg (setEmailCfg u v d) u = Some (read_text v).
Proof.
  unfold getEmailCfg, setEmailCfg. cbn [email_config].
  rewrite find_app_none by apply find_filter_none.
  cbn [find]. unfold same_user. cbn [fst snd]. rewrite eqb_refl. reflexivity.
Qed.

(** An incoming secret that looks masked: a string with four bullets in
    a row. *)
Definition looks_masked (x : option json) : bool :=
  match x with
  | Some (JStr s) => includes s masked_hint
  | _ => false
  end.

Lemma keep_secret_typed (b ex m : list (jsstring * json)) (f : jsstring) :
  secrets_typed b -> In f secretFields ->
  keep_secret (JObj b) (JObj ex) m f =
  Ok (if looks_masked (lookup f b) then assign m f (lookup f ex) else m).
Proof.
  intros Ty Hf. specialize (Ty f Hf). unfold keep_secret, looks_masked.
  cbn [get_prop]. destruct (lookup f b) as [v|]; [|reflexivity].
  destruct v as [| |x|s|l|o]; try (rewrite Ty; reflexivity).
  destruct s as [|c s]; [reflexivity|].
  cbn [truthy JsString.eqb negb includes_method bind].
  destruct (includes (c :: s) masked_hint); reflexivity.
Qed.

Lemma forEach_keep_secret (b ex : list (jsstring * json)) (l : list jsstring) :
  secrets_typed b -> (forall f, In f l -> In f secretFields) -> NoDup l ->
  forall m, exists m',
    forEach l (keep_secret (JObj b) (JObj ex)) m = Ok m' /\
    forall k, lookup k m' =
              if existsb (JsString.eqb k) l && looks_masked (lookup k b)
              then lookup k ex else lookup k m.
Proof.
  intros Ty. induction l as [|f l IH]; intros Sub ND m.
  - exists m. split; reflexivity.
  - cbn [forEach]. rewrite keep_secret_typed
      by (try exact Ty; apply Sub; left; reflexivity).
    cbn [bind]. inversion ND as [|? ? Nf ND']; subst.
    destruct (IH (fun g Hg => Sub g (or_intror Hg)) ND'
                (if looks_masked (lookup f b) then assign m f (lookup f ex) else m))
      as [m' [F L]].
    exists m'. split; [exact F|]. intros k. rewrite L. cbn [existsb].
    destruct (JsString.eqb k f) eqn:E; cbn [orb].
    + apply eqb_eq in E; subst k.
      assert (X : existsb (JsString.eqb f) l = false).
      { destruct (existsb (JsString.eqb f) l) eqn:Y; [|reflexivity].
        apply existsb_exists in Y as [g [Hg Eg]]. apply eqb_eq in Eg; subst g.
        contradiction. }
      rewrite X. cbn [andb].
      destruct (looks_masked (lookup f b)); [|reflexivity].
      rewrite lookup_assign by (apply secretFields_not_proto, Sub; left; reflexivity).
      rewrite eqb_refl. reflexivity.
    + destruct (existsb (JsString.eqb k) l && looks_masked (lookup k b));
        [reflexivity|].
      destruct (looks_masked (lookup f b)); [|reflexivity].
      rewrite lookup_assign by (apply secretFields_not_proto, Sub; left; reflexivity).
      rewrite E. reflexivity.
Qed.

Lemma existsb_secret (f : jsstring) :
  In f secretFields -> existsb (JsString.eqb f) secretFields = true.
Proof.
  intros H. apply existsb_exists. exists f. split; [exact H | apply eqb_refl].
Qed.

Lemma includes_marker_hint (s : jsstring) :
  includes s marker = true -> includes s masked_hint = true.
Proof.
  rewrite !includes_spec. intros [pre [post ->]].
  exists pre, (u16 "••••••••" ++ post).
  rewrite marker_has_hint, <- app_assoc. reflexivity.
Qed.

(** C2 (amended).  For a tenant whose stored configuration is an object
    [ex], a save whose body [b] carries a provider and string-typed
    secrets succeeds and persists the serialization of a merged object
    in which, for every secret field [f] with incoming string [s]: the
    previously stored value of [f] is kept when [s] contains four
    bullets in a row (in particular when it contains the twelve-bullet
    marker), and [s] replaces it when [s] contains no four bullets in a
    row. *)
Theorem put_email_config_secret (w : world) (userId config : text)
  (b ex : list (jsstring * json)) (f s : jsstring) :
  getEmailCfg (db w) userId = Some config ->
  parse config = Some (JObj ex) ->
  unique_keys b ->
  truthy (lookup (u16 "provider") b) = true ->
  secrets_typed b ->
  hd false (faults w) = false ->
  In f secretFields ->
  lookup f b = Some (JStr s) ->
  exists merged w',
    put_api_email_config userId (JObj b) w = (Json 200 ok_true, w') /\
    getEmailCfg (db w') userId = Some (stringify (JObj merged)) /\
    (includes s masked_hint = true -> lookup f merged = lookup f ex) /\
    (includes s masked_hint = false -> lookup f merged = Some (JStr s)) /\
    (includes s marker = true -> includes s masked_hint = true).
Proof.
  intros G P U Tp Ty Fl Hf L.
  unfold put_api_email_config. cbn [json_body truthy negb orb get_prop].
  rewrite Tp. cbn [negb]. unfold existing_config. rewrite G, P.
  destruct (forEach_keep_secret b ex secretFields Ty (fun g H => H)
              secretFields_NoDup (spread (spread [] (JObj ex)) (JObj b)))
    as [merged [F Lk]].
  rewrite F. unfold respond, mbind. rewrite run_ok by exact Fl.
  exists merged. eexists. split; [reflexivity|].
  cbn [db].
  split; [rewrite getEmailCfg_setEmailCfg; f_equal; apply read_text_stringify|].
  specialize (Lk f). rewrite (existsb_secret f Hf), L in Lk.
  cbn [andb looks_masked] in Lk.
  split; [intros I; rewrite I in Lk; exact Lk|].
  split; [|apply includes_marker_hint].
  intros I. rewrite I in Lk. rewrite Lk.
  rewrite lookup_spread by exact U. rewrite L. reflexivity.
Qed.

Definition stored_config : list (jsstring * json) :=
  [(u16 "provider", JStr (u16 "smtp"));
   (u16 "fromEmail", JStr (u16 "bills@example.org"));
   (u16 "smtpPass", JStr (u16 "old-secret"))].

Definition stored_world : world :=
  {| db := {| user_state := [];
              email_config := [(u16 "local", stringify (JObj stored_config))];
              monthly_data := [] |};
     faults := [] |}.

Definition masked_update : list (jsstring * json) :=
  [(u16 "provider", JStr (u16 "smtp"));
   (u16 "smtpPass", JStr (u16 "old-••••••••••••"))].

Lemma masked_update_unique : unique_keys masked_update.
Proof. distinct_keys. Defined.

Lemma masked_update_typed : secrets_typed masked_update.
Proof. each_secret. Defined.

Lemma put_email_config_secret_witness :
  exists merged w',
    put_api_email_config (u16 "local") (JObj masked_update) stored_world
    = (Json 200 ok_true, w') /\
    getEmailCfg (db w') (u16 "local") = Some (stringify (JObj merged)) /\
    (includes (u16 "old-••••••••••••") masked_hint = true ->
     lookup (u16 "smtpPass") merged = lookup (u16 "smtpPass") stored_config) /\
    (includes (u16 "old-••••••••••••") masked_hint = false ->
     lookup (u16 "smtpPass") merged = Some (JStr (u16 "old-••••••••••••"))) /\
    (includes (u16 "old-••••••••••••") marker = true ->
     includes (u16 "old-••••••••••••") masked_hint = true).
Proof.
  apply (put_email_config_secret stored_world (u16 "local")
           (stringify (JObj stored_config)) masked_update stored_config
           (u16 "smtpPass") (u16 "old-••••••••••••")).
  - vm_compute. reflexivity.
  - vm_compute. reflexivity.
  - exact masked_update_unique.
  - vm_compute. reflexivity.
  - exact masked_update_typed.
  - vm_compute. reflexivity.
  - vm_compute. tauto.
  - vm_compute. reflexivity.
Defined.

(** C2, as stated, fails: the incoming secret ["pa••••ss"] does not
    contain the twelve-bullet marker, yet the save keeps the stored
    secret instead of replacing it. *)
Lemma put_email_config_keeps_on_four_bullets :
  includes (u16 "pa••••ss") marker = false /\
  fst (put_api_email_config (u16 "local")
         (JObj [(u16 "provider", JStr (u16 "smtp"));
                (u16 "smtpPass", JStr (u16 "pa••••ss"))]) stored_world)
  = Json 200 ok_true /\
  get_prop
    (existing_config
       (db (snd (put_api_email_config (u16 "local")
                   (JObj [(u16 "provider", JStr (u16 "smtp"));
                          (u16 "smtpPass", JStr (u16 "pa••••ss"))])
                   stored_world)))
       (u16 "local"))
    (u16 "smtpPass")
  = Some (JStr (u16 "old-secret")).
Proof.
  split; [vm_compute; reflexivity|].
  split; vm_compute; reflexivity.
Qed.

(** ** server.js: the batch writes (PUT /api/state, POST /api/import) *)

Lemma select_row_cons (u k : text) (x : text * text * text)
  (t : list (text * text * text)) :
  select_row u k (x :: t) =
  if same_key u k x then Some (snd x) else select_row u k t.
Proof. unfold select_row. simpl. destruct (same_key u k x); reflexivity. Qed.

Lemma same_key_eq (u k : text) (x : text * text * text) :
  same_key u k x = true <-> fst x = (u, k).
Proof.
  destruct x as [[u0 k0] v0]. unfold same_key. cbn [fst snd].
  rewrite andb_true_iff, !eqb_eq. split.
  - intros [-> ->]; reflexivity.
  - intros H; inversion H; auto.
Qed.

Lemma select_row_filter (u k u' k' : text) (t : list (text * text * text)) :
  select_row u k (filter (fun r => negb (same_key u' k' r)) t) =
  if JsString.eqb u u' && JsString.eqb k k' then None else select_row u k t.
Proof.
  induction t as [|x t IH].
  - simpl. destruct (JsString.eqb u u' && JsString.eqb k k'); reflexivity.
  - cbn [filter]. rewrite (select_row_cons u k x t).
    destruct (same_key u' k' x) eqn:E'; cbn [negb].
    + rewrite IH. destruct (JsString.eqb u u' && JsString.eqb k k') eqn:C;
        [reflexivity|].
      destruct (same_key u k x) eqn:E; [|reflexivity].
      apply same_key_eq in E, E'. rewrite E in E'. inversion E'; subst.
      rewrite !eqb_refl in C. discriminate.
    + rewrite select_row_cons, IH.
      destruct (same_key u k x) eqn:E; [|reflexivity].
      destruct (JsString.eqb u u' && JsString.eqb k k') eqn:C; [|reflexivity].
      apply andb_true_iff in C as [C1 C2]. apply eqb_eq in C1, C2; subst.
      congruence.
Qed.

Lemma select_row_app (u k : text) (t r : list (text * text * text)) :
  select_row u k (t ++ r) =
  match select_row u k t with Some v => Some v | None => select_row u k r end.
Proof.
  unfold select_row. induction t as [|x t IH]; simpl; [reflexivity|].
  destruct (same_key u k x); [reflexivity | exact IH].
Qed.

(** Reading a row after INSERT OR REPLACE. *)
Lemma select_row_replace_row (u k u' k' v : text) (t : list (text * text * text)) :
  select_row u k (replace_row u' k' v t) =
  if JsString.eqb u u' && JsString.eqb k k' then Some v else select_row u k t.
Proof.
  unfold replace_row. rewrite select_row_app, select_row_filter.
  destruct (JsString.eqb u u' && JsString.eqb k k') eqn:E.
  - unfold select_row. simpl. unfold same_key. cbn [fst snd]. rewrite E.
    reflexivity.
  - destruct (select_row u k t); [reflexivity|].
    unfold select_row. simpl. unfold same_key. cbn [fst snd]. rewrite E.
    reflexivity.
Qed.

(** The writes of a batch, applied one after the other. *)
Definition apply_state (u : text) (l : list (jsstring * json)) (d : database)
  : database :=
  fold_left (fun d kv => setState u (fst kv) (stringify (snd kv)) d) l d.

Definition apply_months (u : text) (l : list (jsstring * json)) (d : database)
  : database :=
  fold_left (fun d kv => setMonth u (fst kv) (stringify (snd kv)) d) l d.

(** The entries a batch writes for one of its two parts. *)
Definition batch (part : option json) : list (jsstring * json) :=
  match part with
  | Some v => if truthy part then entries v else []
  | None => []
  end.

Lemma getState_apply_state (u k : text) (l : list (jsstring * json))
  (d : database) :
  getState (apply_state u l d) u k =
  match lookup k (rev l) with
  | Some v => Some (stringify v)
  | None => getState d u k
  end.
Proof.
  unfold apply_state. revert d; induction l as [|[k0 v0] l IH]; intros d; simpl.
  - reflexivity.
  - rewrite IH, lookup_app. destruct (lookup k (rev l)); [reflexivity|].
    simpl. unfold getState, setState. cbn [user_state fst snd].
    rewrite select_row_replace_row, eqb_refl. cbn [andb].
    destruct (JsString.eqb k k0); [|reflexivity].
    cbn [option_map]. rewrite read_text_stringify. reflexivity.
Qed.

Lemma getMonth_apply_months (u k : text) (l : list (jsstring * json))
  (d : database) :
  getMonth (apply_months u l d) u k =
  match lookup k (rev l) with
  | Some v => Some (stringify v)
  | None => getMonth d u k
  end.
Proof.
  unfold apply_months. revert d; induction l as [|[k0 v0] l IH]; intros d; simpl.
  - reflexivity.
  - rewrite IH, lookup_app. destruct (lookup k (rev l)); [reflexivity|].
    simpl. unfold getMonth, setMonth. cbn [monthly_data fst snd].
    rewrite select_row_replace_row, eqb_refl. cbn [andb].
    destruct (JsString.eqb k k0); [|reflexivity].
    cbn [option_map]. rewrite read_text_stringify. reflexivity.
Qed.

Lemma user_state_apply_months (u : text) (l : list (jsstring * json))
  (d : database) :
  user_state (apply_months u l d) = user_state d.
Proof.
  unfold apply_months. revert d; induction l as [|kv l IH]; intros d; simpl;
    [reflexivity | rewrite IH; reflexivity].
Qed.

Lemma getState_batch (u k : text) (v : json) (l : list (jsstring * json))
  (d : database) :
  unique_keys l -> In (k, v) l ->
  getState (apply_state u l d) u k = Some (stringify v).
Proof.
  intros U H. rewrite getState_apply_state, lookup_rev by exact U.
  rewrite (lookup_In k v l U H). reflexivity.
Qed.

Lemma getMonth_batch (u k : text) (v : json) (l : list (jsstring * json))
  (d : database) :
  unique_keys l -> In (k, v) l ->
  getMonth (apply_months u l d) u k = Some (stringify v).
Proof.
  intros U H. rewrite getMonth_apply_months, lookup_rev by exact U.
  rewrite (lookup_In k v l U H). reflexivity.
Qed.

Lemma get_prop_wf (v : json) (k : jsstring) :
  json_wf v -> forall x, get_prop v k = Some x -> json_wf x.
Proof.
  intros W x H. destruct W as [| b | y Hy | t | l Hl | o Ho Hv];
    try discriminate H.
  exact (values_lookup _ _ _ _ Hv H).
Qed.

Lemma batch_unique (part : option json) :
  (forall x, part = Some x -> json_wf x) -> unique_keys (batch part).
Proof.
  intros W. unfold batch. destruct part as [v|]; [|constructor].
  destruct (truthy (Some v)); [|constructor].
  apply entries_unique, W. reflexivity.
Qed.

(** Whether one of the next [n] write statements is refused. *)
Definition refused_within (n : nat) (w : world) : bool :=
  existsb (fun f => f) (firstn n (faults w)).

(** A loop of write statements runs them all when none of them is
    refused, and throws at the first that is. *)
Lemma for_each_schedule (A : Type) (wr : A -> database -> database)
  (l : list A) (w : world) :
  for_each l (fun x => run (wr x)) w =
  if refused_within (List.length l) w
  then (Throw SqliteError, snd (for_each l (fun x => run (wr x)) w))
  else (Ok tt, {| db := fold_left (fun d x => wr x d) l (db w);
                  faults := skipn (List.length l) (faults w) |}).
Proof.
  unfold refused_within. revert w; induction l as [|x l IH]; intros w.
  - destruct w; reflexivity.
  - cbn [for_each List.length]. unfold mbind.
    destruct (faults w) as [|[|] fs] eqn:F.
    + rewrite run_ok by (rewrite F; reflexivity). rewrite IH. rewrite F.
      cbn [db faults tl firstn existsb skipn fold_left].
      destruct l; reflexivity.
    + rewrite run_fault by (rewrite F; reflexivity). reflexivity.
    + rewrite run_ok by (rewrite F; reflexivity). rewrite IH. rewrite F.
      cbn [db faults tl firstn existsb orb skipn fold_left].
      destruct (existsb (fun f => f) (firstn (List.length l) fs)); reflexivity.
Qed.

Lemma refused_within_add (n m : nat) (w : world) :
  refused_within (n + m) w
  = refused_within n w
    || refused_within m {| db := db w; faults := skipn n (faults w) |}.
Proof.
  unfold refused_within. cbn [faults]. revert n.
  induction (faults w) as [|f fs IH]; intros n.
  - destruct n, m; reflexivity.
  - destruct n as [|n]; [reflexivity|]. cbn [Nat.add firstn skipn existsb].
    rewrite IH, orb_assoc. reflexivity.
Qed.

Lemma part_loop (part : option json)
  (wr : jsstring * json -> database -> database) :
  match part with
  | Some v => if truthy part
              then for_each (entries v) (fun kv => run (wr kv))
              else ret tt
  | None => ret tt
  end = for_each (batch part) (fun kv => run (wr kv)).
Proof.
  unfold batch. destruct part as [v|]; [destruct (truthy (Some v))|]; reflexivity.
Qed.

(** The transaction of an import, by the schedule of refusals. *)
Lemma importAll_schedule (u : text) (s m : option json) (w : world) :
  if refused_within (List.length (batch s) + List.length (batch m)) w
  then fst (importAll u s m w) = Throw SqliteError /\
       db (snd (importAll u s m w)) = db w
  else fst (importAll u s m w) = Ok tt /\
       db (snd (importAll u s m w))
       = apply_months u (batch m) (apply_state u (batch s) (db w)).
Proof.
  rewrite refused_within_add. unfold importAll, transaction, mbind.
  rewrite !part_loop.
  rewrite (for_each_schedule (jsstring * json)
             (fun kv => setState u (fst kv) (stringify (snd kv))) (batch s) w).
  destruct (refused_within (List.length (batch s)) w); cbn [orb].
  - split; reflexivity.
  - rewrite (for_each_schedule _
               (fun kv => setMonth u (fst kv) (stringify (snd kv))) (batch m)).
    unfold refused_within. cbn [db faults].
    destruct (existsb _ _); split; reflexivity.
Qed.

Lemma saveMany_schedule (u : text) (data : json) (w : world) :
  if refused_within (List.length (entries data)) w
  then fst (saveMany u data w) = Throw SqliteError /\
       db (snd (saveMany u data w)) = db w
  else fst (saveMany u data w) = Ok tt /\
       db (snd (saveMany u data w)) = apply_state u (entries data) (db w).
Proof.
  unfold saveMany, transaction.
  rewrite (for_each_schedule (jsstring * json)
             (fun kv => setState u (fst kv) (stringify (snd kv))) (entries data) w).
  destruct (refused_within (List.length (entries data)) w); split; reflexivity.
Qed.

(** C3.  POST /api/import and PUT /api/state are all-or-nothing, for
    every tenant and every body the JSON parser lets through.  When none
    of the write statements of the batch is refused, the call answers
    [{ok: true}] and the database is the old one with every write of the
    batch applied, so that each settings key and each month key of the
    batch reads back the serialized value written for it.  When one of
    them is refused, the call is answered with the error and the
    database is exactly the one before the call: the writes that ran
    before the refused one are rolled back. *)
Theorem batch_write_atomic (userId : text) (p : payload) (body : json)
  (w : world) :
  express_json p = Body body ->
  let state := batch (get_prop body (u16 "state")) in
  let monthly := batch (get_prop body (u16 "monthly")) in
  let imported := route p (post_api_import userId) w in
  let saved := route p (put_api_state userId) w in
  (if refused_within (List.length state + List.length monthly) w
   then fst imported = Uncaught SqliteError /\
        db (snd imported) = db w
   else fst imported = Json 200 ok_true /\
        db (snd imported)
        = apply_months userId monthly (apply_state userId state (db w)) /\
        (forall k v, In (k, v) state ->
           getState (db (snd imported)) userId k = Some (stringify v)) /\
        (forall k v, In (k, v) monthly ->
           getMonth (db (snd imported)) userId k = Some (stringify v)))
  /\
  (if refused_within (List.length (entries body)) w
   then fst saved = Uncaught SqliteError /\
        db (snd saved) = db w
   else fst saved = Json 200 ok_true /\
        db (snd saved) = apply_state userId (entries body) (db w) /\
        (forall k v, In (k, v) (entries body) ->
           getState (db (snd saved)) userId k = Some (stringify v))).
Proof.
  intros E state monthly imported saved.
  destruct (express_json_Body p body E) as [B [W _]].
  assert (Us : unique_keys state)
    by (apply batch_unique, get_prop_wf; exact W).
  assert (Um : unique_keys monthly)
    by (apply batch_unique, get_prop_wf; exact W).
  subst imported saved. rewrite !(route_Body p body _ w E). split.
  - unfold post_api_import. rewrite B. cbn [negb].
    assert (G : forall k, get_prop_r body k = Ok (get_prop body k))
      by (intros k; destruct body; try discriminate B; reflexivity).
    rewrite !G. unfold respond, mbind, ret.
    pose proof (importAll_schedule userId (get_prop body (u16 "state"))
                  (get_prop body (u16 "monthly")) w) as S.
    fold state monthly in S.
    destruct (refused_within _ w);
      destruct (importAll userId _ _ w) as [[[]|e] w'];
      cbn [fst snd] in *; destruct S as [S1 S2]; try discriminate S1.
    + inversion S1; subst. split; [reflexivity | exact S2].
    + split; [reflexivity|]. split; [exact S2|]. rewrite S2. split.
      * intros k v H. unfold getState. rewrite user_state_apply_months.
        exact (getState_batch userId k v _ (db w) Us H).
      * intros k v H. exact (getMonth_batch userId k v _ _ Um H).
  - unfold put_api_state. rewrite B. cbn [negb].
    assert (T : negb (truthy (Some body)) || negb (typeof_object body) = false)
      by (destruct body; try discriminate B; reflexivity).
    rewrite T. unfold respond, mbind, ret.
    pose proof (saveMany_schedule userId body w) as S.
    destruct (refused_within _ w);
      destruct (saveMany userId body w) as [[[]|e] w'];
      cbn [fst snd] in *; destruct S as [S1 S2]; try discriminate S1.
    + inversion S1; subst. split; [reflexivity | exact S2].
    + split; [reflexivity|]. split; [exact S2|]. rewrite S2.
      intros k v H.
      exact (getState_batch userId k v _ (db w) (entries_unique _ W) H).
Qed.

Ltac distinct_entries :=
  unfold unique_keys; vm_compute;
  repeat (constructor;
          [ let H := fresh "H" in
            intros H;
            repeat (destruct H as [H | H]; [discriminate H|]);
            exact H | ]);
  constructor.

Definition backup_body : json :=
  JObj [(u16 "state",
         JObj [(u16 "people", JArr [JObj [(u16 "name", JStr (u16 "Alice"))]]);
               (u16 "settings", JObj [])]);
        (u16 "monthly",
         JObj [(u16 "2026-03", JObj [(u16 "electric", JStr (u16 "85.00"))])])].

(** A world in which the second write statement will be refused. *)
Definition failing_world : world :=
  {| db := {| user_state := [(u16 "local", u16 "people", u16 "[]")];
              email_config := [];
              monthly_data := [] |};
     faults := [false; true] |}.

(** The same database when no statement is refused. *)
Definition sound_world : world :=
  {| db := db failing_world; faults := [] |}.

Lemma backup_body_accepted : express_json (sent backup_body) = Body backup_body.
Proof. vm_compute. reflexivity. Defined.

Lemma batch_write_atomic_witness :
  ((fst (route (sent backup_body) (post_api_import (u16 "local")) failing_world)
    = Uncaught SqliteError /\
    db (snd (route (sent backup_body) (post_api_import (u16 "local"))
               failing_world))
    = db failing_world) /\
   (fst (route (sent backup_body) (put_api_state (u16 "local")) failing_world)
    = Uncaught SqliteError /\
    db (snd (route (sent backup_body) (put_api_state (u16 "local"))
               failing_world))
    = db failing_world)) /\
  ((fst (route (sent backup_body) (post_api_import (u16 "local")) sound_world)
    = Json 200 ok_true /\
    db (snd (route (sent backup_body) (post_api_import (u16 "local"))
               sound_world))
    = apply_months (u16 "local") (batch (get_prop backup_body (u16 "monthly")))
        (apply_state (u16 "local") (batch (get_prop backup_body (u16 "state")))
           (db sound_world)) /\
    (forall k v, In (k, v) (batch (get_prop backup_body (u16 "state"))) ->
       getState
         (db (snd (route (sent backup_body) (post_api_import (u16 "local"))
                     sound_world)))
         (u16 "local") k = Some (stringify v)) /\
    (forall k v, In (k, v) (batch (get_prop backup_body (u16 "monthly"))) ->
       getMonth
         (db (snd (route (sent backup_body) (post_api_import (u16 "local"))
                     sound_world)))
         (u16 "local") k = Some (stringify v))) /\
   (fst (route (sent backup_body) (put_api_state (u16 "local")) sound_world)
    = Json 200 ok_true /\
    db (snd (route (sent backup_body) (put_api_state (u16 "local")) sound_world))
    = apply_state (u16 "local") (entries backup_body) (db sound_world) /\
    (forall k v, In (k, v) (entries backup_body) ->
       getState
         (db (snd (route (sent backup_body) (put_api_state (u16 "local"))
                     sound_world)))
         (u16 "local") k = Some (stringify v)))).
Proof.
  split.
  - exact (batch_write_atomic (u16 "local") (sent backup_body) backup_body
             failing_world backup_body_accepted).
  - exact (batch_write_atomic (u16 "local") (sent backup_body) backup_body
             sound_world backup_body_accepted).
Defined.

(** On [failing_world] the import is rolled back: the first write (the
    settings key [people]) is not persisted. *)
Example import_rolled_back :
  fst (post_api_import (u16 "local") backup_body failing_world)
  = Uncaught SqliteError /\
  db (snd (post_api_import (u16 "local") backup_body failing_world))
  = db failing_world.
Proof. split; vm_compute; reflexivity. Qed.

(** Without a refused statement the same import is applied in full. *)
Example import_applied :
  getAllState
    (db (snd (post_api_import (u16 "local") backup_body
                {| db := db failing_world; faults := [] |}))) (u16 "local")
  = [(u16 "people", stringify (JArr [JObj [(u16 "name", JStr (u16 "Alice"))]]));
     (u16 "settings", stringify (JObj []))] /\
  getAllMonths
    (db (snd (post_api_import (u16 "local") backup_body
                {| db := db failing_world; faults := [] |}))) (u16 "local")
  = [(u16 "2026-03", stringify (JObj [(u16 "electric", JStr (u16 "85.00"))]))].
Proof. split; vm_compute; reflexivity. Qed.

(** ** server.js: the configurations the program stores *)

(** The write requests as they arrive: each body is one the parser lets
    through. *)
Definition arrives (r : request) : Prop :=
  match r with
  | PutState body | PatchState _ body | PutMonth _ body | Import body
  | PutEmailConfig body => exists p, express_json p = Body body
  | DeleteMonth _ => True
  end.

(** The worlds the program reaches from an empty database by the
    requests that write, whatever the statements SQLite refuses. *)
Inductive stored : world -> Prop :=
| stored_empty (fs : list bool) : stored {| db := Db.empty; faults := fs |}
| stored_handle (userId : text) (r : request) (w : world) :
    stored w -> arrives r -> stored (snd (handle userId r w)).

(** *** The routes that leave [email_config] alone *)

Lemma respond_snd (m : M unit) (r : response) (w : world) :
  snd (respond (mbind m (fun _ => ret r)) w) = snd (m w).
Proof.
  unfold respond, mbind, ret. destruct (m w) as [[[]|e] w']; reflexivity.
Qed.

Lemma run_email_config (wr : database -> database) (w : world) :
  (forall d, email_config (wr d) = email_config d) ->
  email_config (db (snd (run wr w))) = email_config (db w).
Proof.
  intros H. unfold run. destruct (faults w) as [|[|] fs]; cbn [snd db];
    [apply H | reflexivity | apply H].
Qed.

Lemma for_each_email_config (A : Type) (wr : A -> database -> database)
  (l : list A) :
  (forall x d, email_config (wr x d) = email_config d) ->
  forall w, email_config (db (snd (for_each l (fun x => run (wr x)) w)))
            = email_config (db w).
Proof.
  intros H. induction l as [|x l IH]; intros w; [reflexivity|].
  cbn [for_each]. unfold mbind.
  pose proof (run_email_config (wr x) w (H x)) as R.
  destruct (run (wr x) w) as [[[]|e] w1]; cbn [snd] in *.
  - rewrite IH. exact R.
  - exact R.
Qed.

Lemma transaction_email_config (fn : M unit) (w : world) :
  email_config (db (snd (fn w))) = email_config (db w) ->
  email_config (db (snd (transaction fn w))) = email_config (db w).
Proof.
  intros H. unfold transaction. destruct (fn w) as [[[]|e] w1];
    [exact H | reflexivity].
Qed.

Lemma saveMany_email_config (u : text) (data : json) (w : world) :
  email_config (db (snd (saveMany u data w))) = email_config (db w).
Proof.
  unfold saveMany. apply transaction_email_config.
  apply (for_each_email_config (jsstring * json)
           (fun kv => setState u (fst kv) (stringify (snd kv)))).
  reflexivity.
Qed.

Lemma importAll_email_config (u : text) (s m : option json) (w : world) :
  email_config (db (snd (importAll u s m w))) = email_config (db w).
Proof.
  unfold importAll. apply transaction_email_config. rewrite !part_loop.
  unfold mbind.
  pose proof (for_each_email_config (jsstring * json)
                (fun kv => setState u (fst kv) (stringify (snd kv)))
                (batch s) (fun _ _ => eq_refl) w) as S.
  destruct (for_each (batch s) _ w) as [[[]|e] w1]; cbn [snd] in *;
    [|exact S].
  rewrite (for_each_email_config (jsstring * json)
             (fun kv => setMonth u (fst kv) (stringify (snd kv)))
             (batch m) (fun _ _ => eq_refl) w1).
  exact S.
Qed.

(** Only PUT /api/email/config writes to [email_config]. *)
Lemma handle_email_config (u : text) (r : request) (w : world) :
  (forall body, r <> PutEmailConfig body) ->
  email_config (db (snd (handle u r w))) = email_config (db w).
Proof.
  intros N. destruct r as [body | key body | key body | key | body | body];
    cbn [handle].
  - unfold put_api_state. destruct (negb (json_body body)); [reflexivity|].
    destruct (negb (truthy (Some body)) || negb (typeof_object body));
      [reflexivity|].
    rewrite respond_snd. apply saveMany_email_config.
  - unfold patch_api_state_key. destruct (negb (json_body body)); [reflexivity|].
    rewrite respond_snd. apply run_email_config. reflexivity.
  - unfold put_api_months_key. destruct (negb (json_body body)); [reflexivity|].
    destruct (negb (month_key_ok key)); [reflexivity|].
    rewrite respond_snd. apply run_email_config. reflexivity.
  - unfold delete_api_months_key.
    rewrite respond_snd. apply run_email_config. reflexivity.
  - unfold post_api_import. destruct (negb (json_body body)); [reflexivity|].
    destruct (get_prop_r body (u16 "state")) as [s|e];
      destruct (get_prop_r body (u16 "monthly")) as [m|e']; try reflexivity.
    rewrite respond_snd. apply importAll_email_config.
  - exfalso. exact (N body eq_refl).
Qed.

(** *** What PUT /api/email/config stores *)

(** No string secret of the configuration holds four bullets in a row. *)
Definition secrets_clean (o : list (jsstring * json)) : Prop :=
  forall f s, In f secretFields -> lookup f o = Some (JStr s) ->
    includes s masked_hint = false.

(** A stored text that is the text of a configuration object with such
    secrets. *)
Definition config_ok (config : text) : Prop :=
  exists o, config = stringify (JObj o) /\ serializable (JObj o) /\
            secrets_clean o.

Definition configs_ok (d : database) : Prop :=
  forall r, In r (email_config d) -> config_ok (snd r).

(** Whether the handler puts the stored value of [f] back: the incoming
    one is truthy and [includes] the four bullets. *)
Definition kept (body : json) (f : jsstring) : bool :=
  match get_prop body f with
  | Some v =>
      truthy (Some v)
      && match includes_method v masked_hint with
         | Ok inc => inc
         | Throw _ => false
         end
  | None => false
  end.

Lemma keep_secret_Ok (body : json) (e m m' : list (jsstring * json))
  (f : jsstring) :
  keep_secret body (JObj e) m f = Ok m' ->
  m' = if kept body f then assign m f (lookup f e) else m.
Proof.
  unfold keep_secret, kept. destruct (get_prop body f) as [v|];
    [|intros H; inversion H; reflexivity].
  destruct (truthy (Some v)); [|intros H; inversion H; reflexivity].
  destruct (includes_method v masked_hint) as [[|]|err]; cbn [bind andb];
    intros H; inversion H; reflexivity.
Qed.

Lemma forEach_keep_secret_Ok (body : json) (e : list (jsstring * json))
  (l : list jsstring) :
  NoDup l ->
  (forall f, In f l -> JsString.eqb f (u16 "__proto__") = false) ->
  forall m m', forEach l (keep_secret body (JObj e)) m = Ok m' ->
    (forall k, lookup k m' =
               if existsb (JsString.eqb k) l && kept body k
               then lookup k e else lookup k m) /\
    (object_wf m -> object_wf m') /\
    (forall P : json -> Prop, values P e -> values P m -> values P m').
Proof.
  induction l as [|f l IH]; intros ND NP m m' H.
  - cbn [forEach] in H. inversion H; subst.
    split; [reflexivity|]. split; auto.
  - cbn [forEach] in H.
    destruct (keep_secret body (JObj e) m f) as [m1|err] eqn:K;
      cbn [bind] in H; [|discriminate].
    apply keep_secret_Ok in K. inversion ND as [|? ? Nf ND']; subst l0 x.
    assert (Pf : JsString.eqb f (u16 "__proto__") = false)
      by (apply NP; left; reflexivity).
    destruct (IH ND' (fun g Hg => NP g (or_intror Hg)) m1 m' H) as [L [W V]].
    split; [|split].
    + intros k. rewrite L. cbn [existsb].
      destruct (JsString.eqb k f) eqn:E; cbn [orb].
      * apply eqb_eq in E; subst k.
        assert (X : existsb (JsString.eqb f) l = false).
        { destruct (existsb (JsString.eqb f) l) eqn:Y; [|reflexivity].
          apply existsb_exists in Y as [g [Hg Eg]]. apply eqb_eq in Eg; subst g.
          contradiction. }
        rewrite X. cbn [andb]. rewrite K.
        destruct (kept body f); [|reflexivity].
        rewrite lookup_assign by exact Pf. rewrite eqb_refl. reflexivity.
      * destruct (existsb (JsString.eqb k) l && kept body k); [reflexivity|].
        rewrite K. destruct (kept body f); [|reflexivity].
        rewrite lookup_assign by exact Pf. rewrite E. reflexivity.
    + intros Wm. apply W. rewrite K.
      destruct (kept body f); [apply object_wf_assign|]; exact Wm.
    + intros P Ve Vm. apply V; [exact Ve|]. rewrite K.
      destruct (kept body f); [|exact Vm].
      apply values_assign; [|exact Vm].
      intros x Hx. exact (values_lookup P e f x Ve Hx).
Qed.

Lemma serializable_obj (o : list (jsstring * json)) :
  serializable (JObj o) -> object_wf o /\ values serializable o.
Proof. intros S. inversion S; subst. split; assumption. Qed.

Lemma json_wf_obj (o : list (jsstring * json)) :
  json_wf (JObj o) -> object_wf o /\ values json_wf o.
Proof. intros W. inversion W; subst. split; assumption. Qed.

(** The configuration the handler merges into is a stored one, or the
    empty object. *)
Lemma existing_config_ok (d : database) (u : text) :
  configs_ok d ->
  exists e, existing_config d u = JObj e /\ serializable (JObj e) /\
            secrets_clean e.
Proof.
  intros C. unfold existing_config, getEmailCfg.
  destruct (find (same_user u) (email_config d)) as [r|] eqn:F.
  - apply find_some in F as [Hin _].
    destruct (C r Hin) as [o [E [S Cl]]].
    exists o. rewrite E, read_text_stringify, (parse_stringify _ S).
    repeat split; assumption.
  - exists []. split; [reflexivity|]. split.
    + constructor; [split; [constructor | reflexivity] | constructor].
    + intros f s _ L. discriminate L.
Qed.

Lemma canon_string (v : json) (s : jsstring) : canon v = JStr s -> v = JStr s.
Proof.
  destruct v as [| b | x | t | l | o]; try discriminate; [|intros H; exact H].
  destruct x; discriminate.
Qed.

Lemma canon_members_clean (m : list (jsstring * json)) :
  secrets_clean m -> secrets_clean (canon_members m).
Proof.
  intros C f s Hf L. rewrite canon_members_lookup in L.
  destruct (lookup f m) as [v|] eqn:Lm; [|discriminate].
  cbn [option_map] in L. injection L as L. apply canon_string in L. subst v.
  exact (C f s Hf Lm).
Qed.

(** The text of a well-formed object with clean secrets may be stored. *)
Lemma config_ok_stringify (m : list (jsstring * json)) :
  json_wf (JObj m) -> secrets_clean m -> config_ok (stringify (JObj m)).
Proof.
  intros W C. exists (canon_members m).
  rewrite <- canon_obj, stringify_canon. split; [reflexivity|].
  split; [apply canon_serializable; exact W|].
  apply canon_members_clean; exact C.
Qed.

Lemma setEmailCfg_ok (u v : text) (d : database) :
  configs_ok d -> config_ok v -> configs_ok (setEmailCfg u v d).
Proof.
  intros C V r H. unfold setEmailCfg in H. cbn [email_config] in H.
  apply in_app_or in H as [H | [<- | []]].
  - apply filter_In in H as [H _]. exact (C r H).
  - exact V.
Qed.

(** The object PUT /api/email/config writes has clean secrets: an
    incoming string with four bullets is replaced by the stored value,
    which has none. *)
Lemma merged_clean (b e m' : list (jsstring * json)) :
  unique_keys b -> unique_keys e -> secrets_clean e ->
  forEach secretFields (keep_secret (JObj b) (JObj e))
    (spread (spread [] (JObj e)) (JObj b)) = Ok m' ->
  secrets_clean m'.
Proof.
  intros Ub Ue Ce F f s Hf L.
  destruct (forEach_keep_secret_Ok (JObj b) e secretFields secretFields_NoDup
              secretFields_not_proto _ _ F) as [Lk _].
  rewrite Lk, (existsb_secret f Hf) in L. cbn [andb] in L.
  destruct (kept (JObj b) f) eqn:K; [exact (Ce f s Hf L)|].
  rewrite lookup_spread in L by exact Ub.
  destruct (lookup f b) as [v|] eqn:Lb.
  - injection L as ->. unfold kept in K. cbn [get_prop] in K. rewrite Lb in K.
    cbn [includes_method] in K. destruct s as [|c s]; [reflexivity|].
    exact K.
  - rewrite lookup_spread in L by exact Ue.
    destruct (lookup f e) as [v|] eqn:Le; [|discriminate L].
    injection L as ->. exact (Ce f s Hf Le).
Qed.

Lemma put_api_email_config_ok (u : text) (body : json) (w : world) :
  json_wf body -> configs_ok (db w) ->
  configs_ok (db (snd (put_api_email_config u body w))).
Proof.
  intros W C. unfold put_api_email_config.
  destruct (negb (json_body body)); [exact C|].
  destruct (negb (truthy (Some body))
            || negb (truthy (get_prop body (u16 "provider")))) eqn:G;
    [exact C|].
  destruct body as [| x | x | x | x | b];
    try (cbn [get_prop truthy negb orb] in G;
         rewrite ?orb_true_r in G; discriminate G).
  destruct (existing_config_ok (db w) u C) as [e [E [Se Ce]]]. rewrite E.
  destruct (serializable_obj e Se) as [We Ve].
  destruct (json_wf_obj b W) as [Wb Vb].
  destruct (forEach secretFields (keep_secret (JObj b) (JObj e))
              (spread (spread [] (JObj e)) (JObj b))) as [m'|err] eqn:F;
    [|exact C].
  rewrite respond_snd. unfold run.
  assert (K : config_ok (stringify (JObj m'))).
  { destruct (forEach_keep_secret_Ok (JObj b) e secretFields secretFields_NoDup
                secretFields_not_proto _ _ F) as [_ [Wm Vm]].
    assert (Je : values json_wf e).
    { unfold values in *. rewrite Forall_forall in *.
      intros kv H. apply serializable_wf, Ve, H. }
    apply config_ok_stringify.
    - constructor.
      + apply Wm. apply object_wf_spread, object_wf_spread.
        split; [constructor | reflexivity].
      + apply Vm; [exact Je|]. apply values_spread; [exact Vb|].
        apply values_spread; [exact Je | constructor].
    - exact (merged_clean b e m' (proj1 Wb) (proj1 We) Ce F). }
  destruct (faults w) as [|[|] fs]; cbn [snd db];
    [apply setEmailCfg_ok; assumption | exact C
    | apply setEmailCfg_ok; assumption].
Qed.

(** Every configuration the program stores is the text of an object
    whose string secrets hold no four bullets in a row. *)
Lemma stored_configs_ok (w : world) : stored w -> configs_ok (db w).
Proof.
  induction 1 as [fs | u r w S IH A].
  - intros r [].
  - destruct r as [body | key body | key body | key | body | body];
      try (unfold configs_ok; rewrite handle_email_config by discriminate;
           exact IH).
    destruct A as [p E]. destruct (express_json_Body p body E) as [_ [W _]].
    cbn [handle]. apply put_api_email_config_ok; assumption.
Qed.

(** *** GET /api/email/config on a stored configuration *)

(** C1.  For every configuration the program has stored for a tenant
    (in any world reached from the empty database by requests that
    write), and every secret field [f] that holds in it a string [s] of
    at least 4 code units: the masked value, the first 4 code units of
    [s] followed by the marker, is never the full secret [s]; every
    object [maskConfig] returns for the configuration, and every object
    GET /api/email/config answers, holds exactly that masked value in
    field [f]; and when the secret fields have their documented type
    (strings), [maskConfig] returns and GET /api/email/config answers
    such an object. *)
Theorem stored_secret_masked (w : world) (userId config : text)
  (o : list (jsstring * json)) (f s : jsstring) :
  stored w ->
  getEmailCfg (db w) userId = Some config ->
  parse config = Some (JObj o) ->
  In f secretFields ->
  lookup f o = Some (JStr s) ->
  (4 <= List.length s)%nat ->
  List.length (firstn 4 s) = 4%nat /\
  firstn 4 s ++ marker <> s /\
  (forall m, maskConfig (Some (JObj o)) = Ok (JObj m) ->
     lookup f m = Some (JStr (firstn 4 s ++ marker))) /\
  (forall m, fst (get_api_email_config userId w) = Json 200 (JObj m) ->
     lookup f m = Some (JStr (firstn 4 s ++ marker))) /\
  (secrets_typed o ->
   exists m, maskConfig (Some (JObj o)) = Ok (JObj m) /\
             get_api_email_config userId w = (Json 200 (JObj m), w)).
Proof.
  intros S G P Hf L Len.
  assert (I : serializable (JObj o) /\ secrets_clean o).
  { pose proof (stored_configs_ok w S) as C. unfold getEmailCfg in G.
    destruct (find (same_user userId) (email_config (db w))) as [r|] eqn:F;
      [|discriminate G].
    apply find_some in F as [Hin _]. destruct (C r Hin) as [o0 [E [So Cl]]].
    injection G as G. rewrite E, read_text_stringify in G. subst config.
    rewrite (parse_stringify _ So) in P. injection P as ->.
    split; assumption. }
  destruct I as [So Cl]. destruct (serializable_obj o So) as [[U _] _].
  assert (Mk : forall m, maskConfig (Some (JObj o)) = Ok (JObj m) ->
                 lookup f m = Some (JStr (firstn 4 s ++ marker))).
  { intros m M. destruct (maskConfig_object o (JObj m) U M) as [m0 [Em Hm]].
    injection Em as <-. destruct (Hm f) as [Hin _].
    rewrite (Hin Hf), L. unfold mask_opt.
    assert (T : truthy (Some (JStr s)) = true)
      by (destruct s; [simpl in Len; lia | reflexivity]).
    rewrite T. cbn [mask_value]. rewrite slice_0_4. reflexivity. }
  split; [apply firstn_length_le; exact Len|]. split; [|split; [exact Mk|split]].
  - intros H.
    assert (X : includes s masked_hint = true).
    { apply includes_spec. exists (firstn 4 s), (u16 "••••••••").
      rewrite <- H at 1. rewrite marker_has_hint. reflexivity. }
    rewrite (Cl f s Hf L) in X. discriminate X.
  - intros m. unfold get_api_email_config. rewrite G, P.
    destruct (maskConfig (Some (JObj o))) as [r|e] eqn:M; cbn [fst];
      intros H; inversion H; subst. apply Mk. reflexivity.
  - intros Ty. destruct (maskConfig_total o U Ty) as [m M].
    exists m. split; [exact M|].
    exact (get_api_email_config_masks w userId config o m G P M).
Qed.

(** The world after the configuration [sample_config] is saved into an
    empty database. *)
Definition saved_world : world :=
  snd (handle (u16 "local") (PutEmailConfig (JObj sample_config))
         {| db := Db.empty; faults := [] |}).

Lemma saved_world_stored : stored saved_world.
Proof.
  apply stored_handle; [apply stored_empty|].
  exists (sent (JObj sample_config)). vm_compute. reflexivity.
Defined.

Lemma stored_secret_masked_witness :
  exists m,
    maskConfig (Some (JObj sample_config)) = Ok (JObj m) /\
    get_api_email_config (u16 "local") saved_world
    = (Json 200 (JObj m), saved_world) /\
    lookup (u16 "smtpPass") m = Some (JStr (u16 "hunt" ++ marker)) /\
    u16 "hunt" ++ marker <> u16 "hunter2-secret".
Proof.
  destruct (stored_secret_masked saved_world (u16 "local")
              (stringify (JObj sample_config)) sample_config
              (u16 "smtpPass") (u16 "hunter2-secret") saved_world_stored)
    as [_ [N [K [_ T]]]].
  - vm_compute. reflexivity.
  - vm_compute. reflexivity.
  - vm_compute. tauto.
  - vm_compute. reflexivity.
  - vm_compute. lia.
  - destruct (T sample_config_typed) as [m [M G]].
    exists m. split; [exact M|]. split; [exact G|].
    split; [exact (K m M) | exact N].
Defined.

(** The answer for [saved_world], computed. *)
Example saved_world_answer :
  get_api_email_config (u16 "local") saved_world
  = (Json 200
       (JObj [(u16 "provider", JStr (u16 "smtp"));
              (u16 "fromEmail", JStr (u16 "bills@example.org"));
              (u16 "smtpPort", JNum (S754_finite false 5163306604036096 (-43)));
              (u16 "smtpPass", JStr (u16 "hunt••••••••••••"));
              (u16 "sendgridApiKey", JStr [])]),
     saved_world).
Proof. vm_compute. reflexivity. Qed.

(** A secret that carries the marker is not stored: on an empty database
    the save of ["abcd" ++ marker] writes the configuration without the
    field, and a later save keeps the stored secret. *)
Example masked_secret_not_stored :
  existing_config
    (db (snd (handle (u16 "local")
                (PutEmailConfig
                   (JObj [(u16 "provider", JStr (u16 "smtp"));
                          (u16 "smtpPass", JStr (u16 "abcd••••••••••••"))]))
                {| db := Db.empty; faults := [] |})))
    (u16 "local")
  = JObj [(u16 "provider", JStr (u16 "smtp"))] /\
  get_prop
    (existing_config
       (db (snd (handle (u16 "local")
                   (PutEmailConfig
                      (JObj [(u16 "provider", JStr (u16 "smtp"));
                             (u16 "smtpPass", JStr (u16 "abcd••••••••••••"))]))
                   saved_world)))
       (u16 "local"))
    (u16 "smtpPass")
  = Some (JStr (u16 "hunter2-secret")).
Proof. split; vm_compute; reflexivity. Qed.

(** Outside the documented shape a secret may be stored as an array.
    When an element of the array has no conversion to a string,
    [maskConfig] throws and GET /api/email/config answers [null]: no
    field of the configuration is returned. *)
Definition untyped_config : json :=
  JObj [(u16 "provider", JStr (u16 "smtp"));
        (u16 "smtpPass", JStr (u16 "hunter2-secret"));
        (u16 "mailgunApiKey", JArr [JObj [(u16 "toString", JBool true)]])].

Example untyped_secret_answers_null :
  express_json (sent untyped_config) = Body untyped_config /\
  get_api_email_config (u16 "local")
    (snd (handle (u16 "local") (PutEmailConfig untyped_config)
            {| db := Db.empty; faults := [] |}))
  = (Json 200 JNull,
     snd (handle (u16 "local") (PutEmailConfig untyped_config)
            {| db := Db.empty; faults := [] |})).
Proof. split; vm_compute; reflexivity. Qed.

(** ** server.js: month keys *)

(** Every stored monthly record has a key of the form YYYY-MM. *)
Definition month_keys_valid (d : database) : Prop :=
  forall r, In r (monthly_data d) -> month_key_ok (snd (fst r)) = true.

(** The worlds the storage operations reach from an empty database. *)
Inductive reachable : world -> Prop :=
| reach_empty (fs : list bool) : reachable {| db := empty; faults := fs |}
| reach_put_month (u k : text) (body : json) (w : world) :
    reachable w -> reachable (snd (put_api_months_key u k body w))
| reach_import (u : text) (body : json) (w : world) :
    reachable w -> reachable (snd (post_api_import u body w))
| reach_delete (u k : text) (w : world) :
    reachable w -> reachable (snd (delete_api_months_key u k w)).

(** The single-month write keeps the keys valid: an invalid key is
    answered with 400 and nothing is written. *)
Lemma put_month_keeps_keys_valid (u k : text) (body : json) (w : world) :
  month_keys_valid (db w) ->
  month_keys_valid (db (snd (put_api_months_key u k body w))).
Proof.
  intros V. unfold put_api_months_key.
  destruct (json_body body); cbn [negb]; [|exact V].
  destruct (month_key_ok k) eqn:K; cbn [negb]; [|exact V].
  unfold respond, mbind, ret.
  destruct (hd false (faults w)) eqn:F.
  - rewrite run_fault by exact F. exact V.
  - rewrite run_ok by exact F. cbn [snd db].
    intros r H. unfold setMonth in H. cbn [monthly_data] in H.
    unfold replace_row in H. apply in_app_or in H as [H | H].
    + apply filter_In in H as [H _]. apply V; exact H.
    + destruct H as [<- | []]. exact K.
Qed.

Lemma put_month_rejects_bad_key (u k : text) (body : json) (w : world) :
  json_body body = true ->
  month_key_ok k = false ->
  put_api_months_key u k body w
  = (Json 400 (error_body "Invalid month key (expected YYYY-MM)"), w).
Proof.
  intros B K. unfold put_api_months_key. rewrite B, K. reflexivity.
Qed.

(** A body that is no object and no array is refused by the body parser
    before the key is looked at, and nothing is written. *)
Lemma put_month_refuses_primitive (u k : text) (body : json) (w : world) :
  json_body body = false ->
  put_api_months_key u k body w = (Refused 400, w).
Proof. intros B. unfold put_api_months_key. rewrite B. reflexivity. Qed.

Lemma delete_month_keeps_keys_valid (u k : text) (w : world) :
  month_keys_valid (db w) ->
  month_keys_valid (db (snd (delete_api_months_key u k w))).
Proof.
  intros V. unfold delete_api_months_key, respond, mbind, ret.
  destruct (hd false (faults w)) eqn:F.
  - rewrite run_fault by exact F. exact V.
  - rewrite run_ok by exact F. cbn [snd db].
    intros r H. unfold deleteMonth in H. cbn [monthly_data] in H.
    unfold delete_row in H. apply filter_In in H as [H _]. apply V; exact H.
Qed.

(** C5 fails on the code: POST /api/import writes the month keys of the
    batch without the test that PUT /api/months/:key applies.  After the
    import of [{"monthly": {"someday": {}}}] into an empty database, the
    record stored under the key [someday] is read back, and the key is
    not of the form YYYY-MM. *)
Theorem import_stores_unvalidated_month_key :
  exists w,
    reachable w /\
    ~ month_keys_valid (db w) /\
    w = snd (post_api_import (u16 "local")
               (JObj [(u16 "monthly", JObj [(u16 "someday", JObj [])])])
               {| db := empty; faults := [] |}) /\
    getMonth (db w) (u16 "local") (u16 "someday") = Some (u16 "{}") /\
    month_key_ok (u16 "someday") = false /\
    fst (put_api_months_key (u16 "local") (u16 "someday") (JObj [])
           {| db := empty; faults := [] |})
    = Json 400 (error_body "Invalid month key (expected YYYY-MM)").
Proof.
  exists (snd (post_api_import (u16 "local")
                 (JObj [(u16 "monthly", JObj [(u16 "someday", JObj [])])])
                 {| db := empty; faults := [] |})).
  split; [apply reach_import, (reach_empty [])|].
  split.
  - intros V. specialize (V (u16 "local", u16 "someday", u16 "{}")).
    assert (X : month_key_ok (u16 "someday") = true).
    { apply V. vm_compute. left. reflexivity. }
    vm_compute in X. discriminate.
  - split; [reflexivity|]. repeat split; vm_compute; reflexivity.
Qed.

(** ** server.js: reads of rows that do not parse *)

Lemma months_fold_absent (key : text) (rows : list (text * text)) :
  (forall d, In (key, d) rows -> parse d = None) ->
  forall acc, lookup key acc = None ->
  lookup key
    (fold_left (fun ms r => match parse (snd r) with
                            | Some v => assign ms (fst r) (Some v)
                            | None => ms
                            end) rows acc) = None.
Proof.
  induction rows as [|[k d] rows IH]; intros Hrows acc Hacc; simpl.
  - exact Hacc.
  - apply IH.
    + intros d' H. apply Hrows. right. exact H.
    + destruct (parse d) as [v|] eqn:P; [|exact Hacc].
      unfold assign. destruct (JsString.eqb k (u16 "__proto__")); [exact Hacc|].
      rewrite lookup_obj_set. destruct (JsString.eqb key k) eqn:E; [|exact Hacc].
      apply eqb_eq in E; subst k.
      rewrite (Hrows d (or_introl eq_refl)) in P. discriminate.
Qed.

Lemma state_fold_raw (key data : text) (rows : list (text * text)) :
  JsString.eqb key (u16 "__proto__") = false ->
  parse data = None ->
  (forall d, In (key, d) rows -> d = data) ->
  forall acc, In (key, data) rows \/ lookup key acc = Some (JStr data) ->
  lookup key
    (fold_left (fun st r => match parse (snd r) with
                            | Some v => assign st (fst r) (Some v)
                            | None => assign st (fst r) (Some (JStr (snd r)))
                            end) rows acc) = Some (JStr data).
Proof.
  intros NP P. induction rows as [|[k d] rows IH]; intros Hrows acc H; simpl.
  - destruct H as [[] | H]. exact H.
  - apply IH.
    + intros d' H'. apply Hrows. right. exact H'.
    + destruct (JsString.eqb key k) eqn:E.
      * apply eqb_eq in E; subst k. right.
        rewrite (Hrows d (or_introl eq_refl)), P.
        rewrite lookup_assign by exact NP. rewrite eqb_refl. reflexivity.
      * destruct H as [[H | H] | H].
        -- inversion H; subst. rewrite eqb_refl in E. discriminate.
        -- left. exact H.
        -- right. assert (NK : forall x, lookup key (assign acc k x) = Some (JStr data)).
           { intros x. unfold assign.
             destruct (JsString.eqb k (u16 "__proto__")); [exact H|].
             destruct x as [x|].
             - rewrite lookup_obj_set, E. exact H.
             - rewrite lookup_obj_delete, E. exact H. }
           destruct (parse d); apply NK.
Qed.

(** C6 (amended).  A stored payload that fails to deserialize never
    makes a read fail: GET /api/months/:key answers the empty object,
    GET /api/months leaves the entry out of its answer, and
    GET /api/state answers the raw stored text as the value of the
    entry. *)
Theorem lenient_reads (w : world) (userId key data : text) :
  parse data = None ->
  (getMonth (db w) userId key = Some data ->
   get_api_months_key userId key w = (Json 200 (JObj []), w)) /\
  ((forall d, In (key, d) (getAllMonths (db w) userId) -> parse d = None) ->
   exists months,
     get_api_months userId w = (Json 200 (JObj months), w) /\
     lookup key months = None) /\
  (JsString.eqb key (u16 "__proto__") = false ->
   In (key, data) (getAllState (db w) userId) ->
   (forall d, In (key, d) (getAllState (db w) userId) -> d = data) ->
   exists state,
     get_api_state userId w = (Json 200 (JObj state), w) /\
     lookup key state = Some (JStr data)).
Proof.
  intros P. split; [|split].
  - intros G. unfold get_api_months_key. rewrite G, P. reflexivity.
  - intros H. eexists. split; [reflexivity|].
    apply months_fold_absent; [exact H | reflexivity].
  - intros NP Hin Huniq. eexists. split; [reflexivity|].
    apply (state_fold_raw key data _ NP P Huniq). left. exact Hin.
Qed.

Definition corrupt_world : world :=
  {| db := {| user_state := [(u16 "local", u16 "people", u16 "oops")];
              email_config := [];
              monthly_data := [(u16 "local", u16 "2026-03", u16 "oops")] |};
     faults := [] |}.

Lemma lenient_reads_witness :
  (getMonth (db corrupt_world) (u16 "local") (u16 "2026-03") = Some (u16 "oops") ->
   get_api_months_key (u16 "local") (u16 "2026-03") corrupt_world
   = (Json 200 (JObj []), corrupt_world)) /\
  ((forall d, In (u16 "2026-03", d) (getAllMonths (db corrupt_world) (u16 "local")) ->
      parse d = None) ->
   exists months,
     get_api_months (u16 "local") corrupt_world
     = (Json 200 (JObj months), corrupt_world) /\
     lookup (u16 "2026-03") months = None) /\
  (JsString.eqb (u16 "2026-03") (u16 "__proto__") = false ->
   In (u16 "2026-03", u16 "oops") (getAllState (db corrupt_world) (u16 "local")) ->
   (forall d, In (u16 "2026-03", d) (getAllState (db corrupt_world) (u16 "local")) ->
      d = u16 "oops") ->
   exists state,
     get_api_state (u16 "local") corrupt_world
     = (Json 200 (JObj state), corrupt_world) /\
     lookup (u16 "2026-03") state = Some (JStr (u16 "oops"))).
Proof.
  apply (lenient_reads corrupt_world (u16 "local") (u16 "2026-03") (u16 "oops")).
  vm_compute. reflexivity.
Defined.

(** C6, as stated, fails for GET /api/state: the stored text [oops] does
    not parse, and the answer carries it under its key. *)
Lemma get_state_surfaces_raw_text :
  parse (u16 "oops") = None /\
  getAllState (db corrupt_world) (u16 "local") = [(u16 "people", u16 "oops")] /\
  get_api_state (u16 "local") corrupt_world
  = (Json 200 (JObj [(u16 "people", JStr (u16 "oops"))]), corrupt_world).
Proof. repeat split; vm_compute; reflexivity. Qed.

(** ** emailTemplate.js *)

(** The Number 144.99, the binary64 value nearest to the decimal. *)
Definition n144_99 : number := S754_finite false 5101382109159752 (-45).

Lemma n144_99_literal : parse (u16 "144.99") = Some (JNum n144_99).
Proof. vm_compute. reflexivity. Qed.

Lemma n144_99_toFixed : toFixed n144_99 2 = u16 "144.99".
Proof. vm_compute. reflexivity. Qed.

Lemma concat_In_substring (x : jsstring) (l : list jsstring) :
  In x l -> substring x (List.concat l).
Proof.
  intros H. apply in_split in H as [l1 [l2 ->]].
  exists (List.concat l1), (List.concat l2).
  rewrite concat_app. reflexivity.
Qed.

Lemma substring_skip (t p s : jsstring) :
  substring t s -> substring t (p ++ s).
Proof.
  intros [pre [post ->]]. exists (p ++ pre), post.
  rewrite <- app_assoc. reflexivity.
Qed.

Lemma substring_here (a b c rest : jsstring) :
  substring (a ++ b ++ c) (a ++ b ++ c ++ rest).
Proof. exists [], rest. rewrite <- !app_assoc. reflexivity. Qed.

(** The lines of a text: its pieces between line feeds. *)
Fixpoint split_lines (s : jsstring) : list jsstring :=
  match s with
  | [] => [[]]
  | c :: r =>
      if N.eqb c 10 then [] :: split_lines r
      else match split_lines r with
           | l :: ls => (c :: l) :: ls
           | [] => [[c]]
           end
  end.

Lemma split_lines_cons (s : jsstring) :
  exists l ls, split_lines s = l :: ls.
Proof.
  destruct s as [|c r]; simpl; [eauto|].
  destruct (N.eqb c 10); [eauto|].
  destruct (split_lines r); eauto.
Qed.

Lemma split_lines_app (a b : jsstring) :
  split_lines (a ++ nl ++ b) = split_lines a ++ split_lines b.
Proof.
  induction a as [|c a IH]; [reflexivity|].
  cbn [app split_lines]. destruct (N.eqb c 10).
  - rewrite IH. reflexivity.
  - rewrite IH. destruct (split_lines_cons a) as [l [ls ->]]. reflexivity.
Qed.

Lemma split_lines_join (l : list jsstring) :
  l <> [] -> split_lines (join nl l) = List.concat (map split_lines l).
Proof.
  induction l as [|s l IH]; [congruence|]. intros _.
  destruct l as [|s' l'].
  - simpl. rewrite app_nil_r. reflexivity.
  - change (join nl (s :: s' :: l')) with (s ++ nl ++ join nl (s' :: l')).
    rewrite split_lines_app, IH by discriminate. reflexivity.
Qed.

(** An element of the joined array that holds no line feed is a line of
    the text. *)
Lemma line_of_join (x : jsstring) (l : list jsstring) :
  In x l -> split_lines x = [x] -> In x (split_lines (join nl l)).
Proof.
  intros H S. rewrite split_lines_join by (destruct l; [destruct H | discriminate]).
  apply in_concat. exists [x]. split; [|left; reflexivity].
  rewrite <- S. apply in_map. exact H.
Qed.

(** The serialized name property, as it precedes the token. *)
Definition name_part (personName : option jsstring) : jsstring :=
  match personName with
  | Some n => quote (u16 "name") ++ [58%N] ++ quote n ++ [44%N]
  | None => []
  end.

Definition zelle_tail : jsstring :=
  quote (u16 "token") ++ [58%N] ++ quote (u16 "555-1234") ++ [44%N]
  ++ quote (u16 "amount") ++ [58%N] ++ quote (u16 "144.99") ++ [125%N].

(** Concatenations brought to their right-nested form. *)
Ltac app_norm := repeat first [rewrite <- app_assoc | progress (cbn [app])].

Lemma zelle_object_text (pn : option jsstring) :
  stringify (zelle_object pn (u16 "555-1234") n144_99)
  = [123%N] ++ name_part pn ++ zelle_tail.
Proof.
  unfold zelle_object, name_part, zelle_tail. rewrite n144_99_toFixed.
  destruct pn as [n|]; cbn [stringify app]; app_norm; reflexivity.
Qed.

Lemma zelle_tail_encoded :
  encodeURIComponent zelle_tail
  = Ok (u16 "%22token%22%3A%22555-1234%22%2C%22amount%22%3A%22144.99%22%7D").
Proof. vm_compute. reflexivity. Qed.

Lemma name_part_well_formed (pn : option jsstring) :
  well_formed (name_part pn) = true.
Proof.
  unfold name_part. destruct pn as [n|]; [|reflexivity].
  apply well_formed_app; [apply quote_well_formed|].
  cbn [app]. rewrite well_formed_cons by reflexivity.
  apply well_formed_app; [apply quote_well_formed | reflexivity].
Qed.

Lemma zelle_data (pn : option jsstring) :
  exists d,
    encodeURIComponent (name_part pn) = Ok d /\
    encodeURIComponent (stringify (zelle_object pn (u16 "555-1234") n144_99))
    = Ok (u16 "%7B" ++ d
            ++ u16 "%22token%22%3A%22555-1234%22%2C%22amount%22%3A%22144.99%22%7D").
Proof.
  destruct (encode_app (name_part pn) zelle_tail (name_part_well_formed pn))
    as [d [E1 E2]].
  exists d. split; [exact E1|].
  rewrite zelle_object_text. cbn [app encodeURIComponent].
  change (unreserved 123) with false.
  change (is_low_surrogate 123) with false.
  change (is_high_surrogate 123) with false.
  cbv iota. rewrite E2, zelle_tail_encoded. reflexivity.
Qed.

Ltac find_piece := repeat first [left; reflexivity | right].

Ltac find_substring := repeat first [apply substring_here | apply substring_skip].

(** C8.  With payment method [zelle], payment identifier ["555-1234"]
    and total 144.99, whatever the other options are, [buildEmailHtml]
    returns an HTML payload that contains, between quotes, the Zelle
    URL [https://enroll.zellepay.com/qr-codes?data=...] whose data is
    the percent-encoded JSON object with the token [555-1234] and the
    amount ["144.99"], and a text payload one line of which is
    [Please pay via Zelle to 555-1234.]. *)
Theorem zelle_email (opts : options) :
  payMethod opts = Some (u16 "zelle") ->
  payId opts = Some (u16 "555-1234") ->
  total opts = n144_99 ->
  exists html text name_data,
    buildEmailHtml opts = Ok (html, text) /\
    encodeURIComponent (name_part (personName opts)) = Ok name_data /\
    substring
      (dq ++ (u16 "https://enroll.zellepay.com/qr-codes?data="
              ++ u16 "%7B" ++ name_data
              ++ u16 "%22token%22%3A%22555-1234%22%2C%22amount%22%3A%22144.99%22%7D")
          ++ dq) html /\
    In (u16 "Please pay via Zelle to 555-1234.") (split_lines text).
Proof.
  intros Hm Hp Ht.
  destruct (zelle_data (personName opts)) as [d [E1 E2]].
  assert (C : eq_lit (Some (u16 "zelle")) "zelle"
              && truthy_str (Some (u16 "555-1234")) = true)
    by (vm_compute; reflexivity).
  unfold buildEmailHtml. rewrite Hm, Hp, Ht. cbv zeta. rewrite C.
  cbn [str]. rewrite E2. cbn [bind].
  eexists. eexists. exists d. split; [reflexivity|]. split; [exact E1|]. split.
  - apply substring_trans with
      (b := zelle_button (default (accentColor opts) "#a8e063")
              (u16 "https://enroll.zellepay.com/qr-codes?data="
               ++ u16 "%7B" ++ d
               ++ u16 "%22token%22%3A%22555-1234%22%2C%22amount%22%3A%22144.99%22%7D")
              (u16 "555-1234") n144_99).
    + unfold zelle_button. cbn [List.concat]. find_substring.
    + apply concat_In_substring. unfold html_pieces. find_piece.
  - apply line_of_join; [|vm_compute; reflexivity].
    apply in_or_app; right. apply in_or_app; right.
    do 4 right. left. vm_compute. reflexivity.
Qed.

Definition zelle_options : options :=
  {| greeting := None;
     personName := Some (u16 "Dad");
     accentColor := None;
     monthLabel := Some (u16 "March 2026");
     bills := [{| name := u16 "Electric";
                  amount := S754_finite false 5981343255101440 (-46) |};
               {| name := u16 "Internet";
                  amount := S754_finite false 8442841926436127 (-47) |}];
     total := n144_99;
     payMethod := Some (u16 "zelle");
     payId := Some (u16 "555-1234");
     fromName := None |}.

Lemma zelle_email_witness :
  exists html text name_data,
    buildEmailHtml zelle_options = Ok (html, text) /\
    encodeURIComponent (name_part (personName zelle_options)) = Ok name_data /\
    substring
      (dq ++ (u16 "https://enroll.zellepay.com/qr-codes?data="
              ++ u16 "%7B" ++ name_data
              ++ u16 "%22token%22%3A%22555-1234%22%2C%22amount%22%3A%22144.99%22%7D")
          ++ dq) html /\
    In (u16 "Please pay via Zelle to 555-1234.") (split_lines text).
Proof.
  apply (zelle_email zelle_options); reflexivity.
Defined.

(** The handle of the Venmo link: [payId.replace('@', '')] removes the
    first [@] of the identifier, wherever it stands. *)
Lemma handle_leading_at (h : jsstring) :
  replace (64%N :: h) (u16 "@") [] = h.
Proof. reflexivity. Qed.

Lemma handle_without_at (s : jsstring) :
  ~ In 64%N s -> replace s (u16 "@") [] = s.
Proof.
  induction s as [|c s IH]; intros H; [reflexivity|].
  change (u16 "@") with [64%N] in *. cbn [replace starts_with].
  destruct (N.eqb 64 c) eqn:E.
  - apply N.eqb_eq in E. exfalso. apply H. left. symmetry. exact E.
  - cbn [andb]. rewrite IH; [reflexivity|].
    intros X. apply H. right. exact X.
Qed.

Lemma handle_inner_at (a b : jsstring) :
  ~ In 64%N a -> replace (a ++ 64%N :: b) (u16 "@") [] = a ++ b.
Proof.
  induction a as [|c a IH]; intros H; [reflexivity|].
  change (u16 "@") with [64%N] in *. cbn [app replace starts_with].
  destruct (N.eqb 64 c) eqn:E.
  - apply N.eqb_eq in E. exfalso. apply H. left. symmetry. exact E.
  - cbn [andb]. rewrite IH; [reflexivity|].
    intros X. apply H. right. exact X.
Qed.

Lemma join_In_substring (sep x : jsstring) (l : list jsstring) :
  In x l -> substring x (join sep l).
Proof.
  induction l as [|s l IH]; intros H; [destruct H|].
  destruct l as [|s' l'].
  - destruct H as [-> | []]. exists [], []. simpl. rewrite app_nil_r. reflexivity.
  - change (join sep (s :: s' :: l')) with (s ++ sep ++ join sep (s' :: l')).
    destruct H as [-> | H].
    + exists [], (sep ++ join sep (s' :: l')). reflexivity.
    + apply substring_skip, substring_skip, IH. exact H.
Qed.

Lemma encode_well_formed (s : jsstring) :
  well_formed s = true -> exists t, encodeURIComponent s = Ok t.
Proof.
  intros W. destruct (encode_app s [] W) as [t [E _]]. exists t. exact E.
Qed.

(** The Venmo branch: for a non-empty identifier and a month label
    without unpaired surrogates, the HTML payload holds the charge link
    with the handle, the total in two-decimal form and the encoded note
    [Bills <month label>], and the text payload holds the handle. *)
Lemma venmo_email (opts : options) (p : jsstring) :
  payMethod opts = Some (u16 "venmo") ->
  payId opts = Some p -> p <> [] ->
  well_formed (str (monthLabel opts)) = true ->
  exists html text note,
    buildEmailHtml opts = Ok (html, text) /\
    encodeURIComponent (u16 "Bills " ++ str (monthLabel opts)) = Ok note /\
    substring
      (dq ++ (u16 "https://venmo.com/" ++ replace p (u16 "@") []
              ++ u16 "?txn=charge&amount=" ++ toFixed (total opts) 2
              ++ u16 "&note=" ++ note) ++ dq) html /\
    substring
      (u16 "Please pay via Venmo @" ++ replace p (u16 "@") [] ++ u16 ".") text.
Proof.
  intros Hm Hp Hne W.
  destruct (encode_well_formed (u16 "Bills " ++ str (monthLabel opts)))
    as [note E].
  { apply well_formed_app; [reflexivity | exact W]. }
  assert (C1 : eq_lit (Some (u16 "venmo")) "zelle" = false)
    by (vm_compute; reflexivity).
  assert (C2 : eq_lit (Some (u16 "venmo")) "venmo" = true)
    by (vm_compute; reflexivity).
  assert (C3 : truthy_str (Some p) = true)
    by (destruct p; [congruence | reflexivity]).
  unfold buildEmailHtml. rewrite Hm, Hp. cbv zeta. rewrite C1, C2, C3.
  cbn [andb str]. rewrite E. cbn [bind].
  eexists. eexists. exists note. split; [reflexivity|]. split; [reflexivity|]. split.
  - apply substring_trans with
      (b := venmo_button (default (accentColor opts) "#a8e063")
              (u16 "https://venmo.com/" ++ replace p (u16 "@") []
               ++ u16 "?txn=charge&amount=" ++ toFixed (total opts) 2
               ++ u16 "&note=" ++ note)
              (replace p (u16 "@") []) (total opts)).
    + unfold venmo_button. cbn [List.concat]. find_substring.
    + apply concat_In_substring. unfold html_pieces. find_piece.
  - apply join_In_substring.
    apply in_or_app; right. apply in_or_app; right.
    do 4 right. left. reflexivity.
Qed.

Definition venmo_options : options :=
  {| greeting := None;
     personName := Some (u16 "Dad");
     accentColor := None;
     monthLabel := Some (u16 "March 2026");
     bills := [];
     total := n144_99;
     payMethod := Some (u16 "venmo");
     payId := Some (u16 "pay@me");
     fromName := None |}.

(** C9 fails on the code where the identifier holds an [@] that is not
    leading: for ["pay@me"] the claim asks for the handle [pay@me], and
    the link and the text are built with [payme]. *)
Theorem venmo_handle_drops_inner_at :
  replace (u16 "pay@me") (u16 "@") [] = u16 "payme" /\
  exists html text,
    buildEmailHtml venmo_options = Ok (html, text) /\
    includes html
      (u16 "https://venmo.com/payme?txn=charge&amount=144.99&note=Bills%20March%202026")
    = true /\
    includes html (u16 "https://venmo.com/pay@me") = false /\
    In (u16 "Please pay via Venmo @payme.") (split_lines text).
Proof.
  split; [vm_compute; reflexivity|].
  destruct (buildEmailHtml venmo_options) as [[html text]|e] eqn:B;
    [|vm_compute in B; discriminate].
  exists html, text. split; [reflexivity|].
  assert (H : includes html
      (u16 "https://venmo.com/payme?txn=charge&amount=144.99&note=Bills%20March%202026")
    = true /\
    includes html (u16 "https://venmo.com/pay@me") = false /\
    split_lines text =
    [u16 "Hi Dad,"; []; u16 "Here's your share of the bills for March 2026:";
     []; []; u16 "  " ++ JsString.repeat (u16 "─") 30;
     u16 "  Total you owe:         $144.99"; [];
     u16 "Please pay via Venmo @payme."; []; u16 "Thanks, BillFlow"]).
  { vm_compute in B. inversion B; subst html text.
    repeat split; vm_compute; reflexivity. }
  destruct H as [H1 [H2 H3]]. split; [exact H1|]. split; [exact H2|].
  rewrite H3. do 8 right. left. reflexivity.
Qed.

(** ** Month records: PUT then GET *)

(** C4 (amended).  For every tenant, every month key of the form
    YYYY-MM and every request body the JSON parser of the server lets
    through (the text of an object or of an array, in a request of at
    most 2mb), when the INSERT OR REPLACE statement is not refused:
    PUT /api/months/:key answers [{ok: true}], and GET /api/months/:key
    then answers the value that the text stored for the body denotes,
    which is the body with every negative zero turned into [0] and every
    number that is not finite turned into [null].  The answer is exactly
    the body that was written if and only if the body holds no such
    number. *)
Theorem month_round_trip (userId key : text) (p : payload) (body : json)
  (w : world) :
  month_key_ok key = true ->
  express_json p = Body body ->
  hd false (faults w) = false ->
  let written := route p (put_api_months_key userId key) w in
  fst written = Json 200 ok_true /\
  get_api_months_key userId key (snd written)
  = (Json 200 (canon body), snd written) /\
  (canon body = body <-> serializable body).
Proof.
  intros K E H written. destruct (express_json_Body p body E) as [B [W _]].
  subst written. rewrite (route_Body p body _ w E).
  unfold put_api_months_key. rewrite B, K. cbn [negb].
  unfold respond, mbind, ret. rewrite (run_ok _ w H). cbn [fst snd].
  split; [reflexivity|]. split.
  - unfold get_api_months_key, getMonth, setMonth. cbn [db monthly_data].
    rewrite select_row_replace_row, !eqb_refl. cbn [andb option_map].
    rewrite read_text_stringify, (parse_stringify_canon _ W). reflexivity.
  - split.
    + intros C. rewrite <- C. apply canon_serializable. exact W.
    + apply canon_fixed.
Qed.

(** A month record as the front end saves it. *)
Definition month_record : json :=
  JObj [(u16 "bills",
         JArr [JObj [(u16 "name", JStr (u16 "Electric"));
                     (u16 "amount", JNum n144_99)]]);
        (u16 "paid", JBool true);
        (u16 "note", JNull)].

Lemma month_record_accepted :
  express_json (sent month_record) = Body month_record.
Proof. vm_compute. reflexivity. Defined.

Lemma month_round_trip_witness :
  fst (route (sent month_record)
         (put_api_months_key (u16 "local") (u16 "2026-03"))
         {| db := Db.empty; faults := [] |}) = Json 200 ok_true /\
  get_api_months_key (u16 "local") (u16 "2026-03")
    (snd (route (sent month_record)
            (put_api_months_key (u16 "local") (u16 "2026-03"))
            {| db := Db.empty; faults := [] |}))
  = (Json 200 (canon month_record),
     snd (route (sent month_record)
            (put_api_months_key (u16 "local") (u16 "2026-03"))
            {| db := Db.empty; faults := [] |})) /\
  (canon month_record = month_record <-> serializable month_record).
Proof.
  apply (month_round_trip (u16 "local") (u16 "2026-03") (sent month_record)
           month_record {| db := Db.empty; faults := [] |}).
  - reflexivity.
  - exact month_record_accepted.
  - reflexivity.
Defined.

(** The record of the witness is read back as it was written. *)
Example month_record_read_back :
  get_api_months_key (u16 "local") (u16 "2026-03")
    (snd (route (sent month_record)
            (put_api_months_key (u16 "local") (u16 "2026-03"))
            {| db := Db.empty; faults := [] |}))
  = (Json 200 month_record,
     {| db := {| user_state := []; email_config := [];
                 monthly_data := [(u16 "local", u16 "2026-03",
                                   stringify month_record)] |};
        faults := [] |}).
Proof. vm_compute. reflexivity. Qed.

(** C4, as stated, fails.  The string [hello] is a JSON-serializable
    value; the PUT that carries its text is refused by the parser with
    400, nothing is stored, and the GET that follows answers the empty
    object. *)
Lemma month_string_not_read_back :
  serializable (JStr (u16 "hello")) /\
  month_key_ok (u16 "2026-03") = true /\
  sent (JStr (u16 "hello"))
  = {| octets := 7; decoded := quote (u16 "hello") |} /\
  parse (quote (u16 "hello")) = Some (JStr (u16 "hello")) /\
  route (sent (JStr (u16 "hello")))
    (put_api_months_key (u16 "local") (u16 "2026-03"))
    {| db := Db.empty; faults := [] |}
  = (Refused 400, {| db := Db.empty; faults := [] |}) /\
  get_api_months_key (u16 "local") (u16 "2026-03")
    (snd (route (sent (JStr (u16 "hello")))
            (put_api_months_key (u16 "local") (u16 "2026-03"))
            {| db := Db.empty; faults := [] |}))
  = (Json 200 (JObj []), {| db := Db.empty; faults := [] |}).
Proof.
  split; [constructor|]. repeat split; vm_compute; reflexivity.
Qed.

(** A number, a boolean and [null] are refused in the same way. *)
Example month_primitive_refused :
  forall v, json_wf v -> json_body v = false ->
  (octets (sent v) <= limit)%N ->
  forall userId key w,
    route (sent v) (put_api_months_key userId key) w = (Refused 400, w).
Proof.
  intros v W B L userId key w. unfold route, express_json.
  apply N.ltb_ge in L. rewrite L. cbn [decoded sent].
  rewrite (parse_stringify_canon _ W), json_body_canon, B.
  destruct (stringify_head (canon v) (canon_serializable v W)) as [c [t [E _]]].
  rewrite stringify_canon in E. rewrite E. reflexivity.
Qed.

(** The text [[-0]] is the array of the negative zero; it is stored as
    [[0]] and read back as the array of the positive zero. *)
Example negative_zero_reads_back_positive :
  express_json {| octets := 4; decoded := u16 "[-0]" |}
  = Body (JArr [JNum (S754_zero true)]) /\
  get_api_months_key (u16 "local") (u16 "2026-03")
    (snd (route {| octets := 4; decoded := u16 "[-0]" |}
            (put_api_months_key (u16 "local") (u16 "2026-03"))
            {| db := Db.empty; faults := [] |}))
  = (Json 200 (JArr [JNum (S754_zero false)]),
     {| db := {| user_state := []; email_config := [];
                 monthly_data := [(u16 "local", u16 "2026-03", u16 "[0]")] |};
        faults := [] |}).
Proof. split; vm_compute; reflexivity. Qed.

(** The text [[1e999]] is the array of Infinity; it is stored as
    [[null]] and read back as the array of [null]. *)
Example overflow_reads_back_null :
  express_json {| octets := 7; decoded := u16 "[1e999]" |}
  = Body (JArr [JNum (S754_infinity false)]) /\
  get_api_months_key (u16 "local") (u16 "2026-03")
    (snd (route {| octets := 7; decoded := u16 "[1e999]" |}
            (put_api_months_key (u16 "local") (u16 "2026-03"))
            {| db := Db.empty; faults := [] |}))
  = (Json 200 (JArr [JNull]),
     {| db := {| user_state := []; email_config := [];
                 monthly_data := [(u16 "local", u16 "2026-03", u16 "[null]")] |};
        faults := [] |}).
Proof. split; vm_compute; reflexivity. Qed.

(** A body over the limit is refused with 413, whatever it holds. *)
Example month_oversize_refused :
  forall text userId key w,
    route {| octets := limit + 1; decoded := text |}
      (put_api_months_key userId key) w = (Refused 413, w).
Proof. intros text userId key w. reflexivity. Qed.

(* ================================================================== *)
(** * Further properties *)

Local Open Scope Z_scope.

(** ** server.js: the statements a request runs are bound to its tenant *)

(** The databases a request of tenant [u] can leave behind: the write
    statements it runs all bind [u] as their [user_id]. *)
Inductive writes (u : text) (d : database) : database -> Prop :=
| writes_none : writes u d d
| writes_state (d' : database) (k v : text) :
    writes u d d' -> writes u d (setState u k v d')
| writes_month (d' : database) (k v : text) :
    writes u d d' -> writes u d (setMonth u k v d')
| writes_delete (d' : database) (k : text) :
    writes u d d' -> writes u d (deleteMonth u k d')
| writes_config (d' : database) (v : text) :
    writes u d d' -> writes u d (setEmailCfg u v d').

Lemma writes_trans (u : text) (a b c : database) :
  writes u a b -> writes u b c -> writes u a c.
Proof.
  intros Hab Hbc. induction Hbc.
  - exact Hab.
  - apply writes_state; assumption.
  - apply writes_month; assumption.
  - apply writes_delete; assumption.
  - apply writes_config; assumption.
Qed.

Lemma writes_apply_state (u : text) (l : list (jsstring * json)) (d : database) :
  writes u d (apply_state u l d).
Proof.
  unfold apply_state.
  enough (G : forall d', writes u d d' ->
            writes u d (fold_left
                          (fun d kv => setState u (fst kv) (stringify (snd kv)) d)
                          l d'))
    by (apply G, writes_none).
  induction l as [|kv l IH]; intros d' H; cbn [fold_left]; [exact H|].
  apply IH, writes_state, H.
Qed.

Lemma writes_apply_months (u : text) (l : list (jsstring * json)) (d : database) :
  writes u d (apply_months u l d).
Proof.
  unfold apply_months.
  enough (G : forall d', writes u d d' ->
            writes u d (fold_left
                          (fun d kv => setMonth u (fst kv) (stringify (snd kv)) d)
                          l d'))
    by (apply G, writes_none).
  induction l as [|kv l IH]; intros d' H; cbn [fold_left]; [exact H|].
  apply IH, writes_month, H.
Qed.

Lemma writes_run (u : text) (wr : database -> database) (w : world) :
  (forall d, writes u (db w) d -> writes u (db w) (wr d)) ->
  writes u (db w)
    (db (snd (respond (mbind (run wr) (fun _ => ret (Json 200 ok_true))) w))).
Proof.
  intros H. unfold respond, mbind, ret.
  destruct (hd false (faults w)) eqn:F.
  - rewrite run_fault by exact F. apply writes_none.
  - rewrite run_ok by exact F. apply H, writes_none.
Qed.

(** Every write route runs statements of its own tenant only. *)
Lemma handle_writes (u : text) (r : request) (w : world) :
  writes u (db w) (db (snd (handle u r w))).
Proof.
  destruct r as [body | key body | key body | key | body | body]; cbn [handle].
  - unfold put_api_state. destruct (negb (json_body body)); [apply writes_none|].
    destruct (negb (truthy (Some body)) || negb (typeof_object body));
      [apply writes_none|].
    rewrite respond_snd. pose proof (saveMany_schedule u body w) as S.
    destruct (refused_within _ w); destruct S as [_ D]; rewrite D;
      [apply writes_none | apply writes_apply_state].
  - unfold patch_api_state_key. destruct (negb (json_body body)); [apply writes_none|].
    apply writes_run.
    intros d H. apply writes_state. exact H.
  - unfold put_api_months_key. destruct (negb (json_body body)); [apply writes_none|].
    destruct (negb (month_key_ok key)); [apply writes_none|].
    apply writes_run. intros d H. apply writes_month. exact H.
  - unfold delete_api_months_key. apply writes_run.
    intros d H. apply writes_delete. exact H.
  - unfold post_api_import. destruct (negb (json_body body)); [apply writes_none|].
    destruct (get_prop_r body (u16 "state")) as [s|e]; [|apply writes_none].
    destruct (get_prop_r body (u16 "monthly")) as [m|e]; [|apply writes_none].
    rewrite respond_snd. pose proof (importAll_schedule u s m w) as S.
    destruct (refused_within _ w); destruct S as [_ D]; rewrite D;
      [apply writes_none|].
    apply writes_trans with (b := apply_state u (batch s) (db w)).
    + apply writes_apply_state.
    + apply writes_apply_months.
  - unfold put_api_email_config. destruct (negb (json_body body)); [apply writes_none|].
    destruct (negb (truthy (Some body))
              || negb (truthy (get_prop body (u16 "provider"))));
      [apply writes_none|].
    destruct (forEach secretFields _ _) as [merged|e]; [|apply writes_none].
    apply writes_run. intros d H. apply writes_config. exact H.
Qed.

(** What the statements read for a tenant. *)
Definition tenant_rows (u : text) (d : database)
  : list (text * text) * list (text * text) * option text :=
  (select_user u (user_state d), select_user u (monthly_data d),
   getEmailCfg d u).

Lemma select_user_replace_other (u u' k v : text)
  (t : list (text * text * text)) :
  u <> u' -> select_user u' (replace_row u k v t) = select_user u' t.
Proof.
  intros N. unfold select_user, replace_row.
  rewrite filter_app. cbn [filter fst].
  assert (E : JsString.eqb u' u = false) by (apply eqb_neq; congruence).
  rewrite E, app_nil_r. f_equal.
  induction t as [|x t IH]; [reflexivity|]. cbn [filter].
  destruct (same_key u k x) eqn:S; cbn [negb].
  - rewrite IH. apply same_key_eq in S.
    destruct x as [[u0 k0] v0]. cbn [fst] in *. inversion S; subst.
    rewrite E. reflexivity.
  - cbn [filter]. rewrite IH. reflexivity.
Qed.

Lemma select_user_delete_other (u u' k : text)
  (t : list (text * text * text)) :
  u <> u' -> select_user u' (delete_row u k t) = select_user u' t.
Proof.
  intros N. unfold select_user, delete_row. f_equal.
  assert (E : JsString.eqb u' u = false) by (apply eqb_neq; congruence).
  induction t as [|x t IH]; [reflexivity|]. cbn [filter].
  destruct (same_key u k x) eqn:S; cbn [negb].
  - rewrite IH. apply same_key_eq in S.
    destruct x as [[u0 k0] v0]. cbn [fst] in *. inversion S; subst.
    rewrite E. reflexivity.
  - cbn [filter]. rewrite IH. reflexivity.
Qed.

Lemma getEmailCfg_other (u u' v : text) (d : database) :
  u <> u' -> getEmailCfg (setEmailCfg u v d) u' = getEmailCfg d u'.
Proof.
  intros N. unfold getEmailCfg, setEmailCfg. cbn [email_config].
  assert (E : JsString.eqb u' u = false) by (apply eqb_neq; congruence).
  induction (email_config d) as [|x t IH]; cbn [filter app find].
  - unfold same_user. cbn [fst]. rewrite E. reflexivity.
  - destruct (same_user u x) eqn:S; cbn [negb].
    + rewrite IH. unfold same_user in *. apply eqb_eq in S.
      rewrite <- S, E. reflexivity.
    + cbn [app find]. destruct (same_user u' x); [reflexivity | exact IH].
Qed.

Lemma writes_other_tenant (u u' : text) (d d' : database) :
  u <> u' -> writes u d d' -> tenant_rows u' d' = tenant_rows u' d.
Proof.
  intros N W. induction W as [| d' k v W IH | d' k v W IH | d' k W IH | d' v W IH];
    [reflexivity | | | |]; rewrite <- IH; unfold tenant_rows;
    cbn [user_state monthly_data setState setMonth deleteMonth].
  - rewrite select_user_replace_other by exact N. reflexivity.
  - rewrite select_user_replace_other by exact N. reflexivity.
  - rewrite select_user_delete_other by exact N. reflexivity.
  - rewrite getEmailCfg_other by exact N. reflexivity.
Qed.

(** The answer of GET /api/months/:key is read off one row. *)
Lemma get_api_months_key_row (u k : text) (w w' : world) :
  getMonth (db w') u k = getMonth (db w) u k ->
  fst (get_api_months_key u k w') = fst (get_api_months_key u k w).
Proof.
  intros E. unfold get_api_months_key. rewrite E.
  destruct (getMonth (db w) u k) as [data|]; [|reflexivity].
  destruct (parse data); reflexivity.
Qed.

Lemma get_api_email_config_row (u : text) (w w' : world) :
  getEmailCfg (db w') u = getEmailCfg (db w) u ->
  fst (get_api_email_config u w') = fst (get_api_email_config u w).
Proof.
  intros E. unfold get_api_email_config. rewrite E.
  destruct (getEmailCfg (db w) u) as [config|]; [|reflexivity].
  destruct (parse config) as [cfg|]; [|reflexivity].
  destruct (maskConfig (Some cfg)); reflexivity.
Qed.


(** The single-row SELECT reads the first row of the tenant with the
    key. *)
Lemma select_row_select_user (u k : text) (t : list (text * text * text)) :
  select_row u k t =
  match find (fun r => JsString.eqb k (fst r)) (select_user u t) with
  | Some r => Some (snd r)
  | None => None
  end.
Proof.
  unfold select_row, select_user.
  induction t as [|[[u0 k0] v0] t IH]; [reflexivity|].
  cbn [find filter fst snd]. unfold same_key at 1. cbn [fst snd].
  destruct (JsString.eqb u u0); cbn [andb map find fst snd].
  - destruct (JsString.eqb k k0); [reflexivity | exact IH].
  - exact IH.
Qed.

(** X1.  Tenants are isolated: whatever write request one tenant sends
    (full-state save, settings patch, month write or delete, import,
    email configuration save), and however it ends, every read of
    another tenant answers as before: the settings, the months, each
    single month, the export, the masked email configuration, and both
    email routes. *)
Theorem tenant_isolation (u u' : text) (r : request) (w : world) :
  u <> u' ->
  fst (get_api_state u' (snd (handle u r w))) = fst (get_api_state u' w) /\
  fst (get_api_months u' (snd (handle u r w))) = fst (get_api_months u' w) /\
  (forall k, fst (get_api_months_key u' k (snd (handle u r w)))
             = fst (get_api_months_key u' k w)) /\
  (forall at_, fst (get_api_export u' at_ (snd (handle u r w)))
               = fst (get_api_export u' at_ w)) /\
  fst (get_api_email_config u' (snd (handle u r w)))
  = fst (get_api_email_config u' w) /\
  (forall net, post_api_email_test u' (snd (handle u r w)) net
               = post_api_email_test u' w net) /\
  (forall to opts net, post_api_email_send u' to opts (snd (handle u r w)) net
                       = post_api_email_send u' to opts w net).
Proof.
  intros N.
  pose proof (writes_other_tenant u u' _ _ N (handle_writes u r w)) as E.
  unfold tenant_rows in E. inversion E as [[Es Em Ec]]. clear E.
  repeat split.
  - unfold get_api_state, getAllState. cbn [fst]. rewrite Es. reflexivity.
  - unfold get_api_months, getAllMonths. cbn [fst]. rewrite Em. reflexivity.
  - intros k. apply get_api_months_key_row. unfold getMonth.
    rewrite !select_row_select_user, Em. reflexivity.
  - intros at_. unfold get_api_export, getAllState, getAllMonths. cbn [fst].
    rewrite Es, Em. reflexivity.
  - apply get_api_email_config_row. exact Ec.
  - intros net. unfold post_api_email_test. rewrite Ec. reflexivity.
  - intros to opts net. unfold post_api_email_send. rewrite Ec. reflexivity.
Qed.

(** A database that holds rows of two tenants. *)
Definition shared_world : world :=
  {| db := {| user_state := [(u16 "bob", u16 "people", u16 "[]");
                             (u16 "alice", u16 "people", u16 "[]")];
              email_config := [(u16 "bob", stringify (JObj stored_config))];
              monthly_data := [(u16 "bob", u16 "2026-03", u16 "{}")] |};
     faults := [] |}.

Lemma tenant_isolation_witness :
  fst (get_api_state (u16 "bob")
         (snd (handle (u16 "alice") (Import backup_body) shared_world)))
  = fst (get_api_state (u16 "bob") shared_world) /\
  fst (get_api_months (u16 "bob")
         (snd (handle (u16 "alice") (Import backup_body) shared_world)))
  = fst (get_api_months (u16 "bob") shared_world) /\
  (forall k, fst (get_api_months_key (u16 "bob") k
                    (snd (handle (u16 "alice") (Import backup_body) shared_world)))
             = fst (get_api_months_key (u16 "bob") k shared_world)) /\
  (forall at_, fst (get_api_export (u16 "bob") at_
                      (snd (handle (u16 "alice") (Import backup_body) shared_world)))
               = fst (get_api_export (u16 "bob") at_ shared_world)) /\
  fst (get_api_email_config (u16 "bob")
         (snd (handle (u16 "alice") (Import backup_body) shared_world)))
  = fst (get_api_email_config (u16 "bob") shared_world) /\
  (forall net, post_api_email_test (u16 "bob")
                 (snd (handle (u16 "alice") (Import backup_body) shared_world)) net
               = post_api_email_test (u16 "bob") shared_world net) /\
  (forall to opts net,
     post_api_email_send (u16 "bob") to opts
       (snd (handle (u16 "alice") (Import backup_body) shared_world)) net
     = post_api_email_send (u16 "bob") to opts shared_world net).
Proof.
  apply (tenant_isolation (u16 "alice") (u16 "bob") (Import backup_body)
           shared_world).
  vm_compute. discriminate.
Defined.

(** ** server.js: the single-month routes *)

Lemma run_answers (wr : database -> database) (w : world) :
  fst (respond (mbind (run wr) (fun _ => ret (Json 200 ok_true))) w)
  = Json 200 ok_true ->
  snd (respond (mbind (run wr) (fun _ => ret (Json 200 ok_true))) w)
  = {| db := wr (db w); faults := tl (faults w) |}.
Proof.
  unfold respond, mbind, ret. destruct (hd false (faults w)) eqn:F.
  - rewrite run_fault by exact F. discriminate.
  - rewrite run_ok by exact F. reflexivity.
Qed.

Lemma run_db (wr : database -> database) (w : world) :
  db (snd (respond (mbind (run wr) (fun _ => ret (Json 200 ok_true))) w)) = db w \/
  db (snd (respond (mbind (run wr) (fun _ => ret (Json 200 ok_true))) w))
  = wr (db w).
Proof.
  unfold respond, mbind, ret. destruct (hd false (faults w)) eqn:F.
  - rewrite run_fault by exact F. left. reflexivity.
  - rewrite run_ok by exact F. right. reflexivity.
Qed.

(** X2.  After a month delete that was answered [{ok: true}], reading
    the month answers the empty object, whether or not a record was
    stored; the other months of the tenant read as before. *)
Theorem month_delete_read (u key : text) (w : world) :
  fst (delete_api_months_key u key w) = Json 200 ok_true ->
  fst (get_api_months_key u key (snd (delete_api_months_key u key w)))
  = Json 200 (JObj []) /\
  forall k,
    JsString.eqb k key = false ->
    fst (get_api_months_key u k (snd (delete_api_months_key u key w)))
    = fst (get_api_months_key u k w).
Proof.
  intros Hok. unfold delete_api_months_key in *.
  rewrite (run_answers _ w Hok). unfold get_api_months_key, getMonth, deleteMonth.
  cbn [db monthly_data]. unfold delete_row. split.
  - rewrite select_row_filter, !eqb_refl. reflexivity.
  - intros k K. rewrite select_row_filter, K, andb_false_r.
    destruct (select_row u k (monthly_data (db w))) as [data|]; [|reflexivity].
    cbn [option_map]. destruct (parse (read_text data)); reflexivity.
Qed.

(** X3.  A month write or delete touches one record: however the
    request ends, every other month of the tenant reads as before, and
    so do the settings and the email configuration. *)
Theorem month_write_frame (u key : text) (r : request) (w : world) :
  (exists body, r = PutMonth key body) \/ r = DeleteMonth key ->
  (forall k,
     JsString.eqb k key = false ->
     fst (get_api_months_key u k (snd (handle u r w)))
     = fst (get_api_months_key u k w)) /\
  fst (get_api_state u (snd (handle u r w))) = fst (get_api_state u w) /\
  fst (get_api_email_config u (snd (handle u r w)))
  = fst (get_api_email_config u w).
Proof.
  intros R.
  assert (D : db (snd (handle u r w)) = db w \/
              (exists v, db (snd (handle u r w)) = setMonth u key v (db w)) \/
              db (snd (handle u r w)) = deleteMonth u key (db w)).
  { destruct R as [[body ->] | ->]; cbn [handle].
    - unfold put_api_months_key.
      destruct (negb (json_body body)); [left; reflexivity|].
      destruct (negb (month_key_ok key)); [left; reflexivity|].
      destruct (run_db (setMonth u key (stringify body)) w) as [E | E];
        [left; exact E | right; left; eexists; exact E].
    - unfold delete_api_months_key.
      destruct (run_db (deleteMonth u key) w) as [E | E];
        [left; exact E | right; right; exact E]. }
  split; [|split].
  - intros k K. apply get_api_months_key_row. unfold getMonth.
    destruct D as [-> | [[v ->] | ->]]; [reflexivity | |].
    + cbn [setMonth monthly_data].
      rewrite select_row_replace_row, K, andb_false_r. reflexivity.
    + cbn [deleteMonth monthly_data]. unfold delete_row.
      rewrite select_row_filter, K, andb_false_r. reflexivity.
  - unfold get_api_state, getAllState. cbn [fst].
    destruct D as [-> | [[v ->] | ->]]; reflexivity.
  - apply get_api_email_config_row.
    destruct D as [-> | [[v ->] | ->]]; reflexivity.
Qed.

(** ** server.js: the months of a tenant, in order *)

(** The value of the first row with the key. *)
Fixpoint row_of (k : text) (rows : list (text * text)) : option text :=
  match rows with
  | [] => None
  | (k', v) :: r => if JsString.eqb k k' then Some v else row_of k r
  end.

Lemma row_of_app (k : text) (a b : list (text * text)) :
  row_of k (a ++ b) =
  match row_of k a with Some v => Some v | None => row_of k b end.
Proof.
  induction a as [|[k0 v0] a IH]; [reflexivity|]. cbn [app row_of].
  destruct (JsString.eqb k k0); [reflexivity | exact IH].
Qed.

Lemma row_of_filter_other (k k' : text) (rows : list (text * text)) :
  JsString.eqb k k' = false ->
  row_of k (filter (fun r => negb (JsString.eqb k' (fst r))) rows) = row_of k rows.
Proof.
  intros N. induction rows as [|[k0 v0] rows IH]; [reflexivity|].
  cbn [filter fst row_of].
  destruct (JsString.eqb k' k0) eqn:E; cbn [negb row_of].
  - apply eqb_eq in E; subst k0. rewrite N. exact IH.
  - rewrite IH. reflexivity.
Qed.


(** ** server.js: GET /api/months *)

(** The PRIMARY KEY constraints of the three tables. *)
Definition primary_keys (d : database) : Prop :=
  NoDup (map fst (user_state d)) /\
  NoDup (map fst (email_config d)) /\
  NoDup (map fst (monthly_data d)).

(** The month a valid key names, as the number YYYYMM. *)
Definition month_number (k : text) : Z :=
  match k with
  | [a; b; c; d; _; e; f] => digits_value [a; b; c; d] * 100 + digits_value [e; f]
  | _ => 0
  end.

Lemma is_digit_bounds (c : N) : is_digit c = true -> (48 <= c <= 57)%N.
Proof.
  unfold is_digit. intros H. apply andb_true_iff in H as [H1 H2].
  apply N.leb_le in H1, H2. split; assumption.
Qed.

Lemma digit_not_surrogate (c : N) :
  (c <= 57)%N -> is_high_surrogate c = false.
Proof.
  intros H. unfold is_high_surrogate. apply andb_false_iff. left.
  apply N.leb_gt. lia.
Qed.

Lemma code_points_plain (s : jsstring) :
  Forall (fun c => (c <= 57)%N) s -> code_points s = s.
Proof.
  induction 1 as [|c s Hc Hs IH]; [reflexivity|]. cbn [code_points].
  rewrite (digit_not_surrogate c Hc), IH. reflexivity.
Qed.

(** On valid keys the BINARY collation is the order of the months. *)
Lemma text_leb_month (k k' : text) :
  month_key_ok k = true -> month_key_ok k' = true ->
  text_leb k k' = (month_number k <=? month_number k').
Proof.
  intros V V'.
  destruct k as [|a [|b [|c [|d [|h [|e [|f [|? ?]]]]]]]]; try discriminate.
  destruct k' as [|a' [|b' [|c' [|d' [|h' [|e' [|f' [|? ?]]]]]]]]; try discriminate.
  cbn [month_key_ok] in V, V'.
  repeat match goal with
         | H : _ && _ = true |- _ => apply andb_true_iff in H as [? ?]
         end.
  repeat match goal with
         | H : is_digit _ = true |- _ => apply is_digit_bounds in H
         | H : N.eqb _ 45 = true |- _ => apply N.eqb_eq in H; subst
         end.
  unfold text_leb. rewrite !code_points_plain by (repeat constructor; lia).
  cbn [lex_leb month_number]. unfold digits_value. cbn [fold_left].
  repeat match goal with
         | |- (N.ltb ?x ?y || _) = _ =>
             destruct (N.ltb_spec x y);
             [ cbn [orb]; symmetry; apply Z.leb_le; lia
             | destruct (N.eqb_spec x y);
               [ subst; cbn [orb andb]
               | cbn [orb andb]; symmetry; apply Z.leb_gt; lia ] ]
         end.
  symmetry. apply Z.leb_le. lia.
Qed.


Lemma month_number_inj (k k' : text) :
  month_key_ok k = true -> month_key_ok k' = true ->
  month_number k = month_number k' -> k = k'.
Proof.
  intros V V'.
  destruct k as [|a [|b [|c [|d [|h [|e [|f [|? ?]]]]]]]]; try discriminate.
  destruct k' as [|a' [|b' [|c' [|d' [|h' [|e' [|f' [|? ?]]]]]]]]; try discriminate.
  cbn [month_key_ok] in V, V'.
  repeat match goal with
         | H : _ && _ = true |- _ => apply andb_true_iff in H as [? ?]
         end.
  repeat match goal with
         | H : is_digit _ = true |- _ => apply is_digit_bounds in H
         | H : N.eqb _ 45 = true |- _ => apply N.eqb_eq in H; subst
         end.
  cbn [month_number]. unfold digits_value. cbn [fold_left]. intros E.
  assert (a = a' /\ b = b' /\ c = c' /\ d = d' /\ e = e' /\ f = f')
    as (-> & -> & -> & -> & -> & ->) by lia.
  reflexivity.
Qed.

Lemma month_key_no_index (k : text) :
  month_key_ok k = true ->
  array_index k = None /\ JsString.eqb k (u16 "__proto__") = false.
Proof.
  intros V.
  destruct k as [|a [|b [|c [|d [|h [|e [|f [|? ?]]]]]]]]; try discriminate.
  cbn [month_key_ok] in V.
  repeat match goal with
         | H : _ && _ = true |- _ => apply andb_true_iff in H as [? ?]
         end.
  match goal with H : N.eqb _ 45 = true |- _ => apply N.eqb_eq in H; subst end.
  split.
  - unfold array_index. cbn [forallb].
    change (is_digit 45) with false. rewrite !andb_false_r. reflexivity.
  - apply eqb_neq. intros E. apply (f_equal (@List.length N)) in E.
    vm_compute in E. discriminate.
Qed.

(** The rows of a tenant, ordered. *)
Lemma insert_sorted_perm (r : text * text) (l : list (text * text)) :
  Permutation (insert_sorted r l) (r :: l).
Proof.
  induction l as [|x l IH]; cbn [insert_sorted]; [apply Permutation_refl|].
  destruct (text_leb (fst r) (fst x)); [apply Permutation_refl|].
  apply perm_trans with (x :: r :: l); [apply perm_skip, IH | apply perm_swap].
Qed.

Lemma order_by_key_perm (l : list (text * text)) :
  Permutation (order_by_key l) l.
Proof.
  unfold order_by_key. induction l as [|x l IH]; cbn [fold_right];
    [apply perm_nil|].
  apply perm_trans with (x :: fold_right insert_sorted [] l);
    [apply insert_sorted_perm | apply perm_skip, IH].
Qed.

Definition earlier (a b : text) : Prop := month_number a < month_number b.

Lemma insert_sorted_sorted (r : text * text) (l : list (text * text)) :
  month_key_ok (fst r) = true ->
  Forall (fun x => month_key_ok (fst x) = true) l ->
  ~ In (fst r) (map fst l) ->
  StronglySorted earlier (map fst l) ->
  StronglySorted earlier (map fst (insert_sorted r l)).
Proof.
  intros Vr Vl. induction l as [|x l IH]; intros Hn S; cbn [insert_sorted map].
  - constructor; constructor.
  - inversion Vl as [|? ? Vx Vl']; subst. cbn [map] in S, Hn.
    inversion S as [|? ? S' Fx]; subst.
    assert (Ne : month_number (fst r) <> month_number (fst x)).
    { intros E. apply Hn. left. symmetry.
      apply (month_number_inj _ _ Vr Vx E). }
    destruct (text_leb (fst r) (fst x)) eqn:T;
      pose proof (eq_trans (eq_sym (text_leb_month _ _ Vr Vx)) T) as L;
      [apply Z.leb_le in L | apply Z.leb_gt in L]; cbn [map];
      unfold earlier, text in *.
    + constructor; [exact S|]. constructor; [lia|].
      apply Forall_forall. intros y Hy. rewrite Forall_forall in Fx.
      specialize (Fx y Hy). cbv beta in Fx. lia.
    + constructor.
      * apply IH; [exact Vl' | | exact S'].
        intros H. apply Hn. right. exact H.
      * apply Forall_forall. intros y Hy.
        apply (Permutation_in _ (Permutation_map fst (insert_sorted_perm r l)))
          in Hy.
        cbn [map] in Hy. destruct Hy as [<- | Hy]; [exact L|].
        rewrite Forall_forall in Fx. exact (Fx y Hy).
Qed.

Lemma order_by_key_sorted (l : list (text * text)) :
  Forall (fun x => month_key_ok (fst x) = true) l ->
  NoDup (map fst l) ->
  StronglySorted earlier (map fst (order_by_key l)).
Proof.
  unfold order_by_key. induction l as [|x l IH]; intros V N; cbn [fold_right].
  - constructor.
  - inversion V as [|? ? Vx Vl]; subst. cbn [map] in N.
    inversion N as [|? ? Nx Nl]; subst.
    apply insert_sorted_sorted.
    + exact Vx.
    + apply Forall_forall. intros y Hy.
      apply (Permutation_in _ (order_by_key_perm l)) in Hy.
      rewrite Forall_forall in Vl. exact (Vl y Hy).
    + intros H. apply Nx.
      exact (Permutation_in _ (Permutation_map fst (order_by_key_perm l)) H).
    + exact (IH Vl Nl).
Qed.


(** The write statements keep the primary keys unique. *)
Lemma NoDup_filter_keys {A B : Type} (p : A * B -> bool) (t : list (A * B)) :
  NoDup (map fst t) -> NoDup (map fst (filter p t)).
Proof.
  induction t as [|x t IH]; intros N; [constructor|].
  cbn [map] in N. inversion N as [|? ? N0 N']; subst. cbn [filter].
  destruct (p x); [|exact (IH N')].
  cbn [map]. constructor; [|exact (IH N')].
  intros H. apply N0. apply in_map_iff in H as [y [E H]].
  apply filter_In in H as [H _]. rewrite <- E. apply in_map. exact H.
Qed.

Lemma replace_row_keys (u k v : text) (t : list (text * text * text)) :
  NoDup (map fst t) -> NoDup (map fst (replace_row u k v t)).
Proof.
  intros N. unfold replace_row. rewrite map_app. cbn [map fst].
  apply NoDup_app.
  - apply NoDup_filter_keys. exact N.
  - constructor; [intros [] | constructor].
  - intros x H [<- | []]. apply in_map_iff in H as [r [E H]].
    apply filter_In in H as [_ H]. apply negb_true_iff in H.
    assert (S : same_key u k r = true) by (apply same_key_eq; exact E).
    congruence.
Qed.

Lemma primary_keys_empty : primary_keys empty.
Proof. repeat split; constructor. Qed.

Lemma writes_primary_keys (u : text) (d d' : database) :
  writes u d d' -> primary_keys d -> primary_keys d'.
Proof.
  intros W P. induction W as [| d' k v W IH | d' k v W IH | d' k W IH | d' v W IH];
    [exact P | | | |]; destruct IH as (A & B & C); repeat split;
    cbn [setState setMonth deleteMonth setEmailCfg
         user_state email_config monthly_data]; try assumption.
  - apply replace_row_keys. exact A.
  - apply replace_row_keys. exact C.
  - apply NoDup_filter_keys. exact C.
  - rewrite map_app. cbn [map fst]. apply NoDup_app.
    + apply NoDup_filter_keys. exact B.
    + constructor; [intros [] | constructor].
    + intros x H [<- | []]. apply in_map_iff in H as [r [E H]].
      apply filter_In in H as [_ H]. apply negb_true_iff in H.
      unfold same_user in H. rewrite E, eqb_refl in H. discriminate.
Qed.


(** The entries GET /api/months keeps: the rows that parse. *)
Definition parsed (rows : list (text * text)) : list (jsstring * json) :=
  flat_map (fun r => match parse (snd r) with
                     | Some v => [(fst r, v)]
                     | None => []
                     end) rows.

Lemma parsed_keys (rows : list (text * text)) (k : jsstring) :
  In k (map fst (parsed rows)) -> In k (map fst rows).
Proof.
  induction rows as [|[k0 d0] rows IH]; [intros []|].
  cbn [parsed flat_map fst snd map]. destruct (parse d0) as [v|].
  - cbn [app map fst]. intros [<- | H]; [left; reflexivity | right; exact (IH H)].
  - cbn [app]. intros H. right. exact (IH H).
Qed.

(** Valid month keys, each once, are appended in the order of the rows:
    none of them is an array index. *)
Lemma months_fold_parsed (rows : list (text * text)) :
  Forall (fun r => month_key_ok (fst r) = true) rows ->
  NoDup (map fst rows) ->
  forall acc,
    (forall k, In k (map fst rows) -> has_key k acc = false) ->
    fold_left (fun ms r => match parse (snd r) with
                           | Some v => assign ms (fst r) (Some v)
                           | None => ms
                           end) rows acc
    = acc ++ parsed rows.
Proof.
  induction rows as [|[k0 d0] rows IH]; intros V N acc F.
  - cbn [fold_left parsed flat_map]. rewrite app_nil_r. reflexivity.
  - inversion V as [|? ? V0 V']; subst. cbn [map fst] in N.
    inversion N as [|? ? N0 N']; subst. cbn [fst] in V0.
    destruct (month_key_no_index k0 V0) as [I P].
    cbn [fold_left parsed flat_map fst snd].
    destruct (parse d0) as [v|].
    + unfold assign. rewrite P. unfold obj_set.
      rewrite (F k0 (or_introl eq_refl)), I.
      rewrite (IH V' N'), <- app_assoc; [reflexivity|].
      intros k Hk. apply has_key_lookup. rewrite lookup_app.
      assert (Fk : lookup k acc = None)
        by (apply has_key_lookup, F; right; exact Hk).
      rewrite Fk. cbn [lookup].
      destruct (JsString.eqb k k0) eqn:E; [|reflexivity].
      apply eqb_eq in E; subst k0. contradiction.
    + apply (IH V' N'). intros k Hk. apply F. right. exact Hk.
Qed.

Lemma parsed_sorted (R : text -> text -> Prop) (rows : list (text * text)) :
  StronglySorted R (map fst rows) -> StronglySorted R (map fst (parsed rows)).
Proof.
  induction rows as [|[k0 d0] rows IH]; intros S; [constructor|].
  cbn [map fst] in S. inversion S as [|? ? S' F]; subst.
  cbn [parsed flat_map fst snd]. destruct (parse d0) as [v|]; cbn [app map fst].
  - constructor; [exact (IH S')|].
    apply Forall_forall. intros k Hk. rewrite Forall_forall in F.
    apply F, parsed_keys, Hk.
  - exact (IH S').
Qed.

Lemma row_of_In (k d : text) (rows : list (text * text)) :
  NoDup (map fst rows) -> (row_of k rows = Some d <-> In (k, d) rows).
Proof.
  induction rows as [|[k0 d0] rows IH]; intros N.
  - split; [discriminate | intros []].
  - cbn [map fst] in N. inversion N as [|? ? N0 N']; subst. cbn [row_of].
    destruct (JsString.eqb k k0) eqn:E.
    + apply eqb_eq in E; subst k0. split.
      * intros H; inversion H; subst. left. reflexivity.
      * intros [H | H]; [inversion H; reflexivity|].
        exfalso. apply N0. apply (in_map fst) in H. exact H.
    + rewrite (IH N'). split; [intros H; right; exact H|].
      intros [H | H]; [|exact H]. inversion H; subst.
      rewrite eqb_refl in E. discriminate.
Qed.

Lemma row_of_perm (k : text) (a b : list (text * text)) :
  Permutation a b -> NoDup (map fst b) -> row_of k a = row_of k b.
Proof.
  intros P N.
  assert (Na : NoDup (map fst a)).
  { apply (Permutation_NoDup (Permutation_sym (Permutation_map fst P))), N. }
  destruct (row_of k a) as [d|] eqn:A.
  - apply (row_of_In _ _ _ Na) in A. symmetry. apply (row_of_In _ _ _ N).
    exact (Permutation_in _ P A).
  - destruct (row_of k b) as [d|] eqn:B; [|reflexivity].
    apply (row_of_In _ _ _ N) in B.
    apply (Permutation_in _ (Permutation_sym P)) in B.
    apply (row_of_In _ _ _ Na) in B. congruence.
Qed.

Lemma parsed_lookup (k : text) (rows : list (text * text)) :
  NoDup (map fst rows) ->
  lookup k (parsed rows) =
  match row_of k rows with
  | Some data => parse data
  | None => None
  end.
Proof.
  induction rows as [|[k0 d0] rows IH]; intros N; [reflexivity|].
  cbn [map fst] in N. inversion N as [|? ? N0 N']; subst.
  cbn [parsed flat_map fst snd row_of]. fold (parsed rows).
  rewrite lookup_app. destruct (JsString.eqb k k0) eqn:E.
  - apply eqb_eq in E; subst k0. destruct (parse d0) as [v|]; cbn [lookup].
    + rewrite eqb_refl. reflexivity.
    + destruct (lookup k (parsed rows)) as [x|] eqn:L; [|reflexivity].
      exfalso. apply N0. apply parsed_keys.
      apply lookup_Some_In in L. apply (in_map fst) in L. exact L.
  - rewrite <- (IH N'). destruct (parse d0) as [v|]; cbn [lookup];
      [rewrite E|]; reflexivity.
Qed.

Lemma select_row_row_of (u k : text) (t : list (text * text * text)) :
  select_row u k t = row_of k (select_user u t).
Proof.
  rewrite select_row_select_user.
  induction (select_user u t) as [|[k0 d0] rows IH]; [reflexivity|].
  cbn [find row_of fst snd]. destruct (JsString.eqb k k0); [reflexivity | exact IH].
Qed.

Lemma select_user_keys (u : text) (t : list (text * text * text)) :
  NoDup (map fst t) -> NoDup (map fst (select_user u t)).
Proof.
  unfold select_user. induction t as [|[[u0 k0] d0] t IH]; intros N;
    [constructor|].
  cbn [map fst] in N. inversion N as [|? ? N0 N']; subst.
  cbn [filter fst snd]. destruct (JsString.eqb u u0) eqn:E; [|exact (IH N')].
  apply eqb_eq in E; subst u0. cbn [map fst snd]. constructor; [|exact (IH N')].
  intros H. apply N0. apply in_map_iff in H as [[k1 d1] [E1 H1]].
  cbn [fst] in E1; subst k1.
  apply in_map_iff in H1 as [[[u2 k2] d2] [E2 H2]]. cbn [fst snd] in E2.
  inversion E2; subst. apply filter_In in H2 as [H2 Hu]. cbn [fst] in Hu.
  apply eqb_eq in Hu; subst u2. apply (in_map fst) in H2. exact H2.
Qed.

Lemma select_user_valid (u : text) (d : database) :
  month_keys_valid d ->
  Forall (fun r => month_key_ok (fst r) = true) (select_user u (monthly_data d)).
Proof.
  intros V. apply Forall_forall. intros [k data] H. unfold select_user in H.
  apply in_map_iff in H as [[[u2 k2] d2] [E2 H2]]. cbn [fst snd] in E2.
  inversion E2; subst. apply filter_In in H2 as [H2 _].
  exact (V _ H2).
Qed.

Lemma month_key_plain (k : text) : month_key_ok k = true -> plain k.
Proof.
  intros V.
  destruct k as [|a [|b [|c [|d [|h [|e [|f [|? ?]]]]]]]]; try discriminate.
  cbn [month_key_ok] in V.
  repeat match goal with
         | H : _ && _ = true |- _ => apply andb_true_iff in H as [? ?]
         end.
  repeat match goal with
         | H : is_digit _ = true |- _ => apply is_digit_bounds in H
         | H : N.eqb _ 45 = true |- _ => apply N.eqb_eq in H; subst
         end.
  repeat constructor; lia.
Qed.

(** A valid month key is read back as it was written. *)
Lemma read_text_month_key (k : text) : month_key_ok k = true -> read_text k = k.
Proof.
  intros V. apply read_text_well_formed, plain_well_formed, month_key_plain, V.
Qed.

Lemma read_rows_keys (rows : list (text * text)) :
  Forall (fun r => month_key_ok (fst r) = true) rows ->
  map fst (map read_row rows) = map fst rows.
Proof.
  induction 1 as [|[k d] rows V _ IH]; [reflexivity|].
  cbn [map fst read_row] in *. rewrite (read_text_month_key k V), IH.
  reflexivity.
Qed.

Lemma row_of_read_rows (k : text) (rows : list (text * text)) :
  Forall (fun r => month_key_ok (fst r) = true) rows ->
  row_of k (map read_row rows) = option_map read_text (row_of k rows).
Proof.
  induction 1 as [|[k0 d0] rows V _ IH]; [reflexivity|].
  cbn [map read_row fst snd row_of] in *. rewrite (read_text_month_key k0 V).
  destruct (JsString.eqb k k0); [reflexivity | exact IH].
Qed.

(** X4.  GET /api/months lists the months of the tenant in the order
    of time: with the stored keys of the form YYYY-MM, the keys of the
    answer are strictly ascending as months, and a key is listed with
    its parsed record exactly when GET /api/months/:key would find a
    record that parses. *)
Theorem months_listed_in_order (u : text) (w : world) :
  primary_keys (db w) ->
  month_keys_valid (db w) ->
  exists months,
    get_api_months u w = (Json 200 (JObj months), w) /\
    StronglySorted earlier (map fst months) /\
    forall k,
      lookup k months = match getMonth (db w) u k with
                        | Some data => parse data
                        | None => None
                        end.
Proof.
  intros (_ & _ & PK) V.
  pose proof (select_user_keys u _ PK) as N.
  pose proof (select_user_valid u _ V) as Vr.
  pose proof (order_by_key_perm (select_user u (monthly_data (db w)))) as P.
  assert (Vs : Forall (fun r => month_key_ok (fst r) = true)
                 (order_by_key (select_user u (monthly_data (db w))))).
  { apply Forall_forall. intros r Hr. rewrite Forall_forall in Vr.
    apply Vr. exact (Permutation_in _ P Hr). }
  pose proof (read_rows_keys _ Vs) as K.
  assert (Ns : NoDup (map fst (order_by_key (select_user u (monthly_data (db w))))))
    by exact (Permutation_NoDup (Permutation_sym (Permutation_map fst P)) N).
  exists (parsed (getAllMonths (db w) u)). unfold getAllMonths. split; [|split].
  - unfold get_api_months, getAllMonths.
    rewrite months_fold_parsed; [reflexivity | | |].
    + apply Forall_forall. intros r Hr.
      apply in_map_iff in Hr as [[k0 d0] [<- Hr]]. cbn [read_row fst].
      rewrite Forall_forall in Vs. pose proof (Vs _ Hr) as Vk. cbn [fst] in Vk.
      rewrite (read_text_month_key k0 Vk). exact Vk.
    + exact (eq_ind_r (@NoDup _) Ns K).
    + reflexivity.
  - apply parsed_sorted.
    refine (eq_ind_r (StronglySorted earlier) _ K).
    apply order_by_key_sorted; assumption.
  - intros k. rewrite parsed_lookup by exact (eq_ind_r (@NoDup _) Ns K).
    rewrite (row_of_read_rows k _ Vs), (row_of_perm k _ _ P N). unfold getMonth.
    rewrite select_row_row_of.
    destruct (row_of k (select_user u (monthly_data (db w)))); reflexivity.
Qed.

(** ** server.js: backup and restore *)

(** The objects [state] and [monthly] of an export: the rows that
    parse. *)
Definition collect (rows : list (text * text)) : list (jsstring * json) :=
  fold_left (fun o r => match parse (snd r) with
                        | Some v => assign o (fst r) (Some v)
                        | None => o
                        end) rows [].

Lemma get_api_export_collect (u at_ : text) (w : world) :
  get_api_export u at_ w =
  (Json 200 (JObj [(u16 "user", JStr u); (u16 "exportedAt", JStr at_);
                   (u16 "state", JObj (collect (getAllState (db w) u)));
                   (u16 "monthly", JObj (collect (getAllMonths (db w) u)))]), w).
Proof. reflexivity. Qed.

Lemma collect_spec (rows : list (text * text)) :
  unique_keys (collect rows) /\
  lookup (u16 "__proto__") (collect rows) = None /\
  forall k v, lookup k (collect rows) = Some v ->
              exists data, In data (map snd rows) /\ parse data = Some v.
Proof.
  unfold collect.
  induction rows as [|[k0 d0] rows IH] using rev_ind.
  - split; [constructor | split; [reflexivity | discriminate]].
  - rewrite fold_left_app, map_app. cbn [fold_left fst snd map].
    destruct IH as (U & NP & V).
    assert (V' : forall k v,
               lookup k (fold_left
                           (fun o r => match parse (snd r) with
                                       | Some v => assign o (fst r) (Some v)
                                       | None => o
                                       end) rows []) = Some v ->
               exists data, In data (map snd rows ++ [d0]) /\ parse data = Some v).
    { intros k v L. destruct (V k v L) as [d [I E]].
      exists d. split; [apply in_or_app; left; exact I | exact E]. }
    destruct (parse d0) as [v0|] eqn:P; [|split; [exact U | split; [exact NP | exact V']]].
    unfold assign. destruct (JsString.eqb k0 (u16 "__proto__")) eqn:K;
      [split; [exact U | split; [exact NP | exact V']]|].
    split; [apply unique_keys_obj_set; exact U|]. split.
    + rewrite lookup_obj_set, eqb_sym, K. exact NP.
    + intros k v. rewrite lookup_obj_set. destruct (JsString.eqb k k0).
      * intros E; inversion E; subst. exists d0.
        split; [apply in_or_app; right; left; reflexivity | exact P].
      * apply V'.
Qed.

(** X5.  A backup restores what it holds.  When the document that
    GET /api/export answers for a tenant is the body of a
    POST /api/import, by any tenant and in any later state of the
    database, and the import is answered [{ok: true}], then every
    settings key of the document is stored with the text of the exported
    value, and every month of the document is read by
    GET /api/months/:key with the exported record (a negative zero in
    it read as [0]). *)
Theorem backup_restore (u u2 at_ : text) (w w2 : world) :
  exists doc state monthly,
    fst (get_api_export u at_ w) = Json 200 doc /\
    get_prop doc (u16 "state") = Some (JObj state) /\
    get_prop doc (u16 "monthly") = Some (JObj monthly) /\
    (fst (post_api_import u2 doc w2) = Json 200 ok_true ->
     (forall k v, lookup k state = Some v ->
        getState (db (snd (post_api_import u2 doc w2))) u2 k
        = Some (stringify v)) /\
     (forall k v, lookup k monthly = Some v ->
        fst (get_api_months_key u2 k (snd (post_api_import u2 doc w2)))
        = Json 200 (canon v))).
Proof.
  rewrite get_api_export_collect. cbn [fst].
  eexists. eexists. eexists. split; [reflexivity|].
  split; [reflexivity|]. split; [reflexivity|]. intros Hok.
  destruct (collect_spec (getAllState (db w) u)) as (Us & _ & _).
  destruct (collect_spec (getAllMonths (db w) u)) as (Um & _ & Vm).
  set (s := collect (getAllState (db w) u)) in *.
  set (m := collect (getAllMonths (db w) u)) in *.
  match type of Hok with
  | fst (post_api_import _ ?d _) = _ => set (doc := d) in *
  end.
  assert (D : db (snd (post_api_import u2 doc w2))
              = apply_months u2 m (apply_state u2 s (db w2))).
  { revert Hok. unfold post_api_import. cbn [json_body doc negb get_prop_r].
    change (get_prop doc (u16 "state")) with (Some (JObj s)).
    change (get_prop doc (u16 "monthly")) with (Some (JObj m)).
    unfold respond, mbind, ret.
    pose proof (importAll_schedule u2 (Some (JObj s)) (Some (JObj m)) w2) as S.
    cbn [batch truthy entries] in S.
    destruct (refused_within _ w2);
      destruct (importAll u2 _ _ w2) as [[[]|e] w']; cbn [fst snd] in *;
      destruct S as [S1 S2]; try discriminate S1; [discriminate|].
    intros _. exact S2. }
  split.
  - intros k v L. rewrite D. unfold getState. rewrite user_state_apply_months.
    apply getState_batch; [exact Us | apply lookup_Some_In; exact L].
  - intros k v L. unfold get_api_months_key.
    rewrite D, getMonth_apply_months, lookup_rev, L by exact Um.
    destruct (Vm k v L) as [data [_ P]].
    rewrite (parse_stringify_canon v (parse_wf _ _ P)). reflexivity.
Qed.


(** ** email.js and server.js: the masked configuration, saved again *)

(** Two objects with the same keys in the same order and the same
    values are the same object. *)
Lemma same_keys_lookup (a b : list (jsstring * json)) :
  map fst a = map fst b -> unique_keys a ->
  (forall k, lookup k a = lookup k b) -> a = b.
Proof.
  revert b; induction a as [|[k v] a IH]; intros [|[k' v'] b] K U L;
    try discriminate; [reflexivity|].
  cbn [map fst] in K. inversion K as [[Ek Er]]. subst k'.
  unfold unique_keys in U. cbn [map fst] in U.
  inversion U as [|? ? N U']; subst.
  pose proof (L k) as Lk. cbn [lookup] in Lk. rewrite eqb_refl in Lk.
  inversion Lk; subst v'. f_equal. apply IH; [exact Er | exact U'|].
  intros k0. specialize (L k0). cbn [lookup] in L.
  destruct (JsString.eqb k0 k) eqn:E; [|exact L].
  apply eqb_eq in E; subst k0.
  assert (A : lookup k a = None).
  { destruct (lookup k a) as [x|] eqn:X; [|reflexivity].
    apply lookup_Some_In in X. apply (in_map fst) in X. contradiction. }
  assert (B : lookup k b = None).
  { destruct (lookup k b) as [x|] eqn:X; [|reflexivity].
    apply lookup_Some_In in X. apply (in_map fst) in X. rewrite <- Er in X.
    contradiction. }
  congruence.
Qed.

Lemma obj_delete_absent (k : jsstring) (o : list (jsstring * json)) :
  has_key k o = false -> obj_delete k o = o.
Proof.
  induction o as [|[k0 v0] o IH]; [reflexivity|]. cbn [has_key obj_delete].
  intros H. apply orb_false_elim in H as [H0 H1]. rewrite H0, (IH H1).
  reflexivity.
Qed.

(** An assignment that replaces a property, or clears one that is not
    there, keeps the keys. *)
Lemma assign_keys (o : list (jsstring * json)) (k : jsstring) (v : option json) :
  has_key k o = (match v with Some _ => true | None => false end) ->
  map fst (assign o k v) = map fst o.
Proof.
  intros H. unfold assign. destruct (JsString.eqb k (u16 "__proto__"));
    [reflexivity|].
  destruct v as [x|].
  - unfold obj_set. rewrite H. apply update_keys.
  - rewrite (obj_delete_absent k o H). reflexivity.
Qed.

(** Spreading a parsed object into an empty one copies it. *)
Lemma spread_copy (o : list (jsstring * json)) :
  object_wf o -> spread [] (JObj o) = o.
Proof.
  unfold spread. cbn [entries].
  enough (G : forall l acc, object_wf (acc ++ l) ->
            fold_left (fun a kv => obj_set a (fst kv) (snd kv)) l acc = acc ++ l)
    by (intros W; apply (G o []); exact W).
  induction l as [|[k v] l IH]; intros acc W; cbn [fold_left fst snd].
  - rewrite app_nil_r. reflexivity.
  - assert (W1 : object_wf (acc ++ [(k, v)])).
    { apply (object_wf_prefix _ l). rewrite <- app_assoc. exact W. }
    rewrite (obj_set_append acc k v W1), IH, <- app_assoc; [reflexivity|].
    rewrite <- app_assoc. exact W.
Qed.

(** Spreading an object whose keys are all present replaces values. *)
Lemma spread_keys (o p : list (jsstring * json)) :
  (forall k, In k (map fst p) -> In k (map fst o)) ->
  map fst (spread o (JObj p)) = map fst o.
Proof.
  unfold spread. cbn [entries]. revert o.
  induction p as [|[k v] p IH]; intros o H; cbn [fold_left fst snd];
    [reflexivity|].
  assert (K : map fst (obj_set o k v) = map fst o).
  { unfold obj_set.
    assert (Hk : has_key k o = true)
      by (apply has_key_In, H; left; reflexivity).
    rewrite Hk. apply update_keys. }
  rewrite IH, K; [reflexivity|].
  intros k0 H0. rewrite K. apply H. right. exact H0.
Qed.

Lemma mask_field_keys (m m' : list (jsstring * json)) (f : jsstring) :
  mask_field m f = Ok m' -> map fst m' = map fst m.
Proof.
  unfold mask_field. destruct (lookup f m) as [v|] eqn:L;
    [|intros E; inversion E; reflexivity].
  destruct (truthy (Some v)); [|intros E; inversion E; reflexivity].
  destruct (mask_value v) as [v'|e]; cbn [bind]; [|discriminate].
  intros E; inversion E; subst m'. apply assign_keys.
  destruct (has_key f m) eqn:H; [reflexivity|].
  apply has_key_lookup in H. congruence.
Qed.

Lemma forEach_mask_keys (l : list jsstring) (m m' : list (jsstring * json)) :
  forEach l mask_field m = Ok m' -> map fst m' = map fst m.
Proof.
  revert m; induction l as [|f l IH]; intros m H; cbn [forEach] in H.
  - inversion H; reflexivity.
  - destruct (mask_field m f) as [m1|e] eqn:F; cbn [bind] in H; [|discriminate].
    rewrite (IH m1 H). exact (mask_field_keys m m1 f F).
Qed.

(** The masked configuration has the keys of the stored one. *)
Lemma maskConfig_keys (o m : list (jsstring * json)) :
  object_wf o -> maskConfig (Some (JObj o)) = Ok (JObj m) ->
  map fst m = map fst o.
Proof.
  intros W H. unfold maskConfig in H. cbn [truthy negb] in H.
  rewrite (spread_copy o W) in H.
  destruct (forEach secretFields mask_field o) as [m0|e] eqn:F;
    cbn [bind] in H; [|discriminate].
  inversion H; subst m0. exact (forEach_mask_keys _ _ _ F).
Qed.

Lemma mask_opt_typed (x : option json) :
  match x with
  | Some (JStr _) | None => True
  | Some v => truthy (Some v) = false
  end ->
  match mask_opt x with
  | Some (JStr _) | None => True
  | Some v => truthy (Some v) = false
  end.
Proof.
  destruct x as [[| b | n | s | l | o]|]; cbn [mask_opt]; intros H;
    try (rewrite H; exact H); try exact I.
  destruct (truthy (Some (JStr s))); exact I.
Qed.

Lemma mask_opt_looks_masked (x : option json) :
  match x with
  | Some (JStr _) | None => True
  | Some v => truthy (Some v) = false
  end ->
  looks_masked (mask_opt x) = truthy x \/
  (looks_masked (mask_opt x) = true /\ mask_opt x = x) \/
  (looks_masked (mask_opt x) = false /\ mask_opt x = x).
Proof.
  destruct x as [[| b | n | s | l | o]|]; cbn [mask_opt]; intros H;
    try (rewrite H; right; right; split; reflexivity);
    try (right; right; split; reflexivity).
  destruct s as [|c s]; [right; right; split; reflexivity|].
  left. cbn [truthy JsString.eqb negb mask_value looks_masked].
  apply includes_spec. exists (slice (c :: s) 0 4), (u16 "••••••••").
  rewrite marker_has_hint. reflexivity.
Qed.


Lemma lookup_keys_none (k : jsstring) (a b : list (jsstring * json)) :
  map fst a = map fst b -> lookup k a = None -> lookup k b = None.
Proof.
  intros E H. apply has_key_lookup. rewrite <- (has_key_keys k a b E).
  apply has_key_lookup. exact H.
Qed.

Lemma forEach_keep_secret_keys (b ex : list (jsstring * json))
  (l : list jsstring) :
  secrets_typed b -> (forall f, In f l -> In f secretFields) ->
  forall m m',
    map fst m = map fst ex ->
    forEach l (keep_secret (JObj b) (JObj ex)) m = Ok m' ->
    map fst m' = map fst ex.
Proof.
  intros Ty. induction l as [|f l IH]; intros Sub m m' K H; cbn [forEach] in H.
  - inversion H; subst. exact K.
  - rewrite keep_secret_typed in H
      by (try exact Ty; apply Sub; left; reflexivity).
    cbn [bind] in H.
    refine (IH (fun g Hg => Sub g (or_intror Hg)) _ m' _ H).
    destruct (looks_masked (lookup f b)); [|exact K].
    rewrite assign_keys; [exact K|].
    rewrite (has_key_keys f m ex K).
    destruct (lookup f ex) as [x|] eqn:L.
    + destruct (has_key f ex) eqn:Hk; [reflexivity|].
      apply has_key_lookup in Hk. congruence.
    + apply has_key_lookup. exact L.
Qed.

(** X6.  Saving the masked configuration back changes nothing.  When
    the object that GET /api/email/config answered is sent unchanged to
    PUT /api/email/config and the save is answered [{ok: true}], the
    stored configuration is again the one stored before, every secret in
    full, and GET /api/email/config answers as before. *)
Theorem resave_masked_config (u config : text) (o : list (jsstring * json))
  (masked : json) (w : world) :
  getEmailCfg (db w) u = Some config ->
  parse config = Some (JObj o) ->
  serializable (JObj o) ->
  secrets_typed o ->
  fst (get_api_email_config u w) = Json 200 masked ->
  fst (put_api_email_config u masked w) = Json 200 ok_true ->
  getEmailCfg (db (snd (put_api_email_config u masked w))) u
  = Some (stringify (JObj o)) /\
  existing_config (db (snd (put_api_email_config u masked w))) u = JObj o /\
  fst (get_api_email_config u (snd (put_api_email_config u masked w)))
  = Json 200 masked.
Proof.
  intros G P So Ty Hget Hput.
  assert (W : object_wf o) by (inversion So; assumption).
  pose proof (proj1 W) as U.
  destruct (maskConfig_total o U Ty) as [m M].
  assert (Em : masked = JObj m).
  { rewrite (get_api_email_config_masks w u config o m G P M) in Hget.
    inversion Hget; reflexivity. }
  subst masked.
  pose proof (maskConfig_keys o m W M) as K.
  destruct (maskConfig_object o (JObj m) U M) as [m0 [E0 Lm]].
  inversion E0; subst m0. clear E0.
  assert (Um : unique_keys m) by (unfold unique_keys; rewrite K; exact U).
  assert (Tm : secrets_typed m).
  { intros f Hf. rewrite (proj1 (Lm f) Hf). apply mask_opt_typed, Ty, Hf. }
  assert (X : forall w', snd (put_api_email_config u (JObj m) w) = w' ->
              db w' = setEmailCfg u (stringify (JObj o)) (db w)).
  { revert Hput. unfold put_api_email_config.
    cbn [json_body negb].
    destruct (negb (truthy (Some (JObj m)))
              || negb (truthy (get_prop (JObj m) (u16 "provider"))));
      [discriminate|].
    unfold existing_config. rewrite G, P, (spread_copy o W).
    destruct (forEach_keep_secret m o secretFields Tm (fun g H => H)
                secretFields_NoDup (spread o (JObj m))) as [merged [F L]].
    pose proof (forEach_keep_secret_keys m o secretFields Tm (fun g H => H)
                  (spread o (JObj m)) merged
                  (spread_keys o m ltac:(intros k H; rewrite <- K; exact H)) F)
      as Kmerged.
    rewrite F.
    assert (Eo : merged = o).
    { apply same_keys_lookup; [exact Kmerged | |].
      - unfold unique_keys. rewrite Kmerged. exact U.
      - intros k. rewrite L, lookup_spread by exact Um.
        destruct (existsb (JsString.eqb k) secretFields) eqn:S; cbn [andb].
        + assert (Hk : In k secretFields).
          { apply existsb_exists in S as [g [Hg Eg]].
            apply eqb_eq in Eg; subst g. exact Hg. }
          rewrite (proj1 (Lm k) Hk). specialize (Ty k Hk).
          destruct (lookup k o) as [[| b | n | s | l | p]|];
            cbn [mask_opt]; try rewrite Ty; try reflexivity.
          destruct s as [|c s]; [reflexivity|].
          cbn [truthy JsString.eqb negb mask_value looks_masked].
          assert (I : includes (slice (c :: s) 0 4 ++ marker) masked_hint = true).
          { apply includes_spec. exists (slice (c :: s) 0 4), (u16 "••••••••").
            rewrite marker_has_hint. reflexivity. }
          rewrite I. reflexivity.
        + assert (Hk : ~ In k secretFields).
          { intros Hk. rewrite (existsb_secret k Hk) in S. discriminate. }
          rewrite (proj2 (Lm k) Hk). destruct (lookup k o); reflexivity. }
    subst merged. unfold respond, mbind, ret.
    destruct (hd false (faults w)) eqn:Fl.
    - rewrite run_fault by exact Fl. discriminate.
    - rewrite run_ok by exact Fl. intros _ w' <-. reflexivity. }
  specialize (X _ eq_refl).
  assert (G' : getEmailCfg (db (snd (put_api_email_config u (JObj m) w))) u
               = Some (stringify (JObj o)))
    by (rewrite X, getEmailCfg_setEmailCfg, read_text_stringify; reflexivity).
  split; [exact G'|]. split.
  - unfold existing_config. rewrite G', (parse_stringify _ So). reflexivity.
  - rewrite (get_api_email_config_masks _ u _ o m G' (parse_stringify _ So) M).
    reflexivity.
Qed.


(** X7.  The masked configuration depends on a secret through its first
    four code units only: two configurations that differ in what follows
    the fourth code unit of a secret, whatever the lengths, are masked
    to the same object. *)
Theorem maskConfig_hides_tail (o : list (jsstring * json)) (f s s' : jsstring) :
  object_wf o -> secrets_typed o ->
  In f secretFields -> lookup f o = Some (JStr s) ->
  firstn 4 s = firstn 4 s' ->
  maskConfig (Some (JObj (update f (JStr s') o))) = maskConfig (Some (JObj o)).
Proof.
  intros W Ty Hf L E.
  assert (K : map fst (update f (JStr s') o) = map fst o) by apply update_keys.
  assert (W' : object_wf (update f (JStr s') o)).
  { destruct W as [U O]. split; [unfold unique_keys | ]; rewrite K; assumption. }
  assert (Hk : has_key f o = true).
  { destruct (has_key f o) eqn:H; [reflexivity|].
    apply has_key_lookup in H. congruence. }
  assert (Ty' : secrets_typed (update f (JStr s') o)).
  { intros g Hg. rewrite lookup_update, Hk.
    destruct (JsString.eqb g f); [exact I | exact (Ty g Hg)]. }
  destruct (maskConfig_total o (proj1 W) Ty) as [m M].
  destruct (maskConfig_total _ (proj1 W') Ty') as [m' M'].
  rewrite M, M'. do 2 f_equal.
  destruct (maskConfig_object o (JObj m) (proj1 W) M) as [m0 [E0 Lm]].
  inversion E0; subst m0; clear E0.
  destruct (maskConfig_object _ (JObj m') (proj1 W') M') as [m0 [E0 Lm']].
  inversion E0; subst m0; clear E0.
  apply same_keys_lookup.
  - rewrite (maskConfig_keys _ _ W' M'), (maskConfig_keys _ _ W M). exact K.
  - unfold unique_keys. rewrite (maskConfig_keys _ _ W' M'). exact (proj1 W').
  - intros k. destruct (in_dec (list_eq_dec N.eq_dec) k secretFields) as [Hs | Hs].
    + rewrite (proj1 (Lm k) Hs), (proj1 (Lm' k) Hs), lookup_update, Hk.
      destruct (JsString.eqb k f) eqn:Ek; [|reflexivity].
      apply eqb_eq in Ek; subst k. rewrite L. cbn [mask_opt].
      destruct s as [|c s]; destruct s' as [|c' s']; try discriminate;
        [reflexivity|].
      cbn [truthy JsString.eqb negb mask_value]. rewrite !slice_0_4, E.
      reflexivity.
    + rewrite (proj2 (Lm k) Hs), (proj2 (Lm' k) Hs), lookup_update, Hk.
      destruct (JsString.eqb k f) eqn:Ek; [|reflexivity].
      apply eqb_eq in Ek; subst k. contradiction.
Qed.


(** ** server.js: the identity of a request *)

Definition identity_headers : list jsstring :=
  [u16 "remote-user"; u16 "x-authentik-username"; u16 "x-forwarded-user";
   u16 "x-remote-user"].

(** A header that does not name a user: not sent, or empty. *)
Definition unset (h : option jsstring) : Prop := h = None \/ h = Some [].

Lemma header_or_unset (h : option jsstring) (d : jsstring) :
  unset h -> header_or h d = d.
Proof. intros [-> | ->]; reflexivity. Qed.

Lemma header_or_set (v d : jsstring) : v <> [] -> header_or (Some v) d = v.
Proof. destruct v; [congruence | reflexivity]. Qed.

Lemma header_or_nonempty (h : option jsstring) (d : jsstring) :
  d <> [] -> header_or h d <> [].
Proof. destruct h as [[|c s]|]; cbn [header_or]; intros H; congruence. Qed.

(** X8.  The tenant of a request is never the empty string.  It is the
    value of the first of the headers Remote-User, X-Authentik-Username,
    X-Forwarded-User, X-Remote-User that is sent and not empty, the
    headers before it being unset; and it is [local] when none is. *)
Theorem req_userId_precedence (headers : jsstring -> option jsstring) :
  req_userId headers <> [] /\
  (forall before name after v,
     identity_headers = before ++ name :: after ->
     (forall n, In n before -> unset (headers n)) ->
     headers name = Some v -> v <> [] ->
     req_userId headers = v) /\
  ((forall n, In n identity_headers -> unset (headers n)) ->
   req_userId headers = u16 "local").
Proof.
  unfold req_userId. split; [|split].
  - repeat apply header_or_nonempty. discriminate.
  - intros before name after v E U Hv Nv. unfold identity_headers in E.
    destruct before as [|b1 [|b2 [|b3 [|b4 rest]]]];
      cbn [app] in E; inversion E; subst; clear E.
    + rewrite Hv. apply header_or_set. exact Nv.
    + rewrite (header_or_unset _ _ (U _ (or_introl eq_refl))), Hv.
      apply header_or_set. exact Nv.
    + rewrite (header_or_unset _ _ (U _ (or_introl eq_refl))).
      rewrite (header_or_unset _ _ (U _ (or_intror (or_introl eq_refl)))), Hv.
      apply header_or_set. exact Nv.
    + rewrite (header_or_unset _ _ (U _ (or_introl eq_refl))).
      rewrite (header_or_unset _ _ (U _ (or_intror (or_introl eq_refl)))).
      rewrite (header_or_unset _ _
                 (U _ (or_intror (or_intror (or_introl eq_refl))))), Hv.
      apply header_or_set. exact Nv.
    + destruct rest; discriminate.
  - intros U. unfold identity_headers in U.
    rewrite !header_or_unset; [reflexivity | | | |]; apply U; cbn [In]; tauto.
Qed.

(** ** email.js: what sendEmail sends *)






(** ** server.js: the body parser and the routes *)


(** X11.  Every email configuration the program stores is the text of a
    JSON object, which every later save merges into; no string secret of
    it holds four bullets in a row. *)
Theorem stored_config_is_object (w : world) (u config : text) :
  stored w ->
  getEmailCfg (db w) u = Some config ->
  exists o,
    parse config = Some (JObj o) /\
    serializable (JObj o) /\
    existing_config (db w) u = JObj o /\
    (forall f s, In f secretFields -> lookup f o = Some (JStr s) ->
       includes s masked_hint = false).
Proof.
  intros S G. pose proof (stored_configs_ok w S) as C.
  unfold existing_config. rewrite G. unfold getEmailCfg in G.
  destruct (find (same_user u) (email_config (db w))) as [r|] eqn:F;
    [|discriminate G].
  apply find_some in F as [Hin _]. destruct (C r Hin) as [o [E [So Cl]]].
  injection G as G. rewrite E, read_text_stringify in G. subst config.
  exists o. rewrite (parse_stringify _ So). repeat split; assumption.
Qed.

Lemma stored_config_is_object_witness :
  exists o,
    parse (stringify (JObj sample_config)) = Some (JObj o) /\
    serializable (JObj o) /\
    existing_config (db saved_world) (u16 "local") = JObj o /\
    (forall f s, In f secretFields -> lookup f o = Some (JStr s) ->
       includes s masked_hint = false).
Proof.
  apply (stored_config_is_object saved_world (u16 "local")
           (stringify (JObj sample_config)) saved_world_stored).
  vm_compute. reflexivity.
Defined.

(** X12.  The single-month routes keep the stored month keys of the
    form YYYY-MM: PUT /api/months/:key with another key answers 400 and
    writes nothing, and after a PUT or a DELETE, however it ends, every
    stored key is valid if every stored key was. *)
Theorem month_routes_keep_keys_valid (u k : text) (body : json) (w : world) :
  month_keys_valid (db w) ->
  (json_body body = true -> month_key_ok k = false ->
   put_api_months_key u k body w
   = (Json 400 (error_body "Invalid month key (expected YYYY-MM)"), w)) /\
  month_keys_valid (db (snd (put_api_months_key u k body w))) /\
  month_keys_valid (db (snd (delete_api_months_key u k w))).
Proof.
  intros V. split; [|split].
  - intros B K. unfold put_api_months_key. rewrite B, K. reflexivity.
  - unfold put_api_months_key.
    destruct (json_body body); cbn [negb]; [|exact V].
    destruct (month_key_ok k) eqn:K; cbn [negb]; [|exact V].
    rewrite respond_snd. unfold run.
    assert (X : month_keys_valid (setMonth u k (stringify body) (db w))).
    { intros r H. unfold setMonth in H. cbn [monthly_data] in H.
      unfold replace_row in H. apply in_app_or in H as [H | [<- | []]].
      - apply filter_In in H as [H _]. apply V; exact H.
      - exact K. }
    destruct (faults w) as [|[|] fs]; cbn [snd db]; assumption.
  - unfold delete_api_months_key. rewrite respond_snd. unfold run.
    assert (X : month_keys_valid (deleteMonth u k (db w))).
    { intros r H. unfold deleteMonth in H. cbn [monthly_data] in H.
      unfold delete_row in H. apply filter_In in H as [H _]. apply V; exact H. }
    destruct (faults w) as [|[|] fs]; cbn [snd db]; assumption.
Qed.

(** A database that holds two months of a tenant, the later one stored
    first. *)
Definition two_months_world : world :=
  {| db := {| user_state := [];
              email_config := [];
              monthly_data :=
                [(u16 "local", u16 "2026-03", u16 "{}");
                 (u16 "local", u16 "2025-12", stringify month_record)] |};
     faults := [] |}.

Lemma two_months_valid : month_keys_valid (db two_months_world).
Proof.
  intros r [<- | [<- | []]]; reflexivity.
Defined.

Lemma two_months_primary_keys : primary_keys (db two_months_world).
Proof.
  repeat split; try constructor.
  - cbn. intros [H | []]. inversion H.
  - constructor; [intros [] | constructor].
Defined.

Lemma month_routes_keep_keys_valid_witness :
  (json_body (JObj []) = true -> month_key_ok (u16 "someday") = false ->
   put_api_months_key (u16 "local") (u16 "someday") (JObj []) two_months_world
   = (Json 400 (error_body "Invalid month key (expected YYYY-MM)"),
      two_months_world)) /\
  month_keys_valid
    (db (snd (put_api_months_key (u16 "local") (u16 "someday") (JObj [])
                two_months_world))) /\
  month_keys_valid
    (db (snd (delete_api_months_key (u16 "local") (u16 "someday")
                two_months_world))).
Proof.
  exact (month_routes_keep_keys_valid (u16 "local") (u16 "someday") (JObj [])
           two_months_world two_months_valid).
Defined.

(** X13.  The write routes keep the PRIMARY KEY constraints of the three
    tables: after any write request, however it ends, no table holds two
    rows with the same key. *)
Theorem handle_primary_keys (u : text) (r : request) (w : world) :
  primary_keys (db w) -> primary_keys (db (snd (handle u r w))).
Proof.
  intros P. exact (writes_primary_keys u _ _ (handle_writes u r w) P).
Qed.

Lemma handle_primary_keys_witness :
  primary_keys
    (db (snd (handle (u16 "local") (PutMonth (u16 "2026-03") month_record)
                two_months_world))).
Proof.
  exact (handle_primary_keys (u16 "local")
           (PutMonth (u16 "2026-03") month_record) two_months_world
           two_months_primary_keys).
Defined.

(** *** Instances *)

Lemma month_delete_read_witness :
  fst (get_api_months_key (u16 "local") (u16 "2026-03")
         (snd (delete_api_months_key (u16 "local") (u16 "2026-03")
                 two_months_world)))
  = Json 200 (JObj []) /\
  forall k,
    JsString.eqb k (u16 "2026-03") = false ->
    fst (get_api_months_key (u16 "local") k
           (snd (delete_api_months_key (u16 "local") (u16 "2026-03")
                   two_months_world)))
    = fst (get_api_months_key (u16 "local") k two_months_world).
Proof.
  apply (month_delete_read (u16 "local") (u16 "2026-03") two_months_world).
  vm_compute. reflexivity.
Defined.

Lemma month_write_frame_witness :
  (forall k,
     JsString.eqb k (u16 "2026-03") = false ->
     fst (get_api_months_key (u16 "local") k
            (snd (handle (u16 "local") (PutMonth (u16 "2026-03") (JObj []))
                    two_months_world)))
     = fst (get_api_months_key (u16 "local") k two_months_world)) /\
  fst (get_api_state (u16 "local")
         (snd (handle (u16 "local") (PutMonth (u16 "2026-03") (JObj []))
                 two_months_world)))
  = fst (get_api_state (u16 "local") two_months_world) /\
  fst (get_api_email_config (u16 "local")
         (snd (handle (u16 "local") (PutMonth (u16 "2026-03") (JObj []))
                 two_months_world)))
  = fst (get_api_email_config (u16 "local") two_months_world).
Proof.
  apply (month_write_frame (u16 "local") (u16 "2026-03")
           (PutMonth (u16 "2026-03") (JObj [])) two_months_world).
  left. exists (JObj []). reflexivity.
Defined.

Lemma months_listed_in_order_witness :
  exists months,
    get_api_months (u16 "local") two_months_world
    = (Json 200 (JObj months), two_months_world) /\
    StronglySorted earlier (map fst months) /\
    forall k,
      lookup k months
      = match getMonth (db two_months_world) (u16 "local") k with
        | Some data => parse data
        | None => None
        end.
Proof.
  exact (months_listed_in_order (u16 "local") two_months_world
           two_months_primary_keys two_months_valid).
Defined.

(** The two months of [two_months_world], listed. *)
Example two_months_listed :
  get_api_months (u16 "local") two_months_world
  = (Json 200 (JObj [(u16 "2025-12", month_record); (u16 "2026-03", JObj [])]),
     two_months_world).
Proof. vm_compute. reflexivity. Qed.

Lemma stored_config_serializable : serializable (JObj stored_config).
Proof.
  constructor; [split; [distinct_keys | reflexivity]|].
  repeat constructor.
Defined.

Lemma stored_config_typed : secrets_typed stored_config.
Proof. each_secret. Defined.

Lemma resave_masked_config_witness :
  getEmailCfg
    (db (snd (put_api_email_config (u16 "local")
                (JObj [(u16 "provider", JStr (u16 "smtp"));
                       (u16 "fromEmail", JStr (u16 "bills@example.org"));
                       (u16 "smtpPass", JStr (u16 "old-••••••••••••"))])
                stored_world))) (u16 "local")
  = Some (stringify (JObj stored_config)) /\
  existing_config
    (db (snd (put_api_email_config (u16 "local")
                (JObj [(u16 "provider", JStr (u16 "smtp"));
                       (u16 "fromEmail", JStr (u16 "bills@example.org"));
                       (u16 "smtpPass", JStr (u16 "old-••••••••••••"))])
                stored_world))) (u16 "local")
  = JObj stored_config /\
  fst (get_api_email_config (u16 "local")
         (snd (put_api_email_config (u16 "local")
                 (JObj [(u16 "provider", JStr (u16 "smtp"));
                        (u16 "fromEmail", JStr (u16 "bills@example.org"));
                        (u16 "smtpPass", JStr (u16 "old-••••••••••••"))])
                 stored_world)))
  = Json 200 (JObj [(u16 "provider", JStr (u16 "smtp"));
                    (u16 "fromEmail", JStr (u16 "bills@example.org"));
                    (u16 "smtpPass", JStr (u16 "old-••••••••••••"))]).
Proof.
  apply (resave_masked_config (u16 "local") (stringify (JObj stored_config))
           stored_config
           (JObj [(u16 "provider", JStr (u16 "smtp"));
                  (u16 "fromEmail", JStr (u16 "bills@example.org"));
                  (u16 "smtpPass", JStr (u16 "old-••••••••••••"))])
           stored_world).
  - vm_compute. reflexivity.
  - vm_compute. reflexivity.
  - exact stored_config_serializable.
  - exact stored_config_typed.
  - vm_compute. reflexivity.
  - vm_compute. reflexivity.
Defined.

Lemma sample_config_wf : object_wf sample_config.
Proof. split; [exact sample_config_unique | reflexivity]. Defined.

Lemma maskConfig_hides_tail_witness :
  maskConfig
    (Some (JObj (update (u16 "smtpPass") (JStr (u16 "hunt")) sample_config)))
  = maskConfig (Some (JObj sample_config)).
Proof.
  apply (maskConfig_hides_tail sample_config (u16 "smtpPass")
           (u16 "hunter2-secret") (u16 "hunt") sample_config_wf
           sample_config_typed).
  - vm_compute. tauto.
  - vm_compute. reflexivity.
  - vm_compute. reflexivity.
Defined.



(** An export of [two_months_world], imported by another tenant into an
    empty database, is read back month by month. *)
Example backup_restored :
  fst (post_api_import (u16 "bob")
         (JObj [(u16 "user", JStr (u16 "local"));
                (u16 "exportedAt", JStr (u16 "2026-04-01T00:00:00.000Z"));
                (u16 "state", JObj []);
                (u16 "monthly",
                 JObj [(u16 "2025-12", month_record); (u16 "2026-03", JObj [])])])
         {| db := Db.empty; faults := [] |})
  = Json 200 ok_true /\
  fst (get_api_export (u16 "local") (u16 "2026-04-01T00:00:00.000Z")
         two_months_world)
  = Json 200
      (JObj [(u16 "user", JStr (u16 "local"));
             (u16 "exportedAt", JStr (u16 "2026-04-01T00:00:00.000Z"));
             (u16 "state", JObj []);
             (u16 "monthly",
              JObj [(u16 "2025-12", month_record); (u16 "2026-03", JObj [])])]).
Proof. split; vm_compute; reflexivity. Qed.
